(** * anidf: the resumable batch-processing pipeline of [src/anidf/main.py]

    A shallow embedding of the processor of the camera-trap classifier
    (scanner, record builder, batch classification, checkpoint store and
    the two entry points of the batch loop) and the properties its
    specification states about it.

    Conventions of the embedding.
    - A Python [str] is a [string] whose characters are the code points
      below 256; [str.lower], [str.strip] and [urllib.parse.quote_plus]
      are written out for that range. Paths are POSIX paths: [os.sep] is
      the slash and [os.path.join] is [posixpath.join].
    - A Python [float] is a binary64 [PrimFloat.float]; [<] is
      [PrimFloat.ltb], so that NaN compares as in Python.
    - A [dict] read with [.get] is a record whose fields are options
      (an absent key is [None]).
    - The processor object, the checkpoint file and the calls made to the
      outside (user interface, classifier, exporter) are one explicit
      state, threaded through a state-and-exception monad; what the
      outside answers is read from an environment of oracles. *)

From Stdlib Require Import PrimFloat ZArith Ascii String.
From Stdlib Require Floats.
From stdpp Require Import base tactics option list gmap strings.

Local Open Scope Z_scope.

Set Warnings "-register-all,-clear-no-such-hyp".

(** ** Python builtins used by the program *)

Module Py.

(** The code point of a character. *)
Definition ord (c : ascii) : N := N_of_ascii c.
Definition chr (n : N) : ascii := ascii_of_N n.

(** The characters below 256 for which [str.isspace] holds. *)
Definition isspace (c : ascii) : bool :=
  let n := ord c in
  ((9 <=? n) && (n <=? 13) || (28 <=? n) && (n <=? 32)
   || (n =? 133) || (n =? 160))%N.

(** [str.lower] on one character below 256: A-Z, and the Latin-1 capitals
    192-222 except the multiplication sign 215, move up by 32. *)
Definition lower_char (c : ascii) : ascii :=
  let n := ord c in
  if ((65 <=? n) && (n <=? 90)
      || (192 <=? n) && (n <=? 222) && negb (n =? 215))%N
  then chr (n + 32) else c.

Fixpoint lower (s : string) : string :=
  match s with
  | EmptyString => EmptyString
  | String c s' => String (lower_char c) (lower s')
  end.

(** [s.lstrip()], [s.rstrip()] and [s.strip()]. *)
Fixpoint lstrip (s : string) : string :=
  match s with
  | EmptyString => EmptyString
  | String c s' => if isspace c then lstrip s' else s
  end.

Fixpoint rstrip (s : string) : string :=
  match s with
  | EmptyString => EmptyString
  | String c s' =>
      match rstrip s' with
      | EmptyString => if isspace c then EmptyString else String c EmptyString
      | r => String c r
      end
  end.

Definition strip (s : string) : string := rstrip (lstrip s).

(** [s.split(sep)] for a separator of one character: never empty. *)
Fixpoint split (sep : ascii) (s : string) : list string :=
  match s with
  | EmptyString => [EmptyString]
  | String c s' =>
      if Ascii.eqb c sep then EmptyString :: split sep s'
      else match split sep s' with
           | h :: t => String c h :: t
           | [] => [String c EmptyString]
           end
  end.

(** [s.replace(a, b)] for single characters. *)
Fixpoint replace (a b : ascii) (s : string) : string :=
  match s with
  | EmptyString => EmptyString
  | String c s' => String (if Ascii.eqb c a then b else c) (replace a b s')
  end.

(** [s.startswith(p)]. *)
Fixpoint startswith (s p : string) : bool :=
  match p, s with
  | EmptyString, _ => true
  | String _ _, EmptyString => false
  | String a p', String c s' => Ascii.eqb c a && startswith s' p'
  end.

(** [s.endswith(p)]: some suffix of [s] is [p]. *)
Fixpoint endswith (s p : string) : bool :=
  if String.eqb s p then true
  else match s with
       | EmptyString => false
       | String _ s' => endswith s' p
       end.

(** [s.endswith((p1, ..., pn))]. *)
Definition endswith_any (s : string) (ps : list string) : bool :=
  existsb (endswith s) ps.

(** [l[-k]] guarded by [len(l) >= k], as [parse_path_parts] writes it. *)
Definition index_from_end {A} (l : list A) (k : nat) : option A :=
  if (k <=? length l)%nat then l !! (length l - k)%nat else None.

(** [posixpath.join(a, b)]. *)
Definition path_join (a b : string) : string :=
  if startswith b "/" then b
  else if String.eqb a EmptyString || endswith a "/" then a +:+ b
  else a +:+ "/" +:+ b.

(** *** [urllib.parse.quote_plus] *)

(** The characters [quote] never escapes: letters, digits and [_.-~]. *)
Definition always_safe (c : ascii) : bool :=
  let n := ord c in
  ((65 <=? n) && (n <=? 90) || (97 <=? n) && (n <=? 122)
   || (48 <=? n) && (n <=? 57)
   || (n =? 95) || (n =? 46) || (n =? 45) || (n =? 126))%N.

Definition hex_digit (n : N) : ascii :=
  if (n <? 10)%N then chr (48 + n) else chr (55 + n).

(** One byte as [%XX], upper-case hexadecimal. *)
Definition percent (b : N) : string :=
  String "%" (String (hex_digit (b / 16)) (String (hex_digit (b mod 16)) EmptyString)).

(** The UTF-8 bytes of a code point below 256. *)
Definition utf8 (c : ascii) : list N :=
  let n := ord c in
  if (n <? 128)%N then [n] else [192 + n / 64; 128 + n mod 64]%N.

Definition quote_plus_char (c : ascii) : string :=
  if Ascii.eqb c " " then "+"
  else if always_safe c then String c EmptyString
  else fold_right (fun b acc => percent b +:+ acc) EmptyString (utf8 c).

Fixpoint quote_plus (s : string) : string :=
  match s with
  | EmptyString => EmptyString
  | String c s' => quote_plus_char c +:+ quote_plus s'
  end.

(** *** [range] and slices *)

(** [range(0, n, step)] for [n >= 0]: [None] is the [ValueError] of a zero
    step; a negative step gives the empty range. *)
Definition range0 (n : nat) (step : Z) : option (list nat) :=
  if step =? 0 then None
  else if step <? 0 then Some []
  else
    let k := Z.to_nat step in
    Some (map (fun i => (i * k)%nat) (seq 0 ((n + k - 1) / k)%nat)).

(** [l[i:i+k]] for [i >= 0]; a negative [i + k] counts from the end. *)
Definition slice {A} (l : list A) (i : nat) (k : Z) : list A :=
  let stop := Z.of_nat i + k in
  let stop' := if stop <? 0 then Z.max 0 (Z.of_nat (length l) + stop) else stop in
  take (Z.to_nat stop' - i)%nat (drop i l).

End Py.

(** ** Data model *)

(** Exceptions the embedding distinguishes. *)
Inductive exn :=
  | TypeError | ValueError | IndexError | OSError | FileNotFoundError
  | OtherError.

(** The result of a call that may raise. *)
Inductive outcome (A : Type) :=
  | Ok (a : A)
  | Raise (e : exn).
Arguments Ok {A} a.
Arguments Raise {A} e.

(** One classification result: the dict [{label, score}] the classifier
    gives for an image; a key may be absent. *)
Record ClassificationResult := mkResult {
  label : option string;
  score : option float;
}.

(** What a classifier call returns for one image, by the shapes
    [_classify_batch] tells apart: a list of results, a dict, anything else. *)
Inductive pyval :=
  | VList (items : list ClassificationResult)
  | VDict (d : ClassificationResult)
  | VOther.

(** The dict built by [_record_from_path_and_result] (lines 221-229). *)
Record Rec := mkRec {
  Animal_Folder : option string;
  Block : option string;
  Camera_ID : option string;
  Animal_Name : string;
  Date : option string;
  Time : option string;
  Path : string;
}.

(** The dict built for the export by [_finalize_processing] (lines 300-307):
    a record without its [Path]. *)
Record ExportRow := mkRow {
  row_Animal_Folder : option string;
  row_Block : option string;
  row_Camera_ID : option string;
  row_Animal_Name : option string;
  row_Date : option string;
  row_Time : option string;
}.

(** A directory: the names of its files and its sub-directories, both in
    the order [os.scandir] lists them. *)
Inductive dir :=
  | Dir (files : list string) (subdirs : list (string * dir)).

(** The [meta] object of [progress.json]; a key may be absent. *)
Record Meta := mkMeta {
  meta_root_folder : option (option string);
  meta_batch_size : option Z;
  meta_confidence_threshold : option float;
  meta_saved_at : option string;
}.

(** The JSON object of [progress.json]; a key may be absent. Its records
    are records as this program writes them: a file whose [records] entry
    is JSON of another shape, which line 175 assigns as it is, has no
    counterpart here. *)
Record Payload := mkPayload {
  meta : option Meta;
  payload_records : option (list Rec);
  payload_processed_paths : option (list string);
}.

(** A [progress.json] on which the [try] block of [_load_progress] raises,
    by how far the assignments of lines 172-176 got before it did. *)
Inductive Corrupt :=
  | BadJSON
  | BadBatchSize (root : option (option string))
  | BadThreshold (root : option (option string)) (bs : option Z)
  | BadProcessedPaths (root : option (option string)) (bs : option Z)
      (th : option float) (recs : option (list Rec)).

(** The checkpoint file [PROGRESS_FILE]. *)
Inductive Disk :=
  | NoFile
  | Stored (p : Payload)
  | Malformed (c : Corrupt).

(** How one attempt to write [progress.json] ends (lines 160-161). *)
Inductive WriteOutcome :=
  | WriteOk
  | OpenFails   (* [open] raises: the file is left as it was *)
  | DumpFails.  (* [json.dump] raises after [open] truncated the file *)

(** The messages of the status line. *)
Inductive Status :=
  | LoadingModel
  | ModelLoaded
  | Stopping
  | Processed (done total : nat)
  | ExportedToExcel.

(** What the program does to the outside, in order. *)
Inductive Event :=
  | SetStatus (msg : Status)
  | ProgressMaximum (n : nat)
  | ProgressValue (n : nat)
  | EnableUI
  | ShowError (title : string)
  | ShowInfo (title : string)
  | ShowWarning (title : string)
  | ClassifyBatch (paths : list string)
  | ClassifyOne (path : string)
  | CheckpointWritten (p : Payload)
  | PrintSaveError
  | Exported (rows : list ExportRow).

(** The answers of the outside. *)
Record World := mkWorld {
  (** the directory at a path, when there is one *)
  fs_dir : string -> option dir;
  (** [Image.open(p)._getexif()]: the EXIF entries by tag number *)
  getexif : string -> outcome (option (list (Z * string)));
  (** [classifier(batch_paths, top_k=1)] *)
  classify_many : list string -> outcome (list pyval);
  (** [classifier(p, top_k=1)] *)
  classify_one : string -> outcome pyval;
  (** whether [LOCAL_MODEL_DIR] is a directory, and [pipeline] loads it *)
  model_dir_exists : bool;
  pipeline_loads : bool;
  (** whether [stop()] was called since the previous look at the flag *)
  stop_requested : nat -> bool;
  (** the k-th call of [_save_progress]: [os.makedirs], the clock, the write *)
  makedirs_ok : nat -> bool;
  clock : nat -> string;
  write_outcome : nat -> WriteOutcome;
  (** whether [save_to_excel] returns for these rows, and the exception
      that leaves it when it does not *)
  excel_ok : list ExportRow -> bool;
  excel_error : list ExportRow -> exn;
}.

(** The fields of the [Processor] object (lines 108-116). *)
Record Processor := mkProcessor {
  classifier : bool;   (* [self.classifier is not None] *)
  stop_flag : bool;
  records : list Rec;
  processed_paths : gset string;
  root_folder : option string;
  batch_size : Z;
  conf_threshold : float;
}.

(** The processor, the checkpoint file, the events so far, and how many
    times the flag was looked at and [_save_progress] was called. *)
Record State := mkState {
  self : Processor;
  disk : Disk;
  events : list Event;
  polls : nat;
  saves : nat;
}.

(** [Processor.__init__] (lines 108-116). *)
Definition Processor_init : Processor :=
  mkProcessor false false [] ∅ None 16 0x1.b333333333333p-1%float.

(** ** Helpers (lines 37-68) *)

Definition os_sep : ascii := "/".

(** [parse_path_parts] (lines 55-61): animal folder, block, camera id. *)
Definition parse_path_parts (img_path : string)
  : option string * option string * option string :=
  let parts := Py.split os_sep img_path in
  let animal_folder := Py.index_from_end parts 2 in
  let camera_id := Py.index_from_end parts 3 in
  let block := Py.index_from_end parts 4 in
  (animal_folder, block, camera_id).

Definition dq : string := String "034"%char EmptyString.

(** The locals [label], [query] and [url] of [build_hyperlink_for_animal]
    (lines 65-67). *)
Definition hyperlink_label (name : string) : string :=
  if String.eqb name EmptyString then "Unidentified" else name.

Definition hyperlink_query (name : string) : string :=
  let label := hyperlink_label name in
  Py.quote_plus
    (if negb (String.eqb (Py.lower label) "unidentified") then label
     else "wildlife+image+unidentified").

Definition hyperlink_url (name : string) : string :=
  "https://www.google.com/search?q=" +:+ hyperlink_query name.

(** [build_hyperlink_for_animal] (lines 63-68). *)
Definition build_hyperlink_for_animal (name : string) : string :=
  "=HYPERLINK(" +:+ dq +:+ hyperlink_url name +:+ dq +:+ ", "
    +:+ dq +:+ hyperlink_label name +:+ dq +:+ ")".

(** PIL's [TAGS] table, for the date tags; every other tag has another
    name or none. *)
Definition TAGS (tag : Z) : option string :=
  if tag =? 306 then Some "DateTime"
  else if tag =? 36867 then Some "DateTimeOriginal"
  else if tag =? 36868 then Some "DateTimeDigitized"
  else None.

(** The first entry whose tag is named DateTime (the loop of lines 44-50
    stops there). *)
Fixpoint first_DateTime (info : list (Z * string)) : option string :=
  match info with
  | [] => None
  | (tag, value) :: rest =>
      match TAGS tag with
      | Some name => if String.eqb name "DateTime" then Some value
                     else first_DateTime rest
      | None => first_DateTime rest
      end
  end.

(** The classifier's fallback result (lines 196, 208, 210). *)
Definition fallback : ClassificationResult :=
  mkResult (Some "Unidentified") (Some 0%float).

(** The normalisation of one item (lines 191-196 and 203-208). *)
Definition normalize (item : pyval) : ClassificationResult :=
  match item with
  | VList (d :: _) => d
  | VDict d => d
  | _ => fallback
  end.

(** The locals [label] (line 214) and [score] (line 215) of
    [_record_from_path_and_result]: an absent or empty label is
    Unidentified, an absent score is 0.0. *)
Definition result_label (result : ClassificationResult) : string :=
  match label result with
  | Some l => if String.eqb l EmptyString then "Unidentified" else l
  | None => "Unidentified"
  end.

Definition result_score (result : ClassificationResult) : float :=
  default 0%float (score result).

(** The first comma-separated segment of the label, trimmed (line 216). *)
Definition first_segment (result : ClassificationResult) : string :=
  Py.strip (hd EmptyString (Py.split "," (result_label result))).

(** The local [animal_name] after line 218. *)
Definition animal_name (result : ClassificationResult) (conf_threshold : float)
  : string :=
  if PrimFloat.ltb (result_score result) conf_threshold then "Unidentified"
  else first_segment result.

(** The projection of lines 300-307. *)
Definition export_row (r : Rec) : ExportRow :=
  mkRow (Animal_Folder r) (Block r) (Camera_ID r) (Some (Animal_Name r))
        (Date r) (Time r).

(** ** The state-and-exception monad

    A computation takes the state and gives the state it leaves with either
    a value or the exception it raised: what was assigned before a [raise]
    stays assigned. *)

Definition M (A : Type) : Type := State -> State * outcome A.

Definition ret {A} (a : A) : M A := fun st => (st, Ok a).

Definition raise {A} (e : exn) : M A := fun st => (st, Raise e).

Definition bind {A B} (m : M A) (f : A -> M B) : M B :=
  fun st =>
    match m st with
    | (st', Ok a) => f a st'
    | (st', Raise e) => (st', Raise e)
    end.

(** [try: m  except Exception as e: h e]. *)
Definition try_except {A} (m : M A) (h : exn -> M A) : M A :=
  fun st =>
    match m st with
    | (st', Ok a) => (st', Ok a)
    | (st', Raise e) => h e st'
    end.

Notation "'let*' x ':=' m 'in' k" := (bind m (fun x => k))
  (at level 10, x name, m at level 100, k at level 200).
Notation "'do*' m 'in' k" := (bind m (fun _ => k))
  (at level 10, m at level 100, k at level 200).

Definition lift {A} (o : outcome A) : M A := fun st => (st, o).

Definition get_self : M Processor := fun st => (st, Ok (self st)).

Definition get_disk : M Disk := fun st => (st, Ok (disk st)).

Definition modify_self (f : Processor -> Processor) : M unit :=
  fun st => (mkState (f (self st)) (disk st) (events st) (polls st) (saves st), Ok tt).

Definition set_disk (d : Disk) : M unit :=
  fun st => (mkState (self st) d (events st) (polls st) (saves st), Ok tt).

Definition emit (e : Event) : M unit :=
  fun st => (mkState (self st) (disk st) (events st ++ [e]) (polls st) (saves st), Ok tt).

(** [out = []; for x in l: out.append(f x)]. *)
Fixpoint collect {A B} (f : A -> M B) (l : list A) : M (list B) :=
  match l with
  | [] => ret []
  | x :: rest => let* y := f x in let* ys := collect f rest in ret (y :: ys)
  end.

(** ** Field updates of the processor *)

Definition with_classifier (b : bool) (p : Processor) : Processor :=
  mkProcessor b (stop_flag p) (records p) (processed_paths p)
              (root_folder p) (batch_size p) (conf_threshold p).

Definition with_stop_flag (b : bool) (p : Processor) : Processor :=
  mkProcessor (classifier p) b (records p) (processed_paths p)
              (root_folder p) (batch_size p) (conf_threshold p).

Definition with_records (l : list Rec) (p : Processor) : Processor :=
  mkProcessor (classifier p) (stop_flag p) l (processed_paths p)
              (root_folder p) (batch_size p) (conf_threshold p).

Definition with_processed_paths (s : gset string) (p : Processor) : Processor :=
  mkProcessor (classifier p) (stop_flag p) (records p) s
              (root_folder p) (batch_size p) (conf_threshold p).

Definition with_root_folder (r : option string) (p : Processor) : Processor :=
  mkProcessor (classifier p) (stop_flag p) (records p) (processed_paths p)
              r (batch_size p) (conf_threshold p).

Definition with_batch_size (n : Z) (p : Processor) : Processor :=
  mkProcessor (classifier p) (stop_flag p) (records p) (processed_paths p)
              (root_folder p) n (conf_threshold p).

Definition with_conf_threshold (t : float) (p : Processor) : Processor :=
  mkProcessor (classifier p) (stop_flag p) (records p) (processed_paths p)
              (root_folder p) (batch_size p) t.

Section Model.

Context (W : World).

(** [extract_metadata] (lines 37-53): Date and Time. *)
Definition extract_metadata (img_path : string) : option string * option string :=
  match getexif W img_path with
  | Ok (Some info) =>
      match first_DateTime info with
      | Some value =>
          match Py.split " " value with
          | [d; t] => (Some (Py.replace ":" "-" d), Some t)
          | _ => (None, None)
          end
      | None => (None, None)
      end
  | Ok None => (None, None)
  | Raise _ => (None, None)
  end.

(** [_record_from_path_and_result] (lines 213-229). *)
Definition _record_from_path_and_result (conf_threshold : float)
    (img_path : string) (result : ClassificationResult) : Rec :=
  let name := animal_name result conf_threshold in
  let meta := extract_metadata img_path in
  let '(animal_folder, block, camera_id) := parse_path_parts img_path in
  {| Animal_Folder := animal_folder;
     Block := block;
     Camera_ID := camera_id;
     Animal_Name := build_hyperlink_for_animal name;
     Date := meta.1;
     Time := meta.2;
     Path := img_path |}.

(** [os.walk(top)]: each directory with its files, top-down; a top that is
    no directory gives nothing. *)
Fixpoint walk_dir (top : string) (d : dir) : list (string * list string) :=
  match d with
  | Dir files subdirs =>
      (top, files) ::
      (fix go (l : list (string * dir)) : list (string * list string) :=
         match l with
         | [] => []
         | (name, sub) :: rest => walk_dir (Py.path_join top name) sub ++ go rest
         end) subdirs
  end.

Definition os_walk (top : string) : list (string * list string) :=
  match fs_dir W top with
  | Some d => walk_dir top d
  | None => []
  end.

(** The body of the inner loop of [_scan_all_images] (lines 139-144). *)
Definition scan_file (processed : gset string) (root f : string) : option string :=
  if Py.startswith f "._" then None
  else if Py.endswith_any (Py.lower f) [".jpg"; ".jpeg"; ".png"] then
    let full := Py.path_join root f in
    if bool_decide (full ∈ processed) then None else Some full
  else None.

(** [_scan_all_images] (lines 135-145) for a root folder that is a string. *)
Definition scan_all_images (root_folder : string) (processed : gset string)
  : list string :=
  flat_map (fun '(root, files) => omap (scan_file processed root) files)
           (os_walk root_folder).

(** ** The processor (lines 107-312) *)

(** [set_params] (lines 118-121). *)
Definition set_params (root : string) (bs : Z) (th : float) : M unit :=
  modify_self (fun p =>
    with_conf_threshold th (with_batch_size bs (with_root_folder (Some root) p))).

(** [reset_state] (lines 123-126). *)
Definition reset_state : M unit :=
  modify_self (fun p =>
    with_processed_paths ∅ (with_records [] (with_stop_flag false p))).

(** [load_model] (lines 128-133). *)
Definition load_model : M unit :=
  do* emit (SetStatus LoadingModel) in
  if negb (model_dir_exists W) then raise FileNotFoundError
  else if negb (pipeline_loads W) then raise OtherError
  else
    do* modify_self (with_classifier true) in
    emit (SetStatus ModelLoaded).

(** [_scan_all_images] (lines 135-145); [os.walk(None)] is a [TypeError]. *)
Definition _scan_all_images : M (list string) :=
  let* me := get_self in
  match root_folder me with
  | Some root => ret (scan_all_images root (processed_paths me))
  | None => raise TypeError
  end.

(** [safe_makedirs(OUTPUT_DIR)] at the k-th save. *)
Definition safe_makedirs (k : nat) : M unit :=
  if makedirs_ok W k then ret tt else raise OSError.

(** The payload built at lines 150-159. *)
Definition checkpoint_of (p : Processor) (saved_at : string) : Payload :=
  {| meta := Some {| meta_root_folder := Some (root_folder p);
                     meta_batch_size := Some (batch_size p);
                     meta_confidence_threshold := Some (conf_threshold p);
                     meta_saved_at := Some saved_at |};
     payload_records := Some (records p);
     payload_processed_paths := Some (elements (processed_paths p)) |}.

(** Lines 160-161: open the file for writing and dump the payload. *)
Definition write_progress_file (k : nat) (payload : Payload) : M unit :=
  match write_outcome W k with
  | WriteOk =>
      do* set_disk (Stored payload) in emit (CheckpointWritten payload)
  | OpenFails => raise OSError
  | DumpFails => do* set_disk (Malformed BadJSON) in raise OSError
  end.

(** The number of this call of [_save_progress]. *)
Definition next_save : M nat :=
  fun st => (mkState (self st) (disk st) (events st) (polls st) (S (saves st)),
             Ok (saves st)).

(** [_save_progress] (lines 147-163). *)
Definition _save_progress : M unit :=
  let* k := next_save in
  do* safe_makedirs k in
  try_except
    (let* me := get_self in
     write_progress_file k (checkpoint_of me (clock W k)))
    (fun _ => emit PrintSaveError).

(** The assignments of lines 171-176 for a well-formed payload. *)
Definition restore (payload : Payload) (p : Processor) : Processor :=
  let m := default (mkMeta None None None None) (meta payload) in
  mkProcessor (classifier p) (stop_flag p)
    (default [] (payload_records payload))
    (list_to_set (default [] (payload_processed_paths payload)))
    (default (root_folder p) (meta_root_folder m))
    (default (batch_size p) (meta_batch_size m))
    (default (conf_threshold p) (meta_confidence_threshold m)).

(** The assignments carried out before the exception, for a malformed one. *)
Definition restore_partial (c : Corrupt) (p : Processor) : Processor :=
  match c with
  | BadJSON => p
  | BadBatchSize root =>
      with_root_folder (default (root_folder p) root) p
  | BadThreshold root bs =>
      with_batch_size (default (batch_size p) bs)
        (with_root_folder (default (root_folder p) root) p)
  | BadProcessedPaths root bs th recs =>
      with_records (default [] recs)
        (with_conf_threshold (default (conf_threshold p) th)
          (with_batch_size (default (batch_size p) bs)
            (with_root_folder (default (root_folder p) root) p)))
  end.

(** [_load_progress] (lines 165-180). *)
Definition _load_progress : M bool :=
  let* d := get_disk in
  match d with
  | NoFile => ret false
  | Stored payload => do* modify_self (restore payload) in ret true
  | Malformed c =>
      do* modify_self (restore_partial c) in
      do* emit (ShowWarning "Resume") in
      ret false
  end.

(** [stop] (lines 182-184). *)
Definition stop : M unit :=
  do* modify_self (with_stop_flag true) in
  emit (SetStatus Stopping).

(** [if self.stop_flag]: the flag as the worker sees it, a [stop()] of the
    other thread since the last look included. *)
Definition read_stop_flag : M bool :=
  fun st =>
    let flag := stop_flag (self st) || stop_requested W (polls st) in
    (mkState (with_stop_flag flag (self st)) (disk st) (events st)
             (S (polls st)) (saves st), Ok flag).

(** [self.classifier(batch_paths, top_k=1)] and [self.classifier(p, top_k=1)];
    calling [None] is a [TypeError]. *)
Definition call_classifier_many (paths : list string) : M (list pyval) :=
  let* me := get_self in
  if classifier me then
    do* emit (ClassifyBatch paths) in lift (classify_many W paths)
  else raise TypeError.

Definition call_classifier_one (p : string) : M pyval :=
  let* me := get_self in
  if classifier me then
    do* emit (ClassifyOne p) in lift (classify_one W p)
  else raise TypeError.

(** [_classify_batch] (lines 186-211). *)
Definition _classify_batch (batch_paths : list string)
  : M (list ClassificationResult) :=
  try_except
    (let* results := call_classifier_many batch_paths in
     ret (map normalize results))
    (fun _ =>
       collect (fun p =>
         try_except
           (let* r := call_classifier_one p in ret (normalize r))
           (fun _ => ret fallback))
         batch_paths).

(** [results[j]]. *)
Definition index {A} (l : list A) (j : nat) : M A :=
  match l !! j with
  | Some x => ret x
  | None => raise IndexError
  end.

(** The inner loop (lines 251-258 and 286-293) from index [j] on. *)
Fixpoint record_loop (total : nat) (results : list ClassificationResult)
    (j : nat) (batch : list string) : M unit :=
  match batch with
  | [] => ret tt
  | img_path :: rest =>
      let* stopped := read_stop_flag in
      if stopped then ret tt
      else
        let* result := index results j in
        let* me := get_self in
        let rec := _record_from_path_and_result (conf_threshold me) img_path result in
        do* modify_self (fun p => with_records (records p ++ [rec]) p) in
        do* modify_self (fun p =>
              with_processed_paths (processed_paths p ∪ {[img_path]}) p) in
        let* me := get_self in
        do* emit (ProgressValue (size (processed_paths me))) in
        do* emit (SetStatus (Processed (size (processed_paths me)) total)) in
        record_loop total results (S j) rest
  end.

(** One iteration of the outer loop after its look at the flag (lines
    249-259 and 284-294). *)
Definition batch_iteration (total : nat) (paths : list string) (i : nat)
  : M unit :=
  let* me := get_self in
  let batch := Py.slice paths i (batch_size me) in
  let* results := _classify_batch batch in
  do* record_loop total results 0 batch in
  _save_progress.

(** The outer loop (lines 246-259 and 281-294) over the values of
    [range(0, len(paths), self.batch_size)]. *)
Fixpoint batch_loop (total : nat) (paths : list string) (starts : list nat)
  : M unit :=
  match starts with
  | [] => ret tt
  | i :: rest =>
      let* stopped := read_stop_flag in
      if stopped then ret tt
      else
        do* batch_iteration total paths i in
        batch_loop total paths rest
  end.

(** [range(0, len(paths), self.batch_size)]. *)
Definition batch_starts (paths : list string) : M (list nat) :=
  let* me := get_self in
  match Py.range0 (length paths) (batch_size me) with
  | Some starts => ret starts
  | None => raise ValueError
  end.

(** [save_to_excel] (lines 70-77), as the exporter it hands the rows to. *)
Definition save_to_excel (rows : list ExportRow) : M unit :=
  if excel_ok W rows then emit (Exported rows)
  else raise (excel_error W rows).

(** [_finalize_processing] (lines 297-312). *)
Definition _finalize_processing : M unit :=
  let* me := get_self in
  let export_records := map export_row (records me) in
  do* save_to_excel export_records in
  do* _save_progress in
  do* emit (SetStatus ExportedToExcel) in
  do* emit (ShowInfo "Done") in
  emit EnableUI.

(** Lines 232-238 and 266-272: [true] when the model is there. *)
Definition guarded (m : M unit) : M bool :=
  try_except
    (do* m in ret true)
    (fun _ =>
       do* emit EnableUI in
       do* emit (ShowError "Model Error") in
       ret false).

(** [process_new] (lines 231-260). *)
Definition process_new : M unit :=
  let* ready := guarded (do* reset_state in load_model) in
  if negb ready then ret tt
  else
    let* all_paths := _scan_all_images in
    match all_paths with
    | [] =>
        do* emit EnableUI in
        emit (ShowInfo "No Images")
    | _ =>
        do* emit (ProgressMaximum (length all_paths)) in
        do* emit (ProgressValue 0) in
        let* starts := batch_starts all_paths in
        do* batch_loop (length all_paths) all_paths starts in
        _finalize_processing
    end.

(** [process_resume] (lines 262-295). *)
Definition process_resume : M unit :=
  let* loaded := _load_progress in
  if negb loaded then emit EnableUI
  else
    let* ready :=
      guarded (let* me := get_self in
               if classifier me then ret tt else load_model) in
    if negb ready then ret tt
    else
      let* remaining := _scan_all_images in
      let* me := get_self in
      let total := (length remaining + size (processed_paths me))%nat in
      if (total =? 0)%nat then
        do* emit EnableUI in
        emit (ShowInfo "Resume")
      else
        do* emit (ProgressMaximum total) in
        do* emit (ProgressValue (size (processed_paths me))) in
        let* starts := batch_starts remaining in
        do* batch_loop total remaining starts in
        _finalize_processing.

End Model.

(** ** The reading of an exported cell

    How a spreadsheet reads the formula of an Animal Name cell: a string
    literal runs to the next quote that is not doubled, and a doubled quote
    inside it stands for one quote. These definitions are the consumer's
    side; the program has no counterpart of them. *)

Definition dq_char : ascii := "034"%char.

(** The text of a literal and what follows its closing quote, reading from
    just after the opening quote. *)
Fixpoint excel_literal (s : string) : option (string * string) :=
  match s with
  | EmptyString => None
  | String c s' =>
      if Ascii.eqb c dq_char then
        match s' with
        | String c' s'' =>
            if Ascii.eqb c' dq_char then
              match excel_literal s'' with
              | Some (t, r) => Some (String dq_char t, r)
              | None => None
              end
            else Some (EmptyString, s')
        | EmptyString => Some (EmptyString, EmptyString)
        end
      else
        match excel_literal s' with
        | Some (t, r) => Some (String c t, r)
        | None => None
        end
  end.

(** [s] without its prefix [p]. *)
Fixpoint strip_prefix (p s : string) : option string :=
  match p, s with
  | EmptyString, _ => Some s
  | String _ _, EmptyString => None
  | String a p', String c s' =>
      if Ascii.eqb c a then strip_prefix p' s' else None
  end.

(** The target and the display text of a cell [=HYPERLINK(target, text)]
    whose two arguments are string literals. *)
Definition parse_hyperlink (cell : string) : option (string * string) :=
  match strip_prefix ("=HYPERLINK(" +:+ dq) cell with
  | Some r1 =>
      match excel_literal r1 with
      | Some (url, r2) =>
          match strip_prefix (", " +:+ dq) r2 with
          | Some r3 =>
              match excel_literal r3 with
              | Some (text, r4) =>
                  if String.eqb r4 ")" then Some (url, text) else None
              | None => None
              end
          | None => None
          end
      | None => None
      end
  | None => None
  end.

(** Every character of [s] satisfies [p]. *)
Fixpoint string_forall (p : ascii -> bool) (s : string) : bool :=
  match s with
  | EmptyString => true
  | String c s' => p c && string_forall p s'
  end.

Definition no_quote (s : string) : bool :=
  string_forall (fun c => negb (Ascii.eqb c dq_char)) s.

(** The characters a percent-encoded query is made of. *)
Definition url_char (c : ascii) : bool :=
  Py.always_safe c || Ascii.eqb c "%" || Ascii.eqb c "+".

(** ** File names *)

(** The extension of a file name: the name from its last dot on, and the
    empty string when it has no dot. *)
Fixpoint extension (name : string) : string :=
  match name with
  | EmptyString => EmptyString
  | String c rest =>
      match extension rest with
      | EmptyString => if Ascii.eqb c "." then name else EmptyString
      | e => e
      end
  end.

Definition image_extensions : list string := [".jpg"; ".jpeg"; ".png"].

Definition no_dot (s : string) : bool :=
  string_forall (fun c => negb (Ascii.eqb c ".")) s.

(** ** Frames *)

(** What the retry of one image ends with (lines 201-210). *)
Definition per_image (W : World) (p : string) : ClassificationResult :=
  match classify_one W p with
  | Ok r => normalize r
  | Raise _ => fallback
  end.

(** Two states that differ in their events at most. *)
Definition same_but_events (st st' : State) : Prop :=
  self st' = self st ∧ disk st' = disk st
  ∧ polls st' = polls st ∧ saves st' = saves st.

Definition is_classifier_call (e : Event) : bool :=
  match e with
  | ClassifyBatch _ | ClassifyOne _ => true
  | _ => false
  end.

(** The records built for the leading paths that have a result. *)
Definition built (W : World) (th : float) (paths : list string)
    (results : list ClassificationResult) : list Rec :=
  zip_with (_record_from_path_and_result W th) paths results.

(** The record of an image under a scoring of the images. *)
Definition record_of (W : World) (th : float)
    (scored : string -> ClassificationResult) (p : string) : Rec :=
  _record_from_path_and_result W th p (scored p).

(** [p'] is [p] with the records [recs] appended and their paths added to
    the processed paths; the stop flag apart, nothing else differs. *)
Definition grown_by (recs : list Rec) (p p' : Processor) : Prop :=
  records p' = records p ++ recs
  ∧ processed_paths p' = processed_paths p ∪ list_to_set (map Path recs)
  ∧ classifier p' = classifier p
  ∧ root_folder p' = root_folder p
  ∧ batch_size p' = batch_size p
  ∧ conf_threshold p' = conf_threshold p.

(** The checkpoint file holds the payload of the processor as it is now. *)
Definition checkpointed (st : State) : Prop :=
  exists t, disk st = Stored (checkpoint_of (self st) t).

(** A checkpoint file this program can have left: none, one that a failed
    write truncated, or the payload of a consistent processor. *)
Definition consistent_payload (payload : Payload) : Prop :=
  exists recs paths,
    payload_records payload = Some recs
    ∧ payload_processed_paths payload = Some paths
    ∧ NoDup (map Path recs)
    ∧ list_to_set (C := gset string) paths = list_to_set (map Path recs).

Definition disk_ok (d : Disk) : Prop :=
  match d with
  | NoFile => True
  | Stored payload => consistent_payload payload
  | Malformed c => c = BadJSON
  end.

(** ** Conditions on the outside *)

(** Each image has one result, whatever batch it is scored in: a batch call
    that returns gives the results of its paths in order, and the call for
    one image gives the result of that image (the fallback when it raises). *)
Definition scoring_by (W : World) (scored : string -> ClassificationResult) : Prop :=
  (forall paths results, classify_many W paths = Ok results ->
     map normalize results = map scored paths)
  ∧ (forall p, per_image W p = scored p).

(** The contract of the classifier on a batch: one item per path. *)
Definition one_item_per_path (W : World) : Prop :=
  forall paths results, classify_many W paths = Ok results ->
    length results = length paths.

Definition model_loads (W : World) : Prop :=
  model_dir_exists W = true ∧ pipeline_loads W = true.

(** The output directory can be made and the checkpoint file written. *)
Definition store_works (W : World) : Prop :=
  forall k, makedirs_ok W k = true ∧ write_outcome W k = WriteOk.

Definition never_stopped (W : World) : Prop :=
  forall n, stop_requested W n = false.

(** The same outside with other calls of [stop()]. *)
Definition with_stop_requests (stops : nat -> bool) (W : World) : World :=
  mkWorld (fs_dir W) (getexif W) (classify_many W) (classify_one W)
          (model_dir_exists W) (pipeline_loads W) stops
          (makedirs_ok W) (clock W) (write_outcome W) (excel_ok W)
          (excel_error W).

(** The records and the processed paths tell of the same images, once each. *)
Definition consistent (p : Processor) : Prop :=
  NoDup (map Path (records p))
  ∧ processed_paths p = list_to_set (map Path (records p)).

(** No two files under a root have the same full path. *)
Definition distinct_files (W : World) : Prop :=
  forall root, NoDup (scan_all_images W root ∅).

(** A processor in the middle of a run over [root]: it has the given
    configuration and holds the records of the first [m] scanned images. *)
Definition mid_run (W : World) (scored : string -> ClassificationResult)
    (root : string) (bs : Z) (th : float) (m : nat) (p : Processor) : Prop :=
  records p = map (record_of W th scored) (take m (scan_all_images W root ∅))
  ∧ processed_paths p = list_to_set (take m (scan_all_images W root ∅))
  ∧ root_folder p = Some root
  ∧ batch_size p = bs
  ∧ conf_threshold p = th.

(** A checkpoint saved in the middle of a run: the payload of such a
    processor. *)
Definition mid_run_checkpoint (W : World) (scored : string -> ClassificationResult)
    (root : string) (bs : Z) (th : float) (payload : Payload) : Prop :=
  exists p t m, payload = checkpoint_of p t ∧ mid_run W scored root bs th m p.

(** ** An example installation *)

Module Example.

Definition tree : dir :=
  Dir ["readme.txt"]
    [("BlockA",
      Dir []
        [("Cam1",
          Dir []
            [("Deer", Dir ["img1.jpg"; "img2.JPG"; "._img3.jpg"; "notes.txt"] []);
             ("Fox", Dir ["img4.png"; "img5.jpeg"; "img6.jpg"] [])])])].

Definition deer1 : string := "/data/BlockA/Cam1/Deer/img1.jpg".
Definition deer2 : string := "/data/BlockA/Cam1/Deer/img2.JPG".
Definition fox4 : string := "/data/BlockA/Cam1/Fox/img4.png".
Definition fox5 : string := "/data/BlockA/Cam1/Fox/img5.jpeg".
Definition fox6 : string := "/data/BlockA/Cam1/Fox/img6.jpg".

Definition exif (p : string) : outcome (option (list (Z * string))) :=
  if String.eqb p deer1 then
    Ok (Some [(271, "TrailCam"); (306, "2023:05:01 14:22:10")])
  else if String.eqb p deer2 then Ok None
  else Raise OtherError.

(** The classifier on one image: it cannot read [img4.png]. *)
Definition score_one (p : string) : outcome pyval :=
  if String.eqb p deer1 then
    Ok (VList [mkResult (Some "deer, white-tailed") (Some 0x1.ccccccccccccdp-1%float)])
  else if String.eqb p deer2 then
    Ok (VList [mkResult (Some "deer") (Some 0x1.3333333333333p-2%float)])
  else if String.eqb p fox4 then Raise OtherError
  else if String.eqb p fox5 then
    Ok (VDict (mkResult (Some "red fox, Vulpes vulpes") (Some 0x1.e666666666666p-1%float)))
  else Ok VOther.

(** On a batch it raises as soon as one image cannot be read. *)
Fixpoint score_many (paths : list string) : outcome (list pyval) :=
  match paths with
  | [] => Ok []
  | p :: rest =>
      match score_one p, score_many rest with
      | Ok r, Ok rs => Ok (r :: rs)
      | Raise e, _ => Raise e
      | _, Raise e => Raise e
      end
  end.

(** The result each image ends with. *)
Definition scored (p : string) : ClassificationResult :=
  match score_one p with
  | Ok r => normalize r
  | Raise _ => fallback
  end.

(** The installation, by the calls of [stop()] and by whether the output
    directory can be made. *)
Definition world_with (stops : nat -> bool) (output_dir : bool) : World :=
  {| fs_dir := fun p => if String.eqb p "/data" then Some tree else None;
     getexif := exif;
     classify_many := score_many;
     classify_one := score_one;
     model_dir_exists := true;
     pipeline_loads := true;
     stop_requested := stops;
     makedirs_ok := fun _ => output_dir;
     clock := fun _ => "2024-01-01T00:00:00";
     write_outcome := fun _ => WriteOk;
     excel_ok := fun _ => true;
     excel_error := fun _ => OSError |}.

Definition world (stops : nat -> bool) : World := world_with stops true.

Definition no_stop : nat -> bool := fun _ => false.

(** The program sits where it may not create its [output] directory. *)
Definition world_without_output_dir : World := world_with no_stop false.

(** [stop()] is called once, before the [n]-th look at the flag. *)
Definition stop_at (n : nat) : nat -> bool := fun k => (k =? n)%nat.

(** A session that begins with the processor [p] and the checkpoint file [d]. *)
Definition start (p : Processor) (d : Disk) : State := mkState p d [] 0 0.

(** The processor after [set_params("/data", 2, 0.5)] at first launch. *)
Definition configured : Processor :=
  self (set_params "/data" 2 0.5%float (start Processor_init NoFile)).1.

End Example.

(** ** The export (lines 70-77) *)

(** The columns the sheet is to begin with (line 73). *)
Definition preferred_cols : list string :=
  ["Animal Folder"; "Block"; "Camera ID"; "Animal Name"; "Date"; "Time"].

(** The columns kept and their order (line 74), from the columns of the
    frame: the preferred ones the frame has, then the others it has. *)
Definition column_order (df_columns : list string) : list string :=
  filter (fun c => c ∈ df_columns) preferred_cols
  ++ filter (fun c => c ∉ preferred_cols) df_columns.

(** The keys of an export row, in the order lines 301-306 write them. *)
Definition export_keys : list string :=
  ["Animal Folder"; "Block"; "Camera ID"; "Animal Name"; "Date"; "Time"].

(** The columns of the frame made of the rows: the keys of the rows, and
    none for want of a row. *)
Definition frame_columns (rows : list ExportRow) : list string :=
  match rows with
  | [] => []
  | _ :: _ => export_keys
  end.

(** ** Joined strings *)

(** [sep.join(parts)], by which a path is told from its components. *)
Fixpoint sep_join (sep : ascii) (parts : list string) : string :=
  match parts with
  | [] => EmptyString
  | s :: rest =>
      match rest with
      | [] => s
      | _ :: _ => s +:+ String sep (sep_join sep rest)
      end
  end.

(** The character [c] does not occur in [s]. *)
Definition lacks (c : ascii) (s : string) : bool :=
  string_forall (fun x => negb (Ascii.eqb x c)) s.

(** The value of the first EXIF entry under the tag 306. *)
Definition date_time_entry (info : list (Z * string)) : option string :=
  snd <$> List.find (fun e => e.1 =? 306) info.

(** ** What a run does to the outside *)

Definition is_enable_ui (e : Event) : bool :=
  match e with
  | EnableUI => true
  | _ => false
  end.

(** A batch handed to the classifier, and a checkpoint written. *)
Definition is_batch_call (e : Event) : bool :=
  match e with
  | ClassifyBatch _ => true
  | _ => false
  end.

Definition is_checkpoint_written (e : Event) : bool :=
  match e with
  | CheckpointWritten _ => true
  | _ => false
  end.

(** What the batch loop leaves behind when every save writes: as many
    checkpoints written as batches handed to the classifier, and the user
    interface as it was. *)
Definition saved_each_batch (evs : list Event) : Prop :=
  length (filter is_checkpoint_written evs) = length (filter is_batch_call evs)
  ∧ filter is_enable_ui evs = [].

(** The paths an event hands to the classifier. *)
Definition classified (e : Event) : list string :=
  match e with
  | ClassifyBatch ps => ps
  | ClassifyOne p => [p]
  | _ => []
  end.

(** The progress bar and the status line keep within the maximum: a value
    is shown only after a maximum was set and is not above it, and a status
    counts the processed images out of that maximum. *)
Fixpoint progress_within (maximum : option nat) (evs : list Event) : bool :=
  match evs with
  | [] => true
  | e :: rest =>
      match e with
      | ProgressMaximum n => progress_within (Some n) rest
      | ProgressValue v =>
          match maximum with
          | Some n => (v <=? n)%nat && progress_within maximum rest
          | None => false
          end
      | SetStatus (Processed d t) =>
          match maximum with
          | Some n => (d <=? t)%nat && (t =? n)%nat && progress_within maximum rest
          | None => false
          end
      | _ => progress_within maximum rest
      end
  end.

#[global] Instance Rec_eq_dec : EqDecision Rec.
Proof. solve_decision. Defined.

(** Each checkpoint written holds the records of the one before it, and
    the first holds the records [have], followed by those built since. *)
Fixpoint checkpoints_extend (have : list Rec) (evs : list Event) : bool :=
  match evs with
  | [] => true
  | e :: rest =>
      match e with
      | CheckpointWritten payload =>
          match payload_records payload with
          | Some recs =>
              bool_decide (have `prefix_of` recs) && checkpoints_extend recs rest
          | None => false
          end
      | _ => checkpoints_extend have rest
      end
  end.

(** The records of the last checkpoint written, [have] when there is none. *)
Fixpoint last_checkpoint (have : list Rec) (evs : list Event) : list Rec :=
  match evs with
  | [] => have
  | e :: rest =>
      match e with
      | CheckpointWritten payload =>
          last_checkpoint (default have (payload_records payload)) rest
      | _ => last_checkpoint have rest
      end
  end.

(** What the batch loop may do to the outside while it works through
    [paths] in batches of at most [k], with at most [bound] paths processed:
    show the progress, call the classifier on some of the paths, save. *)
Definition loop_event (total k : nat) (paths : list string) (bound : nat)
    (e : Event) : Prop :=
  match e with
  | SetStatus (Processed d t) => t = total ∧ (d <= bound)%nat
  | ProgressValue v => (v <= bound)%nat
  | ClassifyBatch ps =>
      ps <> [] ∧ (length ps <= k)%nat ∧ forall p, p ∈ ps -> p ∈ paths
  | ClassifyOne p => p ∈ paths
  | CheckpointWritten _ | PrintSaveError => True
  | _ => False
  end.

(** A stretch of the batch loop from [st] to [st']: what it did to the
    outside, and what it kept. *)
Definition stretch (total k : nat) (paths : list string) (U : gset string)
    (st st' : State) : Prop :=
  processed_paths (self st) ⊆ U ->
  exists evs,
    events st' = events st ++ evs
    ∧ Forall (loop_event total k paths (size U)) evs
    ∧ checkpoints_extend (records (self st)) evs = true
    ∧ last_checkpoint (records (self st)) evs `prefix_of` records (self st')
    ∧ processed_paths (self st') ⊆ U
    ∧ batch_size (self st') = batch_size (self st)
    ∧ classifier (self st') = classifier (self st).

(** What the finalisation may do to the outside: nothing that shows
    progress or calls the classifier; it enables the user interface once,
    when it returns. *)
Definition final_events (ok : bool) (recs : list Rec) (fin : list Event) : Prop :=
  length (filter is_enable_ui fin) = (if ok then 1 else 0)%nat
  ∧ (forall m rest, progress_within m (fin ++ rest) = progress_within m rest)
  ∧ (forall have, have `prefix_of` recs -> checkpoints_extend have fin = true)
  ∧ (forall e, e ∈ fin -> is_classifier_call e = false).

(** What a run did to the outside, from its start to its end: the user
    interface is enabled once when the run returns and not at all when it
    raises; the progress keeps within the maximum; the checkpoints written
    extend the records [base] and each other; the classifier is called on
    paths that [sees] allows only, in batches of one to [k] paths. *)
Definition run_trace (ok : bool) (base : list Rec) (k : nat)
    (sees : string -> Prop) (evs : list Event) : Prop :=
  length (filter is_enable_ui evs) = (if ok then 1 else 0)%nat
  ∧ progress_within None evs = true
  ∧ checkpoints_extend base evs = true
  ∧ (forall e p, e ∈ evs -> p ∈ classified e -> sees p)
  ∧ (forall ps, ClassifyBatch ps ∈ evs -> ps <> [] ∧ (length ps <= k)%nat).

Definition returned {A} (o : outcome A) : bool :=
  match o with
  | Ok _ => true
  | Raise _ => false
  end.

(** The processor as [_load_progress] leaves it, by what the checkpoint
    file is. *)
Definition resumed (st : State) : Processor :=
  match disk st with
  | NoFile => self st
  | Stored payload => restore payload (self st)
  | Malformed c => restore_partial c (self st)
  end.

(** ** The application around the processor (lines 79-88 and 413-471)

    The callbacks of the window that start, resume and stop a run and that
    export from the checkpoint file. A callback runs on the state of the
    processor and tells what it does in a list of its own, in which what
    the processor's vocabulary says (a dialog, the export, the buttons
    enabled again, a status of the processor) is told as the processor
    tells it. The widgets are not modelled: enabling and disabling the
    buttons are acts. The worker thread is run to its end by the callback
    that starts it, as when nothing else is done meanwhile. *)

Inductive Act :=
  | Tell (e : Event)
  | DisableUI
  | StatusText (msg : string)
  | AskYesNo (title : string)
  | RemoveProgressFile
  | StartFile (path : string)
  | Popen (command : list string)
  | StartThread.

(** The answers of the user and of the system to the application. *)
Record Desk := mkDesk {
  (** [self.path_entry.get()] *)
  path_entry : string;
  (** [int(self.batch_entry.get())] and [float(self.conf_entry.get())]:
      [None] is the [ValueError] *)
  batch_entry : option Z;
  conf_entry : option float;
  (** the answer to [askyesno] *)
  answers_yes : bool;
  (** whether [os.remove(PROGRESS_FILE)] succeeds *)
  remove_ok : bool;
  (** [platform.system()], and whether the opener of folders returns *)
  platform_system : string;
  opener_ok : bool;
  (** [OUTPUT_DIR] *)
  output_dir : string;
  (** what the export reads as the records of a checkpoint file that
      stops the load before the records are read: an exception when the
      file is no JSON object *)
  records_entry : outcome (list Rec);
}.

Record App := mkApp {
  core : State;
  acts : list Act;
}.

Definition act (a : Act) (app : App) : App :=
  mkApp (core app) (acts app ++ [a]).

(** A call of the processor: what it tells the outside is told. *)
Definition call {A} (m : M A) (app : App) : App * outcome A :=
  let r := m (core app) in
  (mkApp r.1
     (acts app ++ map Tell (drop (length (events (core app))) (events r.1))),
   r.2).

(** [threading.Thread(target=m, daemon=True).start()], and the thread to
    its end: an exception ends the thread and nothing else. *)
Definition run_thread (m : M unit) (app : App) : App :=
  (call m (act StartThread app)).1.

(** [os.path.isfile(PROGRESS_FILE)]. *)
Definition progress_file_exists (st : State) : bool :=
  match disk st with
  | NoFile => false
  | Stored _ | Malformed _ => true
  end.

(** [open_folder] (lines 79-88). *)
Definition open_folder (d : Desk) (path : string) (app : App) : App :=
  let app :=
    if String.eqb (platform_system d) "Windows" then act (StartFile path) app
    else if String.eqb (platform_system d) "Darwin" then act (Popen ["open"; path]) app
    else act (Popen ["xdg-open"; path]) app in
  if opener_ok d then app else act (Tell (ShowWarning "Open Folder")) app.

(** Lines 427-428: the file is removed, or stays when it cannot be. *)
Definition remove_progress_file (d : Desk) (app : App) : App :=
  let app := act RemoveProgressFile app in
  if remove_ok d then (call (set_disk NoFile) app).1 else app.

(** [start_new] (lines 413-433). *)
Definition start_new (W : World) (d : Desk) (app : App) : App :=
  let folder := path_entry d in
  if String.eqb folder EmptyString then act (Tell (ShowError "Error")) app
  else
    match batch_entry d, conf_entry d with
    | Some batch_size, Some conf =>
        let launch (app : App) : App :=
          let app := act DisableUI app in
          let app := act (StatusText "Starting new processing...") app in
          let app := (call (set_params folder batch_size conf) app).1 in
          run_thread (process_new W) app in
        if progress_file_exists (core app) then
          let app := act (AskYesNo "Start New") app in
          if negb (answers_yes d) then app
          else launch (remove_progress_file d app)
        else launch app
    | _, _ => act (Tell (ShowError "Error")) app
    end.

(** [resume_previous] (lines 435-442). *)
Definition resume_previous (W : World) (app : App) : App :=
  if negb (progress_file_exists (core app)) then act (Tell (ShowInfo "Resume")) app
  else
    let app := act DisableUI app in
    let app := act (StatusText "Resuming from previous session...") app in
    run_thread (process_resume W) app.

(** [stop_and_save] (lines 444-445). *)
Definition stop_and_save (app : App) : App := (call stop app).1.

(** What lines 452-454 read from the checkpoint file. *)
Definition read_records (d : Desk) (file : Disk) : outcome (list Rec) :=
  match file with
  | NoFile => Raise FileNotFoundError
  | Stored payload => Ok (default [] (payload_records payload))
  | Malformed (BadProcessedPaths _ _ _ recs) => Ok (default [] recs)
  | Malformed _ => records_entry d
  end.

(** [export_from_json] (lines 447-471). *)
Definition export_from_json (W : World) (d : Desk) (app : App) : App :=
  if negb (progress_file_exists (core app)) then act (Tell (ShowInfo "Export")) app
  else
    let app :=
      match read_records d (disk (core app)) with
      | Ok recs =>
          let export_records := map export_row recs in
          match call (save_to_excel W export_records) app with
          | (app, Ok _) =>
              open_folder d (output_dir d) (act (Tell (ShowInfo "Export")) app)
          | (app, Raise _) => act (Tell (ShowError "Export Error")) app
          end
      | Raise _ => act (Tell (ShowError "Export Error")) app
      end in
    act (Tell EnableUI) app.

(** The buttons as the acts leave them: enabled when no act disabled
    them, or when an act enabled them after the last that did. *)
Fixpoint buttons_enabled (now : bool) (l : list Act) : bool :=
  match l with
  | [] => now
  | Tell EnableUI :: rest => buttons_enabled true rest
  | DisableUI :: rest => buttons_enabled false rest
  | _ :: rest => buttons_enabled now rest
  end.

(** The state of the processor when [start_new] starts the thread. *)
Definition at_launch (d : Desk) (bs : Z) (th : float) (st : State) : State :=
  mkState
    (with_conf_threshold th
       (with_batch_size bs (with_root_folder (Some (path_entry d)) (self st))))
    (if progress_file_exists st && remove_ok d then NoFile else disk st)
    (events st) (polls st) (saves st).


(** ** Runs that do not look at the checkpoint file *)

(** Two states that differ in the checkpoint file at most, and there only
    as [d1] and [d2] do: what was written to it since is the same. *)
Definition same_but_file (d1 d2 : Disk) (st1 st2 : State) : Prop :=
  self st1 = self st2 ∧ events st1 = events st2
  ∧ polls st1 = polls st2 ∧ saves st1 = saves st2
  ∧ (disk st1 = disk st2 ∨ (disk st1 = d1 ∧ disk st2 = d2)).

(** A computation that does not read the checkpoint file. *)
Definition blind {A} (m : M A) : Prop :=
  forall d1 d2 st1 st2,
    same_but_file d1 d2 st1 st2 ->
    same_but_file d1 d2 (m st1).1 (m st2).1 ∧ (m st1).2 = (m st2).2.

(** * Properties *)

(** ** Tactics *)

(** Unfolds the operations of the monad, so that a computation applied to a
    state reduces as far as the answers of the outside are known. *)
Ltac monad_unfold :=
  cbv beta iota zeta delta
    [bind try_except ret raise lift get_self get_disk modify_self set_disk emit].

Ltac monad_unfold_in H :=
  cbv beta iota zeta delta
    [bind try_except ret raise lift get_self get_disk modify_self set_disk emit]
    in H.

(** ** Strings *)

#[local] Arguments String.append !_ _ / : simpl nomatch.
#[local] Arguments _record_from_path_and_result : simpl never.
#[local] Arguments scan_all_images : simpl never.

Lemma split_not_nil (sep : ascii) (s : string) : Py.split sep s ≠ [].
Proof.
  destruct s as [|c s]; simpl; [done |].
  destruct (Ascii.eqb c sep); [done |].
  by destruct (Py.split sep s).
Qed.

(** Splitting distributes over a separator between two strings. *)
Lemma split_app_sep (sep : ascii) (s t : string) :
  Py.split sep (s +:+ String sep t) = Py.split sep s ++ Py.split sep t.
Proof.
  induction s as [|c s IH]; simpl.
  - by rewrite Ascii.eqb_refl.
  - destruct (Ascii.eqb c sep); [by rewrite IH |].
    rewrite IH. pose proof (split_not_nil sep s) as Hne.
    by destruct (Py.split sep s).
Qed.

Lemma index_from_end_app {A} (l tail : list A) (k : nat) :
  (k <= length tail)%nat ->
  Py.index_from_end (l ++ tail) k = Py.index_from_end tail k.
Proof.
  intros Hk. unfold Py.index_from_end. rewrite length_app.
  destruct (Nat.leb_spec k (length l + length tail)); [| lia].
  destruct (Nat.leb_spec k (length tail)); [| lia].
  rewrite lookup_app_r by lia. f_equal. lia.
Qed.

Lemma string_forall_app (p : ascii -> bool) (a b : string) :
  string_forall p (a +:+ b) = string_forall p a && string_forall p b.
Proof. induction a as [|c a IH]; simpl; [done | by rewrite IH, andb_assoc]. Qed.

Lemma strip_prefix_app (p s : string) : strip_prefix p (p +:+ s) = Some s.
Proof.
  induction p as [|c p IH]; simpl; [by destruct s |].
  by rewrite Ascii.eqb_refl.
Qed.

(** A text without quotes, closed by a quote that is not doubled, is read
    back as it is. *)
Lemma excel_literal_plain (s : string) (c : ascii) (r : string) :
  no_quote s = true -> Ascii.eqb c dq_char = false ->
  excel_literal (s +:+ String dq_char (String c r)) = Some (s, String c r).
Proof.
  intros Hs Hc. induction s as [|x s IH]; simpl.
  - by rewrite Hc.
  - simpl in Hs. apply andb_prop in Hs as [Hx Hs].
    apply negb_true_iff in Hx. rewrite Hx, (IH Hs). done.
Qed.

(** ** Percent-encoding *)

Lemma quote_plus_char_url (c : ascii) :
  string_forall url_char (Py.quote_plus_char c) = true.
Proof. destruct c as [[] [] [] [] [] [] [] []]; vm_compute; reflexivity. Qed.

Lemma quote_plus_url (s : string) :
  string_forall url_char (Py.quote_plus s) = true.
Proof.
  induction s as [|c s IH]; simpl; [done |].
  by rewrite string_forall_app, quote_plus_char_url, IH.
Qed.

Lemma url_char_no_quote (s : string) :
  string_forall url_char s = true -> no_quote s = true.
Proof.
  unfold no_quote. induction s as [|c s IH]; simpl; [done |].
  intros [Hc Hs]%andb_prop. rewrite (IH Hs), andb_true_r.
  destruct (Ascii.eqb_spec c dq_char) as [->|]; [by vm_compute in Hc | done].
Qed.

Lemma hyperlink_url_no_quote (name : string) :
  no_quote (hyperlink_url name) = true.
Proof.
  unfold hyperlink_url, no_quote. rewrite string_forall_app.
  apply andb_true_intro; split; [by vm_compute |].
  apply url_char_no_quote, quote_plus_url.
Qed.

Lemma parse_hyperlink_plain (u l : string) :
  no_quote u = true -> no_quote l = true ->
  parse_hyperlink
    ("=HYPERLINK(" +:+ dq +:+ u +:+ dq +:+ ", " +:+ dq +:+ l +:+ dq +:+ ")")
  = Some (u, l).
Proof.
  intros Hu Hl. unfold parse_hyperlink, dq. simpl.
  rewrite (excel_literal_plain u "," _ Hu) by reflexivity. simpl.
  rewrite (excel_literal_plain l ")" _ Hl) by reflexivity. done.
Qed.

(** ** The record builder *)

Lemma first_DateTime_unique (info : list (Z * string)) (v : string) :
  (306, v) ∈ info -> NoDup info.*1 -> first_DateTime info = Some v.
Proof.
  induction info as [|[tag value] info IH]; intros Hin Hnd.
  - by apply elem_of_nil in Hin.
  - apply NoDup_cons in Hnd as [Hfresh Hnd]. simpl in Hfresh.
    apply elem_of_cons in Hin as [Heq | Hin].
    + by inversion Heq.
    + assert (tag ≠ 306) as Htag.
      { intros ->. apply Hfresh. apply list_elem_of_fmap. by exists (306, v). }
      simpl. unfold TAGS.
      destruct (Z.eqb_spec tag 306); [done |].
      destruct (tag =? 36867); [by apply IH |].
      destruct (tag =? 36868); by apply IH.
Qed.

(** C1 (as amended). The Animal Name of a built record is the hyperlink
    formula of the resolved name. When the score is below the threshold the
    resolved name is Unidentified; otherwise it is the first comma-separated
    segment of the label, trimmed, where an absent or empty label counts as
    the label Unidentified and an absent score as 0.0. So the resolved name
    is Unidentified exactly when the score is below the threshold or that
    segment is itself Unidentified. *)
Theorem record_animal_name_policy (W : World) (t : float) (img_path : string)
    (result : ClassificationResult) :
  Animal_Name (_record_from_path_and_result W t img_path result)
    = build_hyperlink_for_animal (animal_name result t)
  ∧ (PrimFloat.ltb (result_score result) t = true ->
     animal_name result t = "Unidentified")
  ∧ (PrimFloat.ltb (result_score result) t = false ->
     animal_name result t = first_segment result)
  ∧ (animal_name result t = "Unidentified" <->
     PrimFloat.ltb (result_score result) t = true
     ∨ first_segment result = "Unidentified").
Proof.
  split.
  { unfold _record_from_path_and_result.
    by destruct (parse_path_parts img_path) as [[? ?] ?]. }
  unfold animal_name.
  destruct (PrimFloat.ltb (result_score result) t) eqn:Hlt.
  - repeat split; auto; discriminate.
  - repeat split; auto; try discriminate.
    intros [Habs | Hseg]; [discriminate | done].
Qed.

(** C1, as stated, fails for the fallback result of the classifier under
    the threshold 0.0: the score 0.0 is not below the threshold, and the
    resolved name is Unidentified all the same. *)
Lemma unidentified_without_low_score :
  ~ (animal_name fallback 0%float = "Unidentified" <->
     PrimFloat.ltb (result_score fallback) 0%float = true).
Proof.
  intros [Hname _]. specialize (Hname eq_refl). vm_compute in Hname. discriminate.
Qed.

(** The label deer scored 0.3 under the threshold 0.5 resolves to
    Unidentified. *)
Lemma low_score_example :
  PrimFloat.ltb 0x1.3333333333333p-2%float 0.5%float = true
  ∧ animal_name (mkResult (Some "deer") (Some 0x1.3333333333333p-2%float))
                0.5%float = "Unidentified".
Proof.
  split; [reflexivity |].
  exact (proj1 (proj2 (record_animal_name_policy
                         (Example.world Example.no_stop) 0.5%float Example.deer2
                         (mkResult (Some "deer") (Some 0x1.3333333333333p-2%float))))
               eq_refl).
Defined.

(** C9. The image at [<root>/BlockA/Cam1/Deer/img1.jpg], whose EXIF entries
    hold the DateTime [2023:05:01 14:22:10], scored [deer, white-tailed] with
    0.9 under the threshold 0.5, gives the record with animal folder Deer,
    camera id Cam1, block BlockA, resolved name deer, date 2023-05-01 and
    time 14:22:10, for every root. *)
Theorem deer_record (W : World) (root : string) (info : list (Z * string)) :
  let img_path := root +:+ "/BlockA/Cam1/Deer/img1.jpg" in
  let result :=
    mkResult (Some "deer, white-tailed") (Some 0x1.ccccccccccccdp-1%float) in
  getexif W img_path = Ok (Some info) ->
  (306, "2023:05:01 14:22:10") ∈ info ->
  NoDup info.*1 ->
  let r := _record_from_path_and_result W 0.5%float img_path result in
  Animal_Folder r = Some "Deer"
  ∧ Camera_ID r = Some "Cam1"
  ∧ Block r = Some "BlockA"
  ∧ animal_name result 0.5%float = "deer"
  ∧ Animal_Name r = build_hyperlink_for_animal "deer"
  ∧ Date r = Some "2023-05-01"
  ∧ Time r = Some "14:22:10"
  ∧ Path r = img_path.
Proof.
  intros img_path result Hexif Hin Hnd r.
  assert (parse_path_parts img_path = (Some "Deer", Some "BlockA", Some "Cam1"))
    as Hparts.
  { unfold parse_path_parts, img_path, os_sep.
    change "/BlockA/Cam1/Deer/img1.jpg" with (String "/" "BlockA/Cam1/Deer/img1.jpg").
    rewrite split_app_sep.
    rewrite !index_from_end_app by (vm_compute; lia).
    reflexivity. }
  assert (extract_metadata W img_path = (Some "2023-05-01", Some "14:22:10"))
    as Hmeta.
  { unfold extract_metadata. rewrite Hexif.
    by rewrite (first_DateTime_unique info _ Hin Hnd). }
  assert (animal_name result 0.5%float = "deer") as Hname by reflexivity.
  subst r. unfold _record_from_path_and_result.
  rewrite Hparts, Hmeta, Hname. simpl. done.
Qed.

(** ** The exported cell *)

(** What [build_hyperlink_for_animal] returns: the string
    [=HYPERLINK(<quote>url<quote>, <quote>text<quote>)], where the display
    text is the name, or Unidentified when the name is empty; the url is a
    web search for the display text, or for the fixed query
    [wildlife+image+unidentified] when the display text in lower case is
    [unidentified]; the query is percent-encoded by [quote_plus], so that the
    url is made of unreserved characters, [%] and [+] only and has no quote.
    For a name with no double quote that string is a formula, from which a
    spreadsheet reads the url and the text back. *)
Theorem hyperlink_cell (name : string) :
  let text := if String.eqb name EmptyString then "Unidentified" else name in
  let query :=
    if String.eqb (Py.lower text) "unidentified"
    then "wildlife+image+unidentified" else text in
  let url := "https://www.google.com/search?q=" +:+ Py.quote_plus query in
  build_hyperlink_for_animal name
    = "=HYPERLINK(" +:+ dq +:+ url +:+ dq +:+ ", " +:+ dq +:+ text +:+ dq +:+ ")"
  ∧ string_forall url_char (Py.quote_plus query) = true
  ∧ no_quote url = true
  ∧ (no_quote name = true ->
     parse_hyperlink (build_hyperlink_for_animal name) = Some (url, text)).
Proof.
  intros text query url.
  assert (hyperlink_label name = text) as Hl by reflexivity.
  assert (hyperlink_url name = url) as Hu.
  { unfold hyperlink_url, hyperlink_query, url, query. rewrite Hl.
    by destruct (String.eqb (Py.lower text) "unidentified"). }
  split.
  { unfold build_hyperlink_for_animal. by rewrite Hl, Hu. }
  split; [apply quote_plus_url |].
  split; [rewrite <- Hu; apply hyperlink_url_no_quote |].
  intros Hname. unfold build_hyperlink_for_animal. rewrite Hl, Hu.
  apply parse_hyperlink_plain.
  - rewrite <- Hu. apply hyperlink_url_no_quote.
  - unfold text. by destruct (String.eqb name EmptyString).
Qed.

(** The cell of the name deer is read back as a search for deer. *)
Lemma hyperlink_cell_deer :
  no_quote "deer" = true
  ∧ parse_hyperlink (build_hyperlink_for_animal "deer")
    = Some ("https://www.google.com/search?q=deer", "deer").
Proof.
  split; [reflexivity |].
  exact (proj2 (proj2 (proj2 (hyperlink_cell "deer"))) eq_refl).
Defined.

(** C6, where the code departs from it. The docstring of
    [build_hyperlink_for_animal] promises an Excel HYPERLINK formula, and
    the query is encoded for the url; but line 68 writes the display text
    into the string literal of the formula as it is. For a name with a
    double quote in it, the quote is percent-encoded in the url and ends
    the literal of the display text early: what is returned is no formula. *)
Lemma quoted_name_breaks_cell :
  hyperlink_label ("a" +:+ dq +:+ "b") = "a" +:+ dq +:+ "b"
  ∧ hyperlink_url ("a" +:+ dq +:+ "b") = "https://www.google.com/search?q=a%22b"
  ∧ parse_hyperlink (build_hyperlink_for_animal ("a" +:+ dq +:+ "b")) = None.
Proof. split_and!; reflexivity. Qed.

(** ** The scanner *)

Lemma extension_no_dot (s : string) : no_dot s = true -> extension s = EmptyString.
Proof.
  unfold no_dot. induction s as [|c s IH]; simpl; [done |].
  intros [Hc Hs]%andb_prop. rewrite (IH Hs).
  apply negb_true_iff in Hc. by rewrite Hc.
Qed.

(** A name ends with a dot followed by letters exactly when that is its
    extension. *)
Lemma endswith_extension (s body : string) :
  no_dot body = true ->
  Py.endswith s (String "." body) = true <-> extension s = String "." body.
Proof.
  intros Hbody. induction s as [|c s IH].
  - simpl. split; discriminate.
  - cbn [Py.endswith extension].
    destruct (String.eqb_spec (String c s) (String "." body)) as [Heq | Hne].
    + split; [intros _ | done]. injection Heq as -> ->.
      by rewrite (extension_no_dot body Hbody).
    + rewrite IH. destruct (extension s) as [|e es] eqn:He.
      * split; [discriminate |].
        destruct (Ascii.eqb c "."); [done | discriminate].
      * done.
Qed.

Lemma endswith_any_image (f : string) :
  Py.endswith_any f image_extensions = true <-> extension f ∈ image_extensions.
Proof.
  unfold Py.endswith_any, image_extensions. simpl.
  rewrite orb_false_r, !orb_true_iff.
  rewrite !endswith_extension by reflexivity.
  rewrite !elem_of_cons, elem_of_nil. tauto.
Qed.

Lemma scan_file_spec (processed : gset string) (root f full : string) :
  scan_file processed root f = Some full <->
  full = Py.path_join root f
  ∧ extension (Py.lower f) ∈ image_extensions
  ∧ Py.startswith f "._" = false
  ∧ full ∉ processed.
Proof.
  unfold scan_file. fold image_extensions.
  destruct (Py.startswith f "._").
  { split; [discriminate | by intros (_ & _ & ? & _)]. }
  destruct (Py.endswith_any (Py.lower f) image_extensions) eqn:Hext.
  - apply endswith_any_image in Hext. case_bool_decide as Hin.
    + split; [discriminate | by intros (-> & _ & _ & ?)].
    + split; [by intros [= <-] | by intros (-> & _)].
  - split; [discriminate |]. intros (_ & Hin & _).
    apply endswith_any_image in Hin. congruence.
Qed.

Lemma scan_all_images_run (W : World) (st : State) (root : string) :
  root_folder (self st) = Some root ->
  _scan_all_images W st
  = (st, Ok (scan_all_images W root (processed_paths (self st)))).
Proof.
  intros Hroot. unfold _scan_all_images. monad_unfold. by rewrite Hroot.
Qed.

(** C7. A path is returned by the scanner exactly when it is the full path
    of a file met by the walk from the root whose extension, in lower case,
    is [.jpg], [.jpeg] or [.png], whose name does not begin with [._], and
    which is not in the excluded set. When no file is such, the scanner
    returns the empty list; for a root that is a string it does not raise. *)
Theorem scan_returns_candidates (W : World) (root : string) (excluded : gset string) :
  (forall full,
     full ∈ scan_all_images W root excluded <->
     exists d files f,
       (d, files) ∈ os_walk W root ∧ f ∈ files
       ∧ full = Py.path_join d f
       ∧ extension (Py.lower f) ∈ image_extensions
       ∧ Py.startswith f "._" = false
       ∧ full ∉ excluded)
  ∧ ((forall d files f,
        (d, files) ∈ os_walk W root -> f ∈ files ->
        ~ (extension (Py.lower f) ∈ image_extensions
           ∧ Py.startswith f "._" = false
           ∧ Py.path_join d f ∉ excluded)) ->
     scan_all_images W root excluded = [])
  ∧ (forall st,
       root_folder (self st) = Some root ->
       _scan_all_images W st
       = (st, Ok (scan_all_images W root (processed_paths (self st))))).
Proof.
  assert (forall full,
     full ∈ scan_all_images W root excluded <->
     exists d files f,
       (d, files) ∈ os_walk W root ∧ f ∈ files
       ∧ full = Py.path_join d f
       ∧ extension (Py.lower f) ∈ image_extensions
       ∧ Py.startswith f "._" = false
       ∧ full ∉ excluded) as Hiff.
  { intros full. unfold scan_all_images.
    rewrite list_elem_of_In, in_flat_map. split.
    - intros ([d files] & Hwalk & Hin).
      apply list_elem_of_In, list_elem_of_omap in Hin as (f & Hf & Hscan).
      apply list_elem_of_In in Hwalk.
      apply scan_file_spec in Hscan as (-> & Hext & Hhid & Hnew).
      by exists d, files, f.
    - intros (d & files & f & Hwalk & Hf & Hscan).
      exists (d, files). split; [by apply list_elem_of_In |].
      apply list_elem_of_In, list_elem_of_omap. exists f. split; [done |].
      by apply scan_file_spec. }
  split; [exact Hiff |]. split.
  - intros Hnone. apply elem_of_nil_inv. intros full Hin.
    apply Hiff in Hin as (d & files & f & Hwalk & Hf & -> & Hrest).
    by destruct (Hnone d files f Hwalk Hf).
  - intros st Hroot. by apply scan_all_images_run.
Qed.

(** The scan of the example: the sidecar [._img3.jpg] and the text files
    are left out, [img2.JPG] is kept; with two paths excluded the other
    three remain. *)
Lemma scan_example :
  scan_all_images (Example.world Example.no_stop) "/data" ∅
  = [Example.deer1; Example.deer2; Example.fox4; Example.fox5; Example.fox6]
  ∧ scan_all_images (Example.world Example.no_stop) "/data"
      {[Example.deer1; Example.fox4]}
    = [Example.deer2; Example.fox5; Example.fox6]
  ∧ scan_all_images (Example.world Example.no_stop) "/elsewhere" ∅ = [].
Proof. split_and!; vm_compute; reflexivity. Qed.

(** [img2.JPG] of the example is a candidate, by its extension in lower
    case. *)
Lemma scan_candidate_example :
  extension (Py.lower "img2.JPG") = ".jpg"
  ∧ Example.deer2 ∈ scan_all_images (Example.world Example.no_stop) "/data" ∅.
Proof.
  split; [reflexivity |].
  apply (proj1 (scan_returns_candidates (Example.world Example.no_stop) "/data" ∅)).
  exists "/data/BlockA/Cam1/Deer",
         ["img1.jpg"; "img2.JPG"; "._img3.jpg"; "notes.txt"], "img2.JPG".
  split_and!.
  - apply (proj2 (list_elem_of_In _ _)). vm_compute. right. right. right. by left.
  - apply (proj2 (list_elem_of_In _ _)). right. by left.
  - reflexivity.
  - apply (proj2 (list_elem_of_In _ _)). by left.
  - reflexivity.
  - apply not_elem_of_empty.
Defined.

(** ** Batch classification *)

Lemma same_but_events_refl (st : State) : same_but_events st st.
Proof. by repeat split. Qed.

Lemma same_but_events_trans (a b c : State) :
  same_but_events a b -> same_but_events b c -> same_but_events a c.
Proof.
  intros (? & ? & ? & ?) (? & ? & ? & ?). repeat split; congruence.
Qed.

(** The retry of one image (lines 201-210) never raises. *)
Lemma retry_one_image (W : World) (p : string) (st : State) :
  exists st',
    try_except
      (let* r := call_classifier_one W p in ret (normalize r))
      (fun _ => ret fallback) st
    = (st', Ok (if classifier (self st) then per_image W p else fallback))
    ∧ same_but_events st st'.
Proof.
  unfold call_classifier_one, per_image. monad_unfold.
  destruct (classifier (self st)) eqn:Hc.
  - destruct (classify_one W p); eexists; (split; [reflexivity |]);
      by repeat split.
  - eexists; split; [reflexivity | apply same_but_events_refl].
Qed.

(** The retry loop of lines 199-211 never raises: each image gets the result
    of its own call, or the fallback. *)
Lemma retry_each_image (W : World) (batch : list string) (st : State) :
  exists st',
    collect (fun p =>
      try_except
        (let* r := call_classifier_one W p in ret (normalize r))
        (fun _ => ret fallback)) batch st
    = (st', Ok (map (fun p => if classifier (self st) then per_image W p
                              else fallback) batch))
    ∧ same_but_events st st'.
Proof.
  revert st. induction batch as [|p batch IH]; intros st.
  - exists st. split; [done | apply same_but_events_refl].
  - cbn [collect]. unfold bind at 1.
    destruct (retry_one_image W p st) as (st1 & -> & Hsame).
    destruct (IH st1) as (st2 & Hrest & Hsame2).
    unfold bind at 1. rewrite Hrest. exists st2. split.
    + destruct Hsame as (-> & _). done.
    + by eapply same_but_events_trans.
Qed.

(** [_classify_batch] run from any state. *)
Lemma classify_batch_run (W : World) (batch : list string) (st : State) :
  exists st' results,
    _classify_batch W batch st = (st', Ok results)
    ∧ same_but_events st st'
    ∧ (one_item_per_path W -> length results = length batch)
    ∧ (classifier (self st) = true ->
       match classify_many W batch with
       | Ok items => results = map normalize items
       | Raise _ => results = map (per_image W) batch
       end)
    ∧ (classifier (self st) = false -> results = map (fun _ => fallback) batch).
Proof.
  unfold _classify_batch, try_except.
  destruct (classifier (self st)) eqn:Hc.
  - destruct (classify_many W batch) as [items | e] eqn:Hmany.
    + exists (emit (ClassifyBatch batch) st).1, (map normalize items).
      split.
      { unfold call_classifier_many. monad_unfold. by rewrite Hc, Hmany. }
      split; [by repeat split |]. split; [| done].
      intros Hcontract. rewrite length_map. by apply Hcontract.
    + destruct (retry_each_image W batch (emit (ClassifyBatch batch) st).1)
        as (st' & Hrun & Hsame).
      simpl in Hrun. rewrite Hc in Hrun.
      exists st', (map (per_image W) batch). split.
      { unfold call_classifier_many. monad_unfold. rewrite Hc, Hmany.
        exact Hrun. }
      split.
      { eapply same_but_events_trans; [| exact Hsame]. by repeat split. }
      split; [by rewrite length_map | done].
  - destruct (retry_each_image W batch st) as (st' & Hrun & Hsame).
    rewrite Hc in Hrun. exists st', (map (fun _ => fallback) batch). split.
    { unfold call_classifier_many. monad_unfold. rewrite Hc. exact Hrun. }
    split; [done |]. split; [by rewrite length_map |]. split; [discriminate | done].
Qed.

Lemma scoring_by_results (W : World) (scored : string -> ClassificationResult)
    (batch : list string) (results : list ClassificationResult) :
  scoring_by W scored ->
  match classify_many W batch with
  | Ok items => results = map normalize items
  | Raise _ => results = map (per_image W) batch
  end ->
  results = map scored batch.
Proof.
  intros [Hmany Hone] Hres.
  destruct (classify_many W batch) as [items | e] eqn:Hcall; subst results.
  - by apply Hmany.
  - apply map_ext. intros p. apply Hone.
Qed.

Lemma scoring_by_contract (W : World) (scored : string -> ClassificationResult) :
  scoring_by W scored -> one_item_per_path W.
Proof.
  intros [Hmany _] paths results Hcall. apply Hmany in Hcall.
  apply (f_equal length) in Hcall. by rewrite !length_map in Hcall.
Qed.

(** C5. The batch classification never raises and leaves the processor and
    the checkpoint untouched. When the classifier keeps its contract of one
    item per path, it returns one result per path. With the model loaded:
    when the call for the whole batch returns, the results are its items,
    normalised, in their order; when it raises, every image is scored on
    its own, in input order, and an image whose own call raises too gets
    the fallback result, label Unidentified and score 0.0. *)
Theorem classify_batch_total (W : World) (batch : list string) (st : State) :
  exists st' results,
    _classify_batch W batch st = (st', Ok results)
    ∧ self st' = self st ∧ disk st' = disk st
    ∧ (one_item_per_path W -> length results = length batch)
    ∧ (classifier (self st) = true ->
       match classify_many W batch with
       | Ok items => results = map normalize items
       | Raise _ =>
           results = map (per_image W) batch
           ∧ forall i p, batch !! i = Some p ->
               results !! i = Some match classify_one W p with
                                   | Ok r => normalize r
                                   | Raise _ => mkResult (Some "Unidentified") (Some 0%float)
                                   end
       end).
Proof.
  destruct (classify_batch_run W batch st)
    as (st' & results & Hrun & (Hself & Hdisk & _) & Hlen & Hres & _).
  exists st', results. split_and!; try done.
  intros Hc. specialize (Hres Hc).
  destruct (classify_many W batch); [done |]. split; [done |].
  intros i p Hi. subst results. rewrite list_lookup_fmap, Hi. done.
Qed.

(** ** The inner loop *)

Lemma record_path (W : World) (th : float) (p : string) (r : ClassificationResult) :
  Path (_record_from_path_and_result W th p r) = p.
Proof.
  unfold _record_from_path_and_result.
  by destruct (parse_path_parts p) as [[? ?] ?].
Qed.

Lemma built_paths (W : World) (th : float) (paths : list string)
    (results : list ClassificationResult) :
  (length paths <= length results)%nat ->
  map Path (built W th paths results) = paths.
Proof.
  unfold built. revert results.
  induction paths as [|p paths IH]; intros [|r results] Hlen;
    cbn [zip_with map length] in *; try done; try lia.
  rewrite record_path. f_equal. apply IH. lia.
Qed.

Lemma built_scored (W : World) (th : float) (scored : string -> ClassificationResult)
    (batch : list string) (d : nat) :
  built W th (take d batch) (map scored batch)
  = map (record_of W th scored) (take d batch).
Proof.
  unfold built. revert d.
  induction batch as [|p batch IH]; intros [|d]; cbn [take map zip_with];
    try done.
  by rewrite IH.
Qed.

Lemma grown_by_refl (p : Processor) : grown_by [] p p.
Proof.
  unfold grown_by. simpl. rewrite app_nil_r, union_empty_r_L. done.
Qed.

Lemma grown_by_trans (r1 r2 : list Rec) (p p' p'' : Processor) :
  grown_by r1 p p' -> grown_by r2 p' p'' -> grown_by (r1 ++ r2) p p''.
Proof.
  intros (Hr & Hp & Hc & Hroot & Hbs & Hth) (Hr' & Hp' & Hc' & Hroot' & Hbs' & Hth').
  unfold grown_by. rewrite Hr', Hr, Hp', Hp, Hc', Hroot', Hbs', Hth'.
  rewrite map_app, list_to_set_app_L, app_assoc, union_assoc_L. done.
Qed.

Lemma grown_by_stop_flag (recs : list Rec) (b : bool) (p p' : Processor) :
  grown_by recs p p' -> grown_by recs p (with_stop_flag b p').
Proof. done. Qed.

(** The inner loop from any state: it builds the records of the first [d]
    images of the batch, in order, each from the result at its index; it
    raises only for want of a result; it stops early only after a look at
    the flag that found it set. *)
Lemma record_loop_general (W : World) (total : nat)
    (results : list ClassificationResult) (batch : list string) :
  forall (j : nat) (st : State),
  exists d st' o,
    record_loop W total results j batch st = (st', o)
    ∧ (d <= length batch)%nat ∧ (d <= length (drop j results))%nat
    ∧ grown_by (built W (conf_threshold (self st)) (take d batch) (drop j results))
               (self st) (self st')
    ∧ disk st' = disk st ∧ saves st' = saves st
    ∧ ((length batch <= length (drop j results))%nat -> o = Ok tt)
    ∧ (o = Ok tt -> (d < length batch)%nat ->
       stop_flag (self st') = true
       ∧ (stop_flag (self st) = true
          ∨ stop_requested W (polls st + d) = true))
    ∧ ((0 < d)%nat -> stop_flag (self st) = false)
    ∧ (forall i, (i < d)%nat -> stop_requested W (polls st + i) = false)
    ∧ (never_stopped W -> stop_flag (self st) = false ->
       stop_flag (self st') = false ∧ (o = Ok tt -> d = length batch)).
Proof.
  induction batch as [|img_path rest IH]; intros j st.
  - exists 0%nat, st, (Ok tt). simpl.
    split_and!; try done; try lia. apply grown_by_refl.
  - cbn [record_loop]. unfold read_stop_flag, index. monad_unfold.
    destruct (stop_flag (self st) || stop_requested W (polls st)) eqn:Hflag.
    { (* the flag is set: nothing is built *)
      eexists 0%nat, _, (Ok tt). split; [reflexivity |]. simpl.
      split_and!; try done; try lia.
      - apply grown_by_stop_flag, grown_by_refl.
      - intros _ _. split; [done |]. rewrite Nat.add_0_r.
        by apply orb_true_iff.
      - intros Hns Hf. rewrite Hf, (Hns (polls st)) in Hflag. done. }
    apply orb_false_elim in Hflag as [Hf Hreq].
    destruct (results !! j) as [result |] eqn:Hj.
    2:{ (* no result at this index *)
      apply lookup_ge_None in Hj.
      eexists 0%nat, _, (Raise IndexError). split; [reflexivity |]. simpl.
      rewrite drop_ge by lia. simpl.
      split_and!; try done; try lia.
      apply grown_by_stop_flag, grown_by_refl. }
    simpl.
    match goal with |- context [record_loop W total results (S j) rest ?s] =>
      destruct (IH (S j) s)
        as (d & st' & o & Hrun & Hd1 & Hd2 & Hgrow & Hdisk & Hsaves
            & Hok & Hcut & Hpos & Hreqs & Hnever)
    end.
    simpl in *. rewrite Hrun.
    exists (S d), st', o. split; [done |].
    rewrite (drop_S _ _ _ Hj). simpl.
    split_and!; try done; try lia.
    + (* the record of this image, then those of the rest *)
      change (?r :: built W ?th ?ps ?rs) with ([r] ++ built W th ps rs).
      eapply grown_by_trans; [| exact Hgrow].
      unfold grown_by. simpl. rewrite ?record_path, union_empty_r_L. done.
    + intros; apply Hok; lia.
    + intros Ho Hlt. destruct (Hcut Ho ltac:(lia)) as [Hset [? | Hreq']];
        [done |]. split; [done |]. right.
      by rewrite <- Nat.add_succ_comm.
    + intros [|i] Hi; [by rewrite Nat.add_0_r |].
      rewrite <- Nat.add_succ_comm. apply Hreqs. lia.
    + intros Hns _. destruct (Hnever Hns eq_refl) as [Hflag' Hlen].
      split; [done |]. intros Ho. by rewrite (Hlen Ho).
Qed.

(** ** The checkpoint store *)

(** [_save_progress] run from any state: it raises exactly when the output
    directory cannot be made; it never touches the processor. *)
Lemma save_progress_run (W : World) (st : State) :
  exists st' o,
    _save_progress W st = (st', o)
    ∧ self st' = self st ∧ polls st' = polls st ∧ saves st' = S (saves st)
    ∧ (makedirs_ok W (saves st) = true -> o = Ok tt)
    ∧ (makedirs_ok W (saves st) = false ->
       o = Raise OSError ∧ disk st' = disk st ∧ events st' = events st)
    ∧ (disk st' = disk st ∨ disk st' = Malformed BadJSON
       ∨ disk st' = Stored (checkpoint_of (self st) (clock W (saves st))))
    ∧ (o = Ok tt -> write_outcome W (saves st) = WriteOk ->
       disk st' = Stored (checkpoint_of (self st) (clock W (saves st)))).
Proof.
  unfold _save_progress, next_save, safe_makedirs, write_progress_file.
  monad_unfold. simpl.
  destruct (makedirs_ok W (saves st)) eqn:Hdir.
  - destruct (write_outcome W (saves st)) eqn:Hw; simpl;
      eexists _, _; (split; [reflexivity |]); simpl;
      split_and!; try done; auto.
  - eexists _, _. split; [reflexivity |]. simpl. split_and!; try done; auto.
Qed.

(** [_load_progress] run from any state: it never raises. *)
Lemma load_progress_run (st : State) :
  exists st' loaded,
    _load_progress st = (st', Ok loaded)
    ∧ disk st' = disk st ∧ polls st' = polls st ∧ saves st' = saves st
    ∧ stop_flag (self st') = stop_flag (self st)
    ∧ classifier (self st') = classifier (self st)
    ∧ match disk st with
      | NoFile => loaded = false ∧ st' = st
      | Stored payload =>
          loaded = true ∧ self st' = restore payload (self st)
          ∧ events st' = events st
      | Malformed c =>
          loaded = false ∧ self st' = restore_partial c (self st)
          ∧ events st' = events st ++ [ShowWarning "Resume"]
      end.
Proof.
  unfold _load_progress. monad_unfold.
  destruct (disk st) as [| payload | c] eqn:Hdisk; simpl.
  - exists st, false. by rewrite Hdisk.
  - eexists _, _. split; [reflexivity |]. simpl. by rewrite Hdisk.
  - eexists _, _. split; [reflexivity |]. simpl. rewrite Hdisk.
    split_and!; try done; by destruct c.
Qed.

(** ** One iteration of the batch loop *)

Lemma batch_iteration_general (W : World) (total : nat) (paths : list string)
    (i : nat) (st : State) :
  let batch := Py.slice paths i (batch_size (self st)) in
  exists d results st' o,
    batch_iteration W total paths i st = (st', o)
    ∧ (d <= length batch)%nat ∧ (d <= length results)%nat
    ∧ grown_by (built W (conf_threshold (self st)) (take d batch) results)
               (self st) (self st')
    ∧ (one_item_per_path W -> length results = length batch)
    ∧ (classifier (self st) = true ->
       match classify_many W batch with
       | Ok items => results = map normalize items
       | Raise _ => results = map (per_image W) batch
       end)
    ∧ ((length batch <= length results)%nat ->
       makedirs_ok W (saves st) = true -> o = Ok tt)
    ∧ (o = Ok tt -> (d < length batch)%nat ->
       stop_flag (self st') = true
       ∧ (stop_flag (self st) = true
          ∨ stop_requested W (polls st + d) = true))
    ∧ ((0 < d)%nat -> stop_flag (self st) = false)
    ∧ (forall n, (n < d)%nat -> stop_requested W (polls st + n) = false)
    ∧ (never_stopped W -> stop_flag (self st) = false ->
       stop_flag (self st') = false ∧ (o = Ok tt -> d = length batch))
    ∧ (disk st' = disk st ∨ disk st' = Malformed BadJSON
       ∨ disk st' = Stored (checkpoint_of (self st') (clock W (saves st))))
    ∧ (o = Ok tt -> write_outcome W (saves st) = WriteOk ->
       disk st' = Stored (checkpoint_of (self st') (clock W (saves st)))).
Proof.
  intros batch. unfold batch_iteration. monad_unfold. fold batch.
  destruct (classify_batch_run W batch st)
    as (st1 & results & -> & (Hself1 & Hdisk1 & Hpolls1 & Hsaves1) & Hlen & Hres & _).
  destruct (record_loop_general W total results batch 0 st1)
    as (d & st2 & o2 & -> & Hd1 & Hd2 & Hgrow & Hdisk2 & Hsaves2
        & Hok & Hcut & Hpos & Hreqs & Hnever).
  rewrite drop_0, Hself1 in *. rewrite Hpolls1 in Hreqs, Hcut.
  destruct o2 as [[] | e].
  - destruct (save_progress_run W st2)
      as (st3 & o3 & -> & Hself3 & _ & _ & Hdir & _ & Hdisk3 & Hwrite).
    rewrite Hsaves2, Hsaves1 in *. rewrite Hdisk2, Hdisk1 in Hdisk3.
    exists d, results, st3, o3. rewrite Hself3.
    split_and!; try done.
    + intros _ Hlt. by apply Hcut.
    + intros Hns Hf. destruct (Hnever Hns Hf) as [? Hfull]. split; [done |].
      intros _. by apply Hfull.
  - exists d, results, st2, (Raise e). rewrite Hdisk2, Hdisk1.
    split_and!; try done; auto.
Qed.

(** ** The batch loop *)

Lemma slice_take_drop {A} (l : list A) (i k : nat) :
  Py.slice l i (Z.of_nat k) = take k (drop i l).
Proof.
  unfold Py.slice.
  destruct (Z.ltb_spec (Z.of_nat i + Z.of_nat k) 0) as [Hneg | _]; [lia |].
  f_equal. lia.
Qed.

Lemma checkpoint_of_grown (p p' : Processor) (t : string) :
  grown_by [] p p' -> checkpoint_of p' t = checkpoint_of p t.
Proof.
  intros (Hr & Hp & _ & Hroot & Hbs & Hth). unfold checkpoint_of.
  rewrite Hr, Hp, Hroot, Hbs, Hth. simpl.
  by rewrite app_nil_r, union_empty_r_L.
Qed.

(** The loop over the starts [a*k, (a+1)*k, ...] of [n] batches of size [k]:
    it builds the records of the first [m] of the paths from [a*k] on. *)
Lemma batch_loop_growth (W : World) (total : nat) (paths : list string) (k : nat) :
  (0 < k)%nat ->
  forall (n a : nat) (st : State),
  batch_size (self st) = Z.of_nat k ->
  exists m recs st' o,
    batch_loop W total paths (map (fun q => (q * k)%nat) (seq a n)) st = (st', o)
    ∧ grown_by recs (self st) (self st')
    ∧ map Path recs = take m (drop (a * k) paths)
    ∧ (forall scored, scoring_by W scored -> classifier (self st) = true ->
       recs = map (record_of W (conf_threshold (self st)) scored)
                  (take m (drop (a * k) paths)))
    ∧ (one_item_per_path W -> (forall s, makedirs_ok W s = true) -> o = Ok tt)
    ∧ (never_stopped W -> stop_flag (self st) = false ->
       stop_flag (self st') = false
       ∧ (o = Ok tt ->
          take m (drop (a * k) paths) = take (n * k) (drop (a * k) paths)))
    ∧ (o = Ok tt -> store_works W ->
       (recs = [] ∧ disk st' = disk st) ∨ checkpointed st')
    ∧ (stop_flag (self st) = true ->
       recs = [] ∧ events st' = events st ∧ disk st' = disk st
       ∧ saves st' = saves st ∧ o = Ok tt ∧ stop_flag (self st') = true).
Proof.
  intros Hk. induction n as [|n IH]; intros a st Hbs.
  - exists 0%nat, [], st, (Ok tt). simpl. rewrite take_0.
    split_and!; try done; auto using grown_by_refl.
  - cbn [seq map batch_loop]. unfold read_stop_flag. monad_unfold.
    destruct (stop_flag (self st) || stop_requested W (polls st)) eqn:Hflag.
    { (* the flag is set: the loop ends before this batch *)
      eexists 0%nat, [], _, (Ok tt). split; [reflexivity |]. simpl.
      rewrite take_0. split_and!; try done; auto.
      - apply grown_by_stop_flag, grown_by_refl.
      - intros Hns Hf. rewrite Hf, (Hns (polls st)) in Hflag. discriminate. }
    apply orb_false_elim in Hflag as [Hf Hreq].
    set (l := drop (a * k) paths).
    match goal with |- context [batch_iteration W total paths (a * k) ?s] =>
      set (st1 := s);
      destruct (batch_iteration_general W total paths (a * k) st1)
        as (d & results & st2 & o2 & Hrun & Hd1 & Hd2 & Hgrow & Hlen & Hres
            & Hok & Hcut & _ & _ & Hnever & _ & Hwrite)
    end.
    rewrite Hrun. simpl in Hgrow, Hlen, Hres, Hok, Hcut, Hnever, Hwrite, Hd1.
    rewrite Hbs, slice_take_drop in *. fold l in Hd1, Hgrow, Hlen, Hres, Hok, Hcut, Hnever.
    set (batch := take k l) in *.
    assert (map Path (built W (conf_threshold (self st)) (take d batch) results)
            = take d batch) as Hpaths1.
    { apply built_paths. rewrite length_take. lia. }
    assert (take d batch = take d l) as Hprefix.
    { unfold batch. rewrite take_take. f_equal.
      unfold batch in Hd1. rewrite length_take in Hd1. lia. }
    destruct o2 as [[] | e].
    2:{ (* the iteration raised *)
      exists d, (built W (conf_threshold (self st)) (take d batch) results),
             st2, (Raise e).
      split; [done |]. split_and!; try done.
      - by rewrite Hpaths1.
      - intros scored Hsc Hc. rewrite <- Hprefix.
        rewrite (scoring_by_results W scored batch results Hsc (Hres Hc)).
        apply built_scored.
      - intros Hcontract Hdir. apply Hok; [| apply Hdir].
        by rewrite (Hlen Hcontract).
      - intros Hns _. by destruct (Hnever Hns eq_refl).
      - intros Hset. congruence. }
    destruct (Hgrow) as (_ & _ & Hc2 & _ & Hbs2 & Hth2). simpl in Hc2, Hbs2, Hth2.
    destruct (IH (S a) st2) as (m' & recs' & st' & o & Hloop & Hgrow' & Hpaths'
        & Hscored' & Hok' & Hnever' & Hcp' & Hset'); [congruence |].
    rewrite Hloop.
    assert (drop (S a * k) paths = drop k l) as Hnext.
    { unfold l. rewrite drop_drop. f_equal. lia. }
    rewrite Hnext in *.
    (* the paths of this iteration followed by those of the rest *)
    assert (exists m, take d batch ++ take m' (drop k l) = take m l
                      ∧ (d = length batch -> take m l = take (k + m') l))
      as (m & Hjoin & Hfull).
    { destruct (decide (d < length batch)%nat) as [Hlt | Hge].
      - destruct (Hset' (proj1 (Hcut eq_refl Hlt))) as (-> & _).
        simpl in Hpaths'. rewrite <- Hpaths', app_nil_r.
        exists d. split; [done | lia].
      - assert (d = length batch) as -> by lia.
        exists (k + m')%nat. split; [| done].
        rewrite firstn_all. unfold batch. apply take_take_drop. }
    exists m, (built W (conf_threshold (self st)) (take d batch) results ++ recs'),
           st', o.
    split; [done |]. split_and!.
    + eapply grown_by_trans; [exact Hgrow | exact Hgrow'].
    + by rewrite map_app, Hpaths1, Hpaths', Hjoin.
    + intros scored Hsc Hc. rewrite <- Hjoin, map_app. f_equal.
      * rewrite (scoring_by_results W scored batch results Hsc (Hres Hc)).
        apply built_scored.
      * rewrite <- Hth2. apply Hscored'; [done | congruence].
    + intros Hcontract Hdir. by apply Hok'.
    + intros Hns _. destruct (Hnever Hns eq_refl) as [Hf2 Hd].
      destruct (Hnever' Hns Hf2) as [Hf' Hm']. split; [done |].
      intros Ho. rewrite (Hfull (Hd eq_refl)).
      change (S n * k)%nat with (k + n * k)%nat.
      rewrite <- !take_take_drop. by rewrite (Hm' Ho).
    + intros Ho Hstore. right.
      destruct (Hstore (saves st)) as [_ Hw].
      destruct (Hcp' Ho Hstore) as [[-> Hsame] | Hcp]; [| done].
      exists (clock W (saves st)). rewrite Hsame, (Hwrite eq_refl Hw).
      f_equal. symmetry. by apply checkpoint_of_grown.
    + intros Hset. congruence.
Qed.

(** C2. An iteration of the batch loop, of the new run and of the resumed
    run alike, builds the records of the [d] images of its batch that come
    before the first look at the flag that finds it set, appends them to the
    record list, adds their paths to the processed paths, and then saves a
    checkpoint, also when the flag cut the batch short. With a classifier
    that gives one item per path and an output directory that can be made,
    the iteration does not raise; when the write succeeds the checkpoint
    file is the payload of the processor as the iteration leaves it: all
    the records built so far, those of the cut batch included. *)
Theorem checkpoint_after_every_batch (W : World) (total : nat)
    (paths : list string) (i : nat) (st : State) :
  one_item_per_path W ->
  makedirs_ok W (saves st) = true ->
  write_outcome W (saves st) = WriteOk ->
  let batch := Py.slice paths i (batch_size (self st)) in
  (forall rest,
     batch_loop W total paths (i :: rest)
     = let* stopped := read_stop_flag W in
       if stopped then ret tt
       else do* batch_iteration W total paths i in
            batch_loop W total paths rest)
  ∧ exists d results st',
      batch_iteration W total paths i st = (st', Ok tt)
      ∧ (d <= length batch)%nat
      ∧ length results = length batch
      ∧ records (self st')
        = records (self st)
          ++ built W (conf_threshold (self st)) (take d batch) results
      ∧ map Path (records (self st')) = map Path (records (self st)) ++ take d batch
      ∧ processed_paths (self st')
        = processed_paths (self st) ∪ list_to_set (take d batch)
      ∧ (forall n, (n < d)%nat -> stop_requested W (polls st + n) = false)
      ∧ ((d < length batch)%nat ->
         stop_flag (self st') = true
         ∧ (stop_flag (self st) = true
            ∨ stop_requested W (polls st + d) = true))
      ∧ disk st' = Stored (checkpoint_of (self st') (clock W (saves st)))
      ∧ payload_records (checkpoint_of (self st') (clock W (saves st)))
        = Some (records (self st'))
      ∧ payload_processed_paths (checkpoint_of (self st') (clock W (saves st)))
        = Some (elements (processed_paths (self st'))).
Proof.
  intros Hcontract Hdir Hwrite batch. split; [done |].
  destruct (batch_iteration_general W total paths i st)
    as (d & results & st' & o & Hrun & Hd1 & Hd2 & Hgrow & Hlen & _
        & Hok & Hcut & _ & Hreqs & _ & _ & Hdisk).
  fold batch in Hd1, Hgrow, Hlen, Hok, Hcut.
  specialize (Hlen Hcontract).
  assert (o = Ok tt) as -> by (apply Hok; [lia | done]).
  destruct Hgrow as (Hrecs & Hproc & _).
  assert (map Path (built W (conf_threshold (self st)) (take d batch) results)
          = take d batch) as Hpaths.
  { apply built_paths. rewrite length_take. lia. }
  exists d, results, st'. split_and!; try done.
  - by rewrite Hrecs, map_app, Hpaths.
  - by rewrite Hproc, Hpaths.
  - by apply Hcut.
  - by apply Hdisk.
Qed.

(** ** The two entry points *)

Lemma range0_batches (n k : nat) :
  (0 < k)%nat ->
  Py.range0 n (Z.of_nat k)
  = Some (map (fun q => (q * k)%nat) (seq 0 ((n + k - 1) / k))).
Proof.
  intros Hk. unfold Py.range0.
  destruct (Z.eqb_spec (Z.of_nat k) 0); [lia |].
  destruct (Z.ltb_spec (Z.of_nat k) 0); [lia |].
  by rewrite Nat2Z.id.
Qed.

(** The batches cover the list. *)
Lemma batches_cover (n k : nat) : (0 < k)%nat -> (n <= (n + k - 1) / k * k)%nat.
Proof.
  intros Hk.
  pose proof (Nat.mul_succ_div_gt (n + k - 1) k ltac:(lia)) as Hgt.
  rewrite Nat.mul_succ_r, (Nat.mul_comm k) in Hgt. lia.
Qed.

Lemma scan_file_excluding (excluded : gset string) (d f : string) :
  scan_file excluded d f
  = match scan_file ∅ d f with
    | Some full => if bool_decide (full ∈ excluded) then None else Some full
    | None => None
    end.
Proof.
  unfold scan_file.
  destruct (Py.startswith f "._"); [done |].
  destruct (Py.endswith_any (Py.lower f) [".jpg"; ".jpeg"; ".png"]); [| done].
  by rewrite (bool_decide_eq_false_2 (_ ∈ ∅)) by set_solver.
Qed.

(** Scanning with paths excluded is scanning, then leaving them out. *)
Lemma scan_excluding (W : World) (root : string) (excluded : gset string) :
  scan_all_images W root excluded
  = filter (fun p => p ∉ excluded) (scan_all_images W root ∅).
Proof.
  unfold scan_all_images. induction (os_walk W root) as [|[d files] walk IH].
  - done.
  - cbn [flat_map]. rewrite filter_app, <- IH. f_equal.
    clear IH. induction files as [|f files IHf]; [done |].
    cbn [omap list_omap]. rewrite scan_file_excluding.
    destruct (scan_file ∅ d f) as [full |]; [| exact IHf].
    rewrite filter_cons. case_bool_decide; case_decide; try done.
    by rewrite IHf.
Qed.

Lemma filter_keeps_all (s : gset string) (l : list string) :
  (forall x, x ∈ l -> x ∉ s) -> filter (fun p => p ∉ s) l = l.
Proof.
  induction l as [|x l IH]; intros Hall; [done |].
  rewrite filter_cons_True by (apply Hall; left).
  f_equal. apply IH. intros y Hy. apply Hall. by right.
Qed.

Lemma filter_out_app (l1 l2 : list string) :
  NoDup (l1 ++ l2) ->
  filter (fun p => p ∉ (list_to_set l1 : gset string)) (l1 ++ l2) = l2.
Proof.
  intros (_ & Hdisj & _)%NoDup_app. rewrite filter_app.
  assert (filter (fun p => p ∉ (list_to_set l1 : gset string)) l1 = []) as ->.
  { apply elem_of_nil_inv. intros x [Hx Hin]%list_elem_of_filter.
    apply Hx. by apply elem_of_list_to_set. }
  simpl. apply filter_keeps_all.
  intros x Hx Hin%elem_of_list_to_set. by apply (Hdisj x).
Qed.

(** Leaving out the first [m] of a list without repetition leaves the rest. *)
Lemma filter_out_prefix (l : list string) (m : nat) :
  NoDup l ->
  filter (fun p => p ∉ (list_to_set (take m l) : gset string)) l = drop m l.
Proof.
  intros Hnd. rewrite <- (take_drop m l) in Hnd.
  pose proof (filter_out_app _ _ Hnd) as Hf. by rewrite take_drop in Hf.
Qed.

(** Closes a growth by no record between processors with the same fields. *)
Ltac no_records :=
  unfold grown_by; simpl; rewrite ?app_nil_r, ?union_empty_r_L; done.

(** [load_model] run from any state. *)
Lemma load_model_run (W : World) (st : State) :
  exists st' o,
    load_model W st = (st', o)
    ∧ disk st' = disk st ∧ polls st' = polls st ∧ saves st' = saves st
    ∧ filter is_classifier_call (events st') = filter is_classifier_call (events st)
    ∧ (o = Ok tt -> self st' = with_classifier true (self st))
    ∧ (o <> Ok tt -> self st' = self st)
    ∧ (model_loads W -> o = Ok tt).
Proof.
  unfold load_model, model_loads. monad_unfold. simpl.
  destruct (model_dir_exists W) eqn:Hdir; simpl.
  - destruct (pipeline_loads W) eqn:Hpipe; simpl.
    + eexists _, _. split; [reflexivity |]. simpl.
      rewrite !filter_app, !app_nil_r. split_and!; done.
    + eexists _, _. split; [reflexivity |]. simpl.
      rewrite !filter_app, !app_nil_r.
      split_and!; try done. by intros [_ ?].
  - eexists _, _. split; [reflexivity |]. simpl.
    rewrite !filter_app, !app_nil_r.
    split_and!; try done. by intros [? _].
Qed.

(** Steps of a computation whose first part is known. *)
Lemma bind_ok {A B} (m : M A) (f : A -> M B) (st st' : State) (a : A) :
  m st = (st', Ok a) -> bind m f st = f a st'.
Proof. intros H. unfold bind. by rewrite H. Qed.

Lemma bind_raise {A B} (m : M A) (f : A -> M B) (st st' : State) (e : exn) :
  m st = (st', Raise e) -> bind m f st = (st', Raise e).
Proof. intros H. unfold bind. by rewrite H. Qed.

Lemma guarded_ok (m : M unit) (st st' : State) :
  m st = (st', Ok tt) -> guarded m st = (st', Ok true).
Proof. intros H. unfold guarded. monad_unfold. by rewrite H. Qed.

Lemma guarded_raise (m : M unit) (st st' : State) (e : exn) :
  m st = (st', Raise e) ->
  guarded m st
  = ((emit (ShowError "Model Error") (emit EnableUI st').1).1, Ok false).
Proof. intros H. unfold guarded. monad_unfold. by rewrite H. Qed.

(** [_finalize_processing] run from any state. *)
Lemma finalize_run (W : World) (st : State) :
  let rows := map export_row (records (self st)) in
  exists st' o,
    _finalize_processing W st = (st', o)
    ∧ self st' = self st ∧ polls st' = polls st
    ∧ filter is_classifier_call (events st') = filter is_classifier_call (events st)
    ∧ (store_works W -> disk st' = disk st ∨ checkpointed st')
    ∧ (disk st' = disk st ∨ disk st' = Malformed BadJSON
       ∨ disk st' = Stored (checkpoint_of (self st) (clock W (saves st))))
    ∧ (excel_ok W rows = true -> makedirs_ok W (saves st) = true ->
       o = Ok tt ∧ Exported rows ∈ events st' ∧ saves st' = S (saves st)
       ∧ (write_outcome W (saves st) = WriteOk ->
          disk st' = Stored (checkpoint_of (self st) (clock W (saves st))))).
Proof.
  intros rows. unfold _finalize_processing, save_to_excel. monad_unfold.
  fold rows. destruct (excel_ok W rows) eqn:Hexcel.
  2:{ exists st, (Raise (excel_error W rows)). split; [done |].
      split_and!; auto. done. }
  match goal with |- context [_save_progress W ?s] =>
    destruct (save_progress_run W s)
      as (st2 & o2 & Hsave & Hself2 & Hpolls2 & Hsaves2 & Hdir & Hnodir
          & Hdisk2 & Hwrite)
  end.
  assert (filter is_classifier_call (events st2)
          = filter is_classifier_call (events st)
          ∧ Exported rows ∈ events st2) as [Hev2 Hexp2].
  { unfold _save_progress, next_save, safe_makedirs, write_progress_file in Hsave.
    monad_unfold_in Hsave. simpl in Hsave.
    destruct (makedirs_ok W (saves st)); [| injection Hsave as <- _; simpl;
      rewrite filter_app, app_nil_r; split; [done | set_solver]].
    destruct (write_outcome W (saves st)); injection Hsave as <- _; simpl;
      rewrite !filter_app, !app_nil_r; (split; [done | set_solver]). }
  simpl in Hself2, Hpolls2, Hsaves2, Hdir, Hnodir, Hdisk2, Hwrite.
  rewrite Hsave. destruct o2 as [[] | e].
  - eexists _, (Ok tt). split; [reflexivity |].
    simpl. rewrite !filter_app, !app_nil_r.
    split_and!; try done.
    + intros Hstore. right. destruct (Hstore (saves st)) as [_ Hw].
      exists (clock W (saves st)). simpl. rewrite Hself2. by apply Hwrite.
    + intros _ _. split_and!; try done; [set_solver | by apply Hwrite].
  - exists st2, (Raise e). split; [reflexivity |].
    split_and!; try done.
    + intros Hstore. destruct (Hstore (saves st)) as [Hd _].
      specialize (Hdir Hd). discriminate.
    + intros _ Hd. specialize (Hdir Hd). discriminate.
Qed.

Lemma batch_starts_run (paths : list string) (st : State) (k : nat) :
  batch_size (self st) = Z.of_nat k -> (0 < k)%nat ->
  batch_starts paths st
  = (st, Ok (map (fun q => (q * k)%nat) (seq 0 ((length paths + k - 1) / k)))).
Proof.
  intros Hbs Hk. unfold batch_starts. monad_unfold.
  by rewrite Hbs, range0_batches.
Qed.

(** The batch loop and the finalisation that follows it, from a state whose
    model is loaded. *)
Lemma loop_and_finalize_run (W : World) (scored : string -> ClassificationResult)
    (total : nat) (paths : list string) (st : State) (k : nat) :
  scoring_by W scored -> (forall s, makedirs_ok W s = true) ->
  classifier (self st) = true ->
  batch_size (self st) = Z.of_nat k -> (0 < k)%nat ->
  exists m st' o,
    (let* starts := batch_starts paths in
     do* batch_loop W total paths starts in
     _finalize_processing W) st = (st', o)
    ∧ grown_by (map (record_of W (conf_threshold (self st)) scored) (take m paths))
               (self st) (self st')
    ∧ (never_stopped W -> stop_flag (self st) = false -> take m paths = paths)
    ∧ (store_works W -> disk st' = disk st ∨ checkpointed st').
Proof.
  intros Hsc Hdir Hc Hbs Hk.
  erewrite bind_ok by (by apply batch_starts_run).
  destruct (batch_loop_growth W total paths k Hk
              ((length paths + k - 1) / k) 0 st Hbs)
    as (m & recs & st1 & o1 & Hloop & Hgrow & _ & Hrecs & Hok & Hnever & Hcp & _).
  rewrite drop_0 in *.
  specialize (Hrecs scored Hsc Hc). subst recs.
  specialize (Hok (scoring_by_contract W scored Hsc) Hdir). subst o1.
  erewrite bind_ok by exact Hloop.
  destruct (finalize_run W st1)
    as (st2 & o2 & Hfin & Hself2 & _ & _ & Hcp2 & _).
  exists m, st2, o2. split; [exact Hfin |]. rewrite Hself2.
  split; [done |]. split.
  - intros Hns Hf. destruct (Hnever Hns Hf) as [_ Hall].
    rewrite (Hall eq_refl). apply take_ge.
    apply batches_cover. done.
  - intros Hstore. destruct (Hcp2 Hstore) as [Hsame | Hcp2']; [| by right].
    destruct (Hcp eq_refl Hstore) as [[Hnil Hd] | (t & Ht)].
    + left. congruence.
    + right. exists t. rewrite Hsame, Hself2. done.
Qed.

Lemma processed_of_records (W : World) (th : float)
    (scored : string -> ClassificationResult) (paths : list string) :
  map Path (map (record_of W th scored) paths) = paths.
Proof.
  rewrite map_map. rewrite <- (map_id paths) at 2.
  apply map_ext. intros p. apply record_path.
Qed.

(** The new run, with a model that loads and an output directory that can
    be made: it ends with the records of the first [m] scanned images, all
    of them when the flag is never set. *)
Lemma process_new_run (W : World) (scored : string -> ClassificationResult)
    (st : State) (root : string) (k : nat) :
  model_loads W -> scoring_by W scored -> (forall s, makedirs_ok W s = true) ->
  root_folder (self st) = Some root ->
  batch_size (self st) = Z.of_nat k -> (0 < k)%nat ->
  let all := scan_all_images W root ∅ in
  let th := conf_threshold (self st) in
  exists m st' o,
    process_new W st = (st', o)
    ∧ records (self st') = map (record_of W th scored) (take m all)
    ∧ processed_paths (self st') = list_to_set (take m all)
    ∧ root_folder (self st') = Some root
    ∧ batch_size (self st') = Z.of_nat k
    ∧ conf_threshold (self st') = th
    ∧ (never_stopped W -> take m all = all)
    ∧ (store_works W -> disk st' = disk st ∨ checkpointed st').
Proof.
  intros Hmodel Hsc Hdir Hroot Hbs Hk all th. unfold process_new.
  set (st0 := (reset_state st).1).
  destruct (load_model_run W st0)
    as (st1 & o1 & Hload & Hdisk1 & _ & _ & _ & Hself1 & _ & Hok1).
  specialize (Hok1 Hmodel). subst o1. specialize (Hself1 eq_refl).
  erewrite bind_ok; [| apply guarded_ok; erewrite bind_ok;
                       [exact Hload | reflexivity]].
  cbn [negb].
  erewrite bind_ok; [| apply (scan_all_images_run W st1 root);
                       by rewrite Hself1].
  replace (processed_paths (self st1)) with (∅ : gset string)
    by (by rewrite Hself1).
  fold all. destruct all as [|p0 rest] eqn:Hall.
  - (* nothing to do *)
    eexists 0%nat, _, _. split; [reflexivity |]. simpl.
    rewrite Hself1. simpl. split_and!; try done. intros _. by left.
  - rewrite <- Hall.
    do 2 (erewrite (bind_ok (emit _)) by reflexivity).
    match goal with |- context [bind (batch_starts all) ?f ?s] =>
      destruct (loop_and_finalize_run W scored (length all) all s k Hsc Hdir)
        as (m & st' & o & Hrun & Hgrow & Hnever & Hcp);
        [by (simpl; rewrite Hself1) | by (simpl; rewrite Hself1) | done |]
    end.
    exists m, st', o. split; [exact Hrun |].
    simpl in Hgrow, Hnever, Hcp. rewrite Hself1 in Hgrow, Hnever. simpl in Hgrow, Hnever.
    destruct Hgrow as (Hr & Hp & _ & Hroot' & Hbs' & Hth'). simpl in *.
    rewrite Hr, Hp, Hroot', Hbs', Hth', processed_of_records, union_empty_l_L.
    split_and!; try done.
    + intros Hns. by apply Hnever.
    + intros Hstore. rewrite <- Hdisk1. by apply Hcp.
Qed.

(** Lines 266-268: the model is loaded unless it already is. *)
Lemma ensure_model_run (W : World) (st : State) :
  classifier (self st) = true ∨ model_loads W ->
  exists st',
    (let* me := get_self in
     if classifier me then ret tt else load_model W) st = (st', Ok tt)
    ∧ self st' = with_classifier true (self st)
    ∧ disk st' = disk st ∧ saves st' = saves st
    ∧ filter is_classifier_call (events st') = filter is_classifier_call (events st).
Proof.
  intros Hready. monad_unfold.
  destruct (classifier (self st)) eqn:Hc.
  - exists st. split_and!; try done.
    destruct (self st); simpl in Hc; by subst.
  - destruct Hready as [? | Hmodel]; [done |].
    destruct (load_model_run W st)
      as (st' & o & Hload & Hdisk & _ & Hsaves & Hev & Hself & _ & Hok).
    specialize (Hok Hmodel). subst o. specialize (Hself eq_refl).
    by exists st'.
Qed.

Lemma restore_checkpoint (p q : Processor) (t : string) :
  restore (checkpoint_of p t) q
  = mkProcessor (classifier q) (stop_flag q) (records p) (processed_paths p)
                (root_folder p) (batch_size p) (conf_threshold p).
Proof. unfold restore, checkpoint_of. simpl. by rewrite list_to_set_elements_L. Qed.

(** The resumed run from the checkpoint of a processor that holds the
    records of the first [m] scanned images: it ends with the records of
    the first [m'] of them, all of them when the flag is never set. *)
Lemma process_resume_run (W : World) (scored : string -> ClassificationResult)
    (st : State) (p : Processor) (t root : string) (k m : nat) (th : float) :
  scoring_by W scored -> (forall s, makedirs_ok W s = true) ->
  classifier (self st) = true ∨ model_loads W ->
  let all := scan_all_images W root ∅ in
  NoDup all ->
  disk st = Stored (checkpoint_of p t) ->
  mid_run W scored root (Z.of_nat k) th m p -> (0 < k)%nat ->
  exists m' st' o,
    process_resume W st = (st', o)
    ∧ mid_run W scored root (Z.of_nat k) th m' (self st')
    ∧ (never_stopped W -> stop_flag (self st) = false -> take m' all = all)
    ∧ (store_works W -> disk st' = disk st ∨ checkpointed st').
Proof.
  intros Hsc Hdir Hready all Hnd Hdisk (Hrecs & Hproc & Hroot & Hbs & Hth) Hk.
  fold all in Hrecs, Hproc. unfold mid_run. fold all.
  unfold process_resume.
  destruct (load_progress_run st)
    as (st1 & loaded & Hload & Hdisk1 & _ & _ & Hflag1 & Hc1 & Hcase).
  rewrite Hdisk in Hcase. destruct Hcase as (-> & Hself1 & _).
  rewrite restore_checkpoint in Hself1.
  erewrite bind_ok by exact Hload. cbn [negb].
  destruct (ensure_model_run W st1) as (st2 & Hensure & Hself2 & Hdisk2 & _);
    [by rewrite Hc1 |].
  erewrite bind_ok by (apply guarded_ok; exact Hensure). cbn [negb].
  rewrite Hself1 in Hself2. simpl in Hself2.
  assert (records (self st2) = records p) as Hr2 by (by rewrite Hself2).
  assert (processed_paths (self st2) = processed_paths p) as Hp2
    by (by rewrite Hself2).
  assert (root_folder (self st2) = root_folder p) as Hroot2
    by (by rewrite Hself2).
  assert (batch_size (self st2) = batch_size p) as Hbs2 by (by rewrite Hself2).
  assert (conf_threshold (self st2) = conf_threshold p) as Hth2
    by (by rewrite Hself2).
  assert (classifier (self st2) = true) as Hc2 by (by rewrite Hself2).
  assert (stop_flag (self st2) = stop_flag (self st)) as Hflag2
    by (by rewrite Hself2).
  erewrite bind_ok
    by (apply (scan_all_images_run W st2 root); congruence).
  erewrite bind_ok by reflexivity.
  assert (scan_all_images W root (processed_paths (self st2)) = drop m all)
    as Hremaining.
  { rewrite scan_excluding, Hp2, Hproc. by apply filter_out_prefix. }
  rewrite Hremaining.
  destruct (length (drop m all) + size (processed_paths (self st2)) =? 0)%nat
    eqn:Htotal.
  - (* nothing to process *)
    apply Nat.eqb_eq in Htotal.
    assert (drop m all = []) as Hnone by (apply length_zero_iff_nil; lia).
    eexists m, _, _. split; [reflexivity |]. simpl.
    split; [by split_and!; congruence |]. split.
    + intros _ _. by rewrite <- (take_drop m all) at 2; rewrite Hnone, app_nil_r.
    + intros _. left. congruence.
  - do 2 (erewrite (bind_ok (emit _)) by reflexivity).
    match goal with |- context [bind (batch_starts ?ps) ?f ?s] =>
      destruct (loop_and_finalize_run W scored
                  (length ps + size (processed_paths (self st2))) ps s k Hsc Hdir)
        as (m' & st' & o & Hrun & Hgrow & Hnever & Hcp);
        [done | by (simpl; rewrite Hbs2) | done |]
    end.
    exists (m + m')%nat, st', o. split; [exact Hrun |]. simpl in *.
    destruct Hgrow as (Hr & Hp & _ & Hroot' & Hbs' & Hth').
    split; [| split].
    + rewrite Hr, Hp, Hroot', Hbs', Hth', processed_of_records.
      rewrite Hr2, Hp2, Hroot2, Hbs2, Hth2, Hrecs, Hproc, Hth.
      rewrite <- map_app, <- list_to_set_app_L, take_take_drop. done.
    + intros Hns Hf. rewrite <- take_take_drop, Hnever by congruence.
      apply take_drop.
    + intros Hstore. rewrite <- Hdisk1, <- Hdisk2. by apply Hcp.
Qed.

(** X27. The resume completes the run when the flag is not set. With each
    image having one result whatever batch it is scored in, a tree of files
    that does not change (the scan has no repetition), a model that loads,
    a checkpoint store that works and a positive batch size: the new run
    that nobody stops ends with the records of all the scanned images, in
    scan order; a new run or a resumed run stopped at any moments leaves,
    when it leaves a checkpoint, a checkpoint of the middle of that run;
    and a resumed run that loads any such checkpoint, on a processor whose
    flag is not set, and is not stopped ends with the same record list as
    the run that nobody stops. *)
Theorem resume_completes_the_run (W : World)
    (scored : string -> ClassificationResult) (root : string) (bs : Z)
    (th : float) :
  model_loads W -> store_works W -> scoring_by W scored -> never_stopped W ->
  0 < bs ->
  NoDup (scan_all_images W root ∅) ->
  let all := scan_all_images W root ∅ in
  let configured (st : State) :=
    root_folder (self st) = Some root ∧ batch_size (self st) = bs
    ∧ conf_threshold (self st) = th in
  (forall st0,
     configured st0 ->
     records (self (process_new W st0).1) = map (record_of W th scored) all)
  ∧ (forall stops st0 payload,
       configured st0 -> disk st0 = NoFile ->
       disk (process_new (with_stop_requests stops W) st0).1 = Stored payload ->
       mid_run_checkpoint W scored root bs th payload)
  ∧ (forall stops st payload payload',
       mid_run_checkpoint W scored root bs th payload ->
       disk st = Stored payload ->
       disk (process_resume (with_stop_requests stops W) st).1 = Stored payload' ->
       mid_run_checkpoint W scored root bs th payload')
  ∧ (forall st payload,
       mid_run_checkpoint W scored root bs th payload ->
       disk st = Stored payload ->
       stop_flag (self st) = false ->
       records (self (process_resume W st).1) = map (record_of W th scored) all).
Proof.
  intros Hmodel Hstore Hsc Hns Hbs Hnd all configured.
  set (k := Z.to_nat bs).
  assert (bs = Z.of_nat k) as Hk by (unfold k; lia).
  assert (0 < k)%nat as Hkpos by (unfold k; lia).
  assert (forall s, makedirs_ok W s = true) as Hdir by (intros s; apply Hstore).
  split_and!.
  - (* the run that nobody stops *)
    intros st0 (Hroot & Hbs0 & Hth0).
    destruct (process_new_run W scored st0 root k Hmodel Hsc Hdir Hroot
                ltac:(congruence) Hkpos)
      as (m & stU & oU & -> & HrecsU & _ & _ & _ & _ & HallU & _).
    simpl. by rewrite HrecsU, (HallU Hns), Hth0.
  - (* a new run that is stopped *)
    intros stops st0 payload (Hroot & Hbs0 & Hth0) Hdisk0 Hsaved.
    destruct (process_new_run (with_stop_requests stops W) scored st0 root k
                Hmodel Hsc Hdir Hroot ltac:(congruence) Hkpos)
      as (m & stI & oI & HrunI & HrecsI & HprocI & HrootI & HbsI & HthI & _ & HcpI).
    rewrite HrunI in Hsaved. simpl in Hsaved.
    destruct (HcpI Hstore) as [Hsame | (t & Hcp)]; [congruence |].
    rewrite Hsaved in Hcp. injection Hcp as ->.
    exists (self stI), t, m. split; [done |].
    rewrite Hth0 in HrecsI, HthI. rewrite <- Hk in HbsI.
    by split_and!.
  - (* a resumed run that is stopped *)
    intros stops st payload payload' (p & t & m & -> & Hmid) Hdisk Hsaved.
    rewrite Hk in Hmid.
    destruct (process_resume_run (with_stop_requests stops W) scored st p t
                root k m th Hsc Hdir (or_intror Hmodel) Hnd Hdisk Hmid Hkpos)
      as (m' & st' & o & Hrun & Hmid' & _ & Hcp).
    rewrite Hrun in Hsaved. simpl in Hsaved.
    destruct (Hcp Hstore) as [Hsame | (t' & Hcp')].
    + rewrite Hsame, Hdisk in Hsaved. injection Hsaved as <-.
      exists p, t, m. by rewrite Hk.
    + rewrite Hsaved in Hcp'. injection Hcp' as ->.
      exists (self st'), t', m'. by rewrite Hk.
  - (* the resumed run that nobody stops *)
    intros st payload (p & t & m & -> & Hmid) Hdisk Hflag.
    rewrite Hk in Hmid.
    destruct (process_resume_run W scored st p t root k m th
                Hsc Hdir (or_intror Hmodel) Hnd Hdisk Hmid Hkpos)
      as (m' & st' & o & -> & (Hrecs & _) & Hall & _).
    simpl. by rewrite Hrecs, (Hall Hns Hflag).
Qed.

(** ** The example installation *)

Lemma example_scoring (stops : nat -> bool) :
  scoring_by (Example.world stops) Example.scored.
Proof.
  split; [| done]. simpl.
  induction paths as [|p paths IH]; intros results Hcall; simpl in Hcall.
  - by injection Hcall as <-.
  - unfold Example.scored at 1. simpl.
    destruct (Example.score_one p) as [r |]; [| done].
    destruct (Example.score_many paths) as [rs |]; [| done].
    injection Hcall as <-. simpl. f_equal. by apply IH.
Qed.

Lemma example_store_works (stops : nat -> bool) : store_works (Example.world stops).
Proof. by intros k. Qed.

(** In the example a new run is stopped inside its first batch; the run
    resumed at the next launch is stopped inside its second batch; the run
    resumed after that ends with the records of the run that nobody stops. *)
Lemma resume_completes_the_run_example :
  let W := Example.world Example.no_stop in
  let st0 := Example.start Example.configured NoFile in
  let first := (process_new (Example.world (Example.stop_at 2)) st0).1 in
  let second :=
    (process_resume (Example.world (Example.stop_at 4))
       (Example.start Processor_init (disk first))).1 in
  let last :=
    (process_resume W (Example.start Processor_init (disk second))).1 in
  length (records (self first)) = 1%nat
  ∧ length (records (self second)) = 3%nat
  ∧ records (self last) = records (self (process_new W st0).1)
  ∧ length (records (self last)) = 5%nat.
Proof.
  intros W st0 first second last.
  split; [vm_compute; reflexivity |].
  split; [vm_compute; reflexivity |].
  destruct (resume_completes_the_run W Example.scored "/data" 2 0.5%float)
    as (Hnew & Hstopped & Hagain & Hresume).
  - split; reflexivity.
  - apply example_store_works.
  - apply example_scoring.
  - intros n. reflexivity.
  - reflexivity.
  - apply (bool_decide_unpack _). vm_compute. exact I.
  - assert (exists payload, disk first = Stored payload) as [payload1 Hdisk1]
      by (eexists; vm_compute; reflexivity).
    assert (exists payload, disk second = Stored payload) as [payload2 Hdisk2]
      by (eexists; vm_compute; reflexivity).
    pose proof (Hstopped (Example.stop_at 2) st0 payload1
                  ltac:(by split_and!) eq_refl Hdisk1) as Hmid1.
    pose proof (Hagain (Example.stop_at 4)
                  (Example.start Processor_init (disk first)) payload1 payload2
                  Hmid1 Hdisk1 Hdisk2) as Hmid2.
    pose proof (Hresume (Example.start Processor_init (disk second)) payload2
                  Hmid2 Hdisk2 eq_refl) as Hlast.
    fold last in Hlast. rewrite Hlast.
    rewrite (Hnew st0) by (by split_and!).
    split; [reflexivity |]. vm_compute. reflexivity.
Defined.

(** The record of [img1.jpg] in the example. *)
Lemma deer_record_example :
  let W := Example.world Example.no_stop in
  let r := _record_from_path_and_result W 0.5%float Example.deer1
             (mkResult (Some "deer, white-tailed") (Some 0x1.ccccccccccccdp-1%float)) in
  getexif W Example.deer1
    = Ok (Some [(271, "TrailCam"); (306, "2023:05:01 14:22:10")])
  ∧ Animal_Folder r = Some "Deer" ∧ Camera_ID r = Some "Cam1"
  ∧ Block r = Some "BlockA"
  ∧ Animal_Name r = build_hyperlink_for_animal "deer"
  ∧ Date r = Some "2023-05-01" ∧ Time r = Some "14:22:10".
Proof.
  intros W r. split; [reflexivity |].
  destruct (deer_record W "/data" [(271, "TrailCam"); (306, "2023:05:01 14:22:10")])
    as (Hfolder & Hcam & Hblock & _ & Hname & Hdate & Htime & _).
  - reflexivity.
  - apply (bool_decide_unpack _). vm_compute. exact I.
  - apply (bool_decide_unpack _). vm_compute. exact I.
  - by split_and!.
Defined.

(** In the example the batch [img4.png; img5.jpeg] cannot be scored as a
    whole; scored one by one, [img4.png] fails again and gets the fallback. *)
Lemma classify_batch_example :
  let W := Example.world Example.no_stop in
  let st := Example.start (with_classifier true Example.configured) NoFile in
  classify_many W [Example.fox4; Example.fox5] = Raise OtherError
  ∧ exists st',
      _classify_batch W [Example.fox4; Example.fox5] st
      = (st', Ok [fallback;
                  mkResult (Some "red fox, Vulpes vulpes")
                           (Some 0x1.e666666666666p-1%float)]).
Proof.
  intros W st. split; [reflexivity |].
  destruct (classify_batch_total W [Example.fox4; Example.fox5] st)
    as (st' & results & Hrun & _ & _ & _ & Hres).
  specialize (Hres eq_refl). simpl in Hres. destruct Hres as [-> _].
  exists st'. exact Hrun.
Defined.

(** In the example, [stop()] is called while the first image of the first
    batch is handled: the iteration keeps its record and saves it. *)
Lemma checkpoint_after_cut_batch_example :
  let W := Example.world (Example.stop_at 2) in
  let paths := scan_all_images W "/data" ∅ in
  let st := mkState (with_classifier true Example.configured) NoFile [] 1 0 in
  exists st',
    batch_iteration W 5 paths 0 st = (st', Ok tt)
    ∧ map Path (records (self st')) = [Example.deer1]
    ∧ stop_flag (self st') = true
    ∧ disk st' = Stored (checkpoint_of (self st') "2024-01-01T00:00:00").
Proof.
  intros W paths st.
  destruct (checkpoint_after_every_batch W 5 paths 0 st)
    as (_ & d & results & st' & Hrun & _ & _ & _ & _ & _ & _ & _ & Hdisk & _).
  - apply (scoring_by_contract _ Example.scored), example_scoring.
  - reflexivity.
  - reflexivity.
  - exists st'. split; [exact Hrun |].
    vm_compute in Hrun. injection Hrun as <-.
    split; [reflexivity |]. split; [reflexivity |]. exact Hdisk.
Defined.

(** ** The de-duplication invariant *)

Lemma consistent_size (p : Processor) :
  consistent p -> size (processed_paths p) = length (records p).
Proof.
  intros [Hnd ->]. rewrite size_list_to_set by done. apply length_map.
Qed.

Lemma consistent_checkpoint (p : Processor) (t : string) :
  consistent p -> consistent_payload (checkpoint_of p t).
Proof.
  intros [Hnd Hp]. exists (records p), (elements (processed_paths p)).
  split_and!; try done. by rewrite list_to_set_elements_L.
Qed.

Lemma restore_consistent (payload : Payload) (q : Processor) :
  consistent_payload payload -> consistent (restore payload q).
Proof.
  intros (recs & paths & Hr & Hp & Hnd & Hset). unfold consistent, restore.
  simpl. by rewrite Hr, Hp.
Qed.

(** Appending records of new, distinct paths keeps the two in step. *)
Lemma grown_consistent (recs : list Rec) (p p' : Processor) :
  consistent p -> grown_by recs p p' ->
  NoDup (map Path recs) ->
  (forall x, x ∈ map Path recs -> x ∉ processed_paths p) ->
  consistent p'.
Proof.
  intros [Hnd Hp] (Hr & Hp' & _) Hnew Hfresh. unfold consistent.
  rewrite Hr, Hp', map_app, list_to_set_app_L, <- Hp. split; [| done].
  apply NoDup_app. split_and!; try done.
  intros x Hx Hin. apply (Hfresh x Hin). rewrite Hp.
  by apply elem_of_list_to_set.
Qed.

(** C4, one operation: the body of the inner loop appends a record and adds
    its path in one step, and keeps the two in step when the path is new. *)
Lemma record_step_consistent (p : Processor) (rec : Rec) :
  consistent p -> Path rec ∉ processed_paths p ->
  consistent (with_processed_paths (processed_paths p ∪ {[Path rec]})
                (with_records (records p ++ [rec]) p)).
Proof.
  intros Hc Hfresh. apply (grown_consistent [rec] p); try done.
  - unfold grown_by. simpl. by rewrite union_empty_r_L.
  - simpl. apply NoDup_singleton.
  - simpl. intros x Hx. apply list_elem_of_singleton in Hx. by subst.
Qed.

Lemma disk_ok_after_save (d d' : Disk) (p : Processor) (t : string) :
  disk_ok d -> consistent p ->
  d' = d ∨ d' = Malformed BadJSON ∨ d' = Stored (checkpoint_of p t) ->
  disk_ok d'.
Proof.
  intros Hd Hp [-> | [-> | ->]]; [done | done |].
  by apply consistent_checkpoint.
Qed.

(** The batch loop keeps the invariant, whatever the outside answers and
    however the loop ends. *)
Lemma batch_loop_invariant (W : World) (total : nat) (paths : list string) (k : nat) :
  (0 < k)%nat ->
  forall (n a : nat) (st : State),
  batch_size (self st) = Z.of_nat k ->
  NoDup (drop (a * k) paths) ->
  (forall x, x ∈ drop (a * k) paths -> x ∉ processed_paths (self st)) ->
  consistent (self st) -> disk_ok (disk st) ->
  consistent (self (batch_loop W total paths
                      (map (fun q => (q * k)%nat) (seq a n)) st).1)
  ∧ disk_ok (disk (batch_loop W total paths
                     (map (fun q => (q * k)%nat) (seq a n)) st).1).
Proof.
  intros Hk. induction n as [|n IH]; intros a st Hbs Hnd Hfresh Hcons Hdisk.
  - done.
  - cbn [seq map batch_loop]. unfold read_stop_flag. monad_unfold.
    destruct (stop_flag (self st) || stop_requested W (polls st)) eqn:Hflag;
      [done |].
    set (l := drop (a * k) paths) in *.
    match goal with |- context [batch_iteration W total paths (a * k) ?s] =>
      set (st1 := s);
      destruct (batch_iteration_general W total paths (a * k) st1)
        as (d & results & st2 & o2 & Hrun & Hd1 & Hd2 & Hgrow & _ & _
            & _ & _ & _ & _ & _ & Hdisk2 & _)
    end.
    rewrite Hrun. simpl in Hgrow, Hd1, Hdisk2.
    rewrite Hbs, slice_take_drop in *. fold l in Hd1, Hgrow.
    set (batch := take k l) in *.
    assert (map Path (built W (conf_threshold (self st)) (take d batch) results)
            = take d batch) as Hpaths.
    { apply built_paths. rewrite length_take. lia. }
    assert (forall x, x ∈ take d batch -> x ∈ take k l) as Hsub.
    { intros x Hx. by apply (subseteq_take d batch). }
    assert (NoDup (take k l ++ drop k l)) as Hsplit by (by rewrite take_drop).
    apply NoDup_app in Hsplit as (Hnd1 & Hdisj & Hnd2).
    assert (consistent (self st2)) as Hcons2.
    { apply (grown_consistent _ (with_stop_flag false (self st)) _ Hcons Hgrow).
      - rewrite Hpaths.
        apply (sublist_NoDup _ batch); [exact Hnd1 | apply sublist_take].
      - rewrite Hpaths. intros x Hx. simpl. apply Hfresh.
        by apply (subseteq_take k l), Hsub. }
    assert (disk_ok (disk st2)) as Hdisk2'.
    { by apply (disk_ok_after_save (disk st) _ (self st2) (clock W (saves st))). }
    destruct o2 as [[] | e]; [| done].
    destruct Hgrow as (_ & Hproc2 & _ & _ & Hbs2 & _). simpl in Hproc2, Hbs2.
    assert (drop (S a * k) paths = drop k l) as Hnext.
    { unfold l. rewrite drop_drop. f_equal. lia. }
    apply IH; rewrite ?Hnext; try done; [congruence |].
    intros x Hx. rewrite Hproc2, Hpaths.
    intros [Hold | Hnew%elem_of_list_to_set]%elem_of_union.
    + apply (Hfresh x); [| done]. by apply (subseteq_drop k l).
    + by apply (Hdisj x (Hsub x Hnew)).
Qed.

(** ** The stop flag *)

(** The batch loop and the flag: set at the start, the loop does nothing;
    never set, it stays unset. *)
Lemma batch_loop_flags (W : World) (total : nat) (paths : list string)
    (starts : list nat) :
  forall st : State,
  exists st' o,
    batch_loop W total paths starts st = (st', o)
    ∧ (stop_flag (self st) = true ->
       o = Ok tt ∧ stop_flag (self st') = true
       ∧ grown_by [] (self st) (self st')
       ∧ events st' = events st ∧ disk st' = disk st ∧ saves st' = saves st)
    ∧ (never_stopped W -> stop_flag (self st) = false ->
       stop_flag (self st') = false).
Proof.
  induction starts as [|i starts IH]; intros st.
  - exists st, (Ok tt). split_and!; try done.
    intros Hset. split_and!; try done. apply grown_by_refl.
  - cbn [batch_loop]. unfold read_stop_flag. monad_unfold.
    destruct (stop_flag (self st) || stop_requested W (polls st)) eqn:Hflag.
    { eexists _, (Ok tt). split; [reflexivity |]. simpl. split.
      - intros Hset. split_and!; try done. no_records.
      - intros Hns Hf. rewrite Hf, (Hns (polls st)) in Hflag. discriminate. }
    apply orb_false_elim in Hflag as [Hf Hreq].
    match goal with |- context [batch_iteration W total paths i ?s] =>
      destruct (batch_iteration_general W total paths i s)
        as (d & results & st2 & o2 & Hrun & _ & _ & _ & _ & _
            & _ & _ & _ & _ & Hnever & _)
    end.
    rewrite Hrun. simpl in Hnever.
    destruct o2 as [[] | e].
    + destruct (IH st2) as (st' & o & Hloop & _ & Hnever').
      exists st', o. split; [done |]. split; [congruence |].
      intros Hns _. apply Hnever'; [done |]. by apply Hnever.
    + exists st2, (Raise e). split; [done |]. split; [congruence |].
      intros Hns _. by apply Hnever.
Qed.

Lemma range0_cases (n : nat) (bs : Z) :
  (bs = 0 ∧ Py.range0 n bs = None)
  ∨ (bs < 0 ∧ Py.range0 n bs = Some [])
  ∨ (exists k, (0 < k)%nat ∧ bs = Z.of_nat k
       ∧ Py.range0 n bs
         = Some (map (fun q => (q * k)%nat) (seq 0 ((n + k - 1) / k)))).
Proof.
  destruct (Z.lt_trichotomy bs 0) as [Hneg | [-> | Hpos]].
  - right. left. split; [done |]. unfold Py.range0.
    destruct (Z.eqb_spec bs 0); [lia |].
    by destruct (Z.ltb_spec bs 0); [| lia].
  - by left.
  - right. right. exists (Z.to_nat bs).
    split; [lia |]. split; [lia |].
    rewrite <- (range0_batches n (Z.to_nat bs)) by lia. f_equal. lia.
Qed.

(** The batch loop and the finalisation after it, from any state. *)
Lemma loop_and_finalize_general (W : World) (total : nat) (paths : list string)
    (st : State) :
  exists st' o,
    (let* starts := batch_starts paths in
     do* batch_loop W total paths starts in
     _finalize_processing W) st = (st', o)
    ∧ (stop_flag (self st) = true ->
       stop_flag (self st') = true
       ∧ grown_by [] (self st) (self st')
       ∧ filter is_classifier_call (events st')
         = filter is_classifier_call (events st)
       ∧ (batch_size (self st) <> 0 ->
          excel_ok W (map export_row (records (self st))) = true ->
          makedirs_ok W (saves st) = true ->
          o = Ok tt
          ∧ Exported (map export_row (records (self st))) ∈ events st'
          ∧ saves st' = S (saves st)
          ∧ (write_outcome W (saves st) = WriteOk ->
             disk st' = Stored (checkpoint_of (self st') (clock W (saves st))))))
    ∧ (never_stopped W -> stop_flag (self st) = false ->
       stop_flag (self st') = false)
    ∧ (NoDup paths ->
       (forall x, x ∈ paths -> x ∉ processed_paths (self st)) ->
       consistent (self st) -> disk_ok (disk st) ->
       consistent (self st') ∧ disk_ok (disk st')).
Proof.
  unfold batch_starts. unfold bind at 1 2. unfold get_self.
  destruct (range0_cases (length paths) (batch_size (self st)))
    as [[Hbs ->] | Hstarts].
  { (* range() raises on a zero step *)
    exists st, (Raise ValueError). split; [done |]. split_and!; try done.
    intros Hset. split_and!; try done. apply grown_by_refl. }
  assert (exists starts,
    Py.range0 (length paths) (batch_size (self st)) = Some starts
    ∧ (NoDup paths ->
       (forall x, x ∈ paths -> x ∉ processed_paths (self st)) ->
       consistent (self st) -> disk_ok (disk st) ->
       consistent (self (batch_loop W total paths starts st).1)
       ∧ disk_ok (disk (batch_loop W total paths starts st).1))
    ∧ batch_size (self st) <> 0) as (starts & -> & Hinv & Hbs).
  { destruct Hstarts as [[Hneg ->] | (k & Hk & Hbs & ->)].
    - exists []. split; [done |]. split; [done | lia].
    - eexists. split; [done |]. split; [| lia].
      intros Hnd Hfresh Hcons Hdisk.
      by apply (batch_loop_invariant W total paths k Hk). }
  cbn [ret]. unfold bind at 1.
  destruct (batch_loop_flags W total paths starts st)
    as (st1 & o1 & Hloop & Hset1 & Hnever1).
  rewrite Hloop in *. simpl in Hinv.
  destruct o1 as [[] | e].
  2:{ exists st1, (Raise e). split; [done |]. split_and!; try done.
      intros Hset. by destruct (Hset1 Hset). }
  destruct (finalize_run W st1)
    as (st2 & o2 & Hfin & Hself2 & _ & Hev2 & _ & Hdisk2 & Hexp2).
  exists st2, o2. split; [done |]. rewrite Hself2. split_and!.
  - intros Hset.
    destruct (Hset1 Hset) as (_ & Hflag1 & Hgrow1 & Hev1 & Hdisk1 & Hsaves1).
    split_and!; try done; [congruence |].
    intros _ Hexcel Hdir.
    destruct Hgrow1 as (Hr1 & _). rewrite app_nil_r in Hr1.
    rewrite Hr1, Hsaves1 in Hexp2. by apply Hexp2.
  - done.
  - intros Hnd Hfresh Hcons Hdisk.
    destruct (Hinv Hnd Hfresh Hcons Hdisk) as [Hcons1 Hdisk1].
    split; [done |].
    by apply (disk_ok_after_save (disk st1) _ (self st1) (clock W (saves st1))).
Qed.

Lemma consistent_reset (p : Processor) :
  consistent (with_classifier true
                (with_processed_paths ∅ (with_records [] (with_stop_flag false p)))).
Proof. split; simpl; [apply NoDup_nil_2 | done]. Qed.

(** The new run from any state, whatever the outside answers. *)
Lemma process_new_general (W : World) (st : State) :
  exists st' o,
    process_new W st = (st', o)
    ∧ (never_stopped W -> stop_flag (self st') = false)
    ∧ (distinct_files W -> disk_ok (disk st) ->
       consistent (self st') ∧ disk_ok (disk st')).
Proof.
  unfold process_new.
  destruct (load_model_run W (reset_state st).1)
    as (st1 & o1 & Hload & Hdisk1 & _ & _ & _ & Hself1 & Hself1' & _).
  destruct o1 as [[] | e].
  2:{ (* the model does not load *)
    erewrite bind_ok; [| eapply guarded_raise; erewrite bind_ok;
                         [exact Hload | reflexivity]].
    cbn [negb]. eexists _, _. split; [reflexivity |]. simpl.
    rewrite Hself1', Hdisk1 by done. simpl. split_and!; try done.
    intros _ Hd. split; [| done]. split; simpl; [apply NoDup_nil_2 | done]. }
  specialize (Hself1 eq_refl). simpl in Hself1.
  erewrite bind_ok; [| apply guarded_ok; erewrite bind_ok;
                       [exact Hload | reflexivity]].
  cbn [negb].
  destruct (root_folder (self st1)) as [root |] eqn:Hroot.
  2:{ (* os.walk(None) *)
    erewrite bind_raise
      by (unfold _scan_all_images; monad_unfold; by rewrite Hroot).
    eexists _, _. split; [reflexivity |]. rewrite Hself1, Hdisk1.
    split_and!; try done. intros _ Hd. split; [apply consistent_reset | done]. }
  erewrite bind_ok by (by apply (scan_all_images_run W st1 root)).
  replace (processed_paths (self st1)) with (∅ : gset string)
    by (by rewrite Hself1).
  destruct (scan_all_images W root ∅) as [|p0 rest] eqn:Hall.
  - eexists _, _. split; [reflexivity |]. simpl. rewrite Hself1, Hdisk1.
    split_and!; try done. intros _ Hd. split; [apply consistent_reset | done].
  - do 2 (erewrite (bind_ok (emit _)) by reflexivity).
    match goal with |- context [bind (batch_starts ?ps) ?f ?s] =>
      destruct (loop_and_finalize_general W (length ps) ps s)
        as (st' & o & Hrun & _ & Hnever & Hinv)
    end.
    exists st', o. split; [exact Hrun |]. simpl in Hnever, Hinv.
    rewrite Hself1, Hdisk1 in *. simpl in *. split.
    + intros Hns. by apply Hnever.
    + intros Hfiles Hd. apply Hinv; try done.
      * rewrite <- Hall. apply Hfiles.
      * apply consistent_reset.
Qed.

(** The resumed run from any state, whatever the outside answers. *)
Lemma process_resume_general (W : World) (st : State) :
  exists st' o,
    process_resume W st = (st', o)
    ∧ (stop_flag (self st) = true -> stop_flag (self st') = true)
    ∧ (distinct_files W -> consistent (self st) -> disk_ok (disk st) ->
       consistent (self st') ∧ disk_ok (disk st')).
Proof.
  unfold process_resume.
  destruct (load_progress_run st)
    as (st1 & loaded & Hload & Hdisk1 & _ & _ & Hflag1 & _ & Hcase).
  erewrite bind_ok by exact Hload.
  assert (disk_ok (disk st) -> consistent (self st) -> consistent (self st1))
    as Hcons1.
  { intros Hd Hc. destruct (disk st) as [| payload | c].
    - by destruct Hcase as (_ & ->).
    - destruct Hcase as (_ & -> & _). by apply restore_consistent.
    - destruct Hcase as (_ & -> & _). simpl in Hd. by subst c. }
  destruct loaded; cbn [negb].
  2:{ (* no checkpoint to resume from *)
    eexists _, _. split; [reflexivity |]. simpl. rewrite Hdisk1.
    split; [congruence | auto]. }
  set (ensure := (let* me := get_self in
                  if classifier me then ret tt else load_model W)).
  assert (exists st2 o2,
    ensure st1 = (st2, o2)
    ∧ stop_flag (self st2) = stop_flag (self st1)
    ∧ disk st2 = disk st1
    ∧ (consistent (self st1) -> consistent (self st2)))
    as (st2 & o2 & Hensure & Hflag2 & Hdisk2 & Hcons2).
  { unfold ensure. monad_unfold. destruct (classifier (self st1)).
    - by exists st1, (Ok tt).
    - destruct (load_model_run W st1)
        as (st2 & o2 & -> & Hd & _ & _ & _ & Hok & Hnot & _).
      exists st2, o2. destruct o2 as [[] | e].
      + rewrite (Hok eq_refl). by split_and!.
      + rewrite (Hnot ltac:(done)). by split_and!. }
  destruct o2 as [[] | e].
  2:{ erewrite bind_ok by (eapply guarded_raise; exact Hensure).
      cbn [negb]. eexists _, _. split; [reflexivity |]. simpl.
      rewrite Hdisk2, Hdisk1. split; [congruence | auto]. }
  erewrite bind_ok by (apply guarded_ok; exact Hensure). cbn [negb].
  destruct (root_folder (self st2)) as [root |] eqn:Hroot.
  2:{ erewrite bind_raise
        by (unfold _scan_all_images; monad_unfold; by rewrite Hroot).
      eexists _, _. split; [reflexivity |]. simpl.
      rewrite Hdisk2, Hdisk1. split; [congruence | auto]. }
  erewrite bind_ok by (by apply (scan_all_images_run W st2 root)).
  erewrite bind_ok by reflexivity.
  set (remaining := scan_all_images W root (processed_paths (self st2))).
  destruct (length remaining + size (processed_paths (self st2)) =? 0)%nat.
  { eexists _, _. split; [reflexivity |]. simpl.
    rewrite Hdisk2, Hdisk1. split; [congruence | auto]. }
  do 2 (erewrite (bind_ok (emit _)) by reflexivity).
  match goal with |- context [bind (batch_starts ?ps) ?f ?s] =>
    destruct (loop_and_finalize_general W
                (length ps + size (processed_paths (self st2))) ps s)
      as (st' & o & Hrun & Hset & _ & Hinv)
  end.
  exists st', o. split; [exact Hrun |]. simpl in Hset, Hinv. split.
  - intros Hf. apply Hset. congruence.
  - intros Hfiles Hc Hd. apply Hinv; auto; [| | congruence].
    + unfold remaining. rewrite scan_excluding. apply NoDup_filter, Hfiles.
    + unfold remaining. rewrite scan_excluding.
      by intros x [Hx _]%list_elem_of_filter.
Qed.

(** What being in step means, path by path. *)
Lemma consistent_one_to_one (p : Processor) :
  consistent p ->
  size (processed_paths p) = length (records p)
  ∧ (forall x, x ∈ processed_paths p <-> exists r, r ∈ records p ∧ Path r = x)
  ∧ (forall i j r1 r2,
       records p !! i = Some r1 -> records p !! j = Some r2 ->
       Path r1 = Path r2 -> i = j).
Proof.
  intros Hc. split; [by apply consistent_size |].
  destruct Hc as [Hnd Hp]. split.
  - intros x. rewrite Hp, elem_of_list_to_set, list_elem_of_fmap. naive_solver.
  - intros i j r1 r2 Hi Hj Heq.
    apply (NoDup_lookup _ i j (Path r1) Hnd).
    + by rewrite list_lookup_fmap, Hi.
    + by rewrite list_lookup_fmap, Hj, Heq.
Qed.

(** C4. The record list and the processed-paths set stay in step: the
    paths of the records are distinct and are exactly the members of the
    set, so the two have the same size and every processed path has exactly
    one record. [reset_state] establishes this, the body of the inner loop
    keeps it (it appends the record and adds its path together), and both
    entry points end in such a state, however they end and whenever they
    are stopped (so after any number of records), when no two files share a
    path and the checkpoint file, if there is one, was left by this program;
    the checkpoint file they leave is again such a one. *)
Theorem records_and_processed_paths_in_step (W : World) (st : State) :
  distinct_files W -> disk_ok (disk st) ->
  consistent (self (reset_state st).1)
  ∧ (forall p rec,
       consistent p -> Path rec ∉ processed_paths p ->
       consistent (with_processed_paths (processed_paths p ∪ {[Path rec]})
                     (with_records (records p ++ [rec]) p)))
  ∧ (forall p,
       consistent p ->
       size (processed_paths p) = length (records p)
       ∧ (forall x, x ∈ processed_paths p <-> exists r, r ∈ records p ∧ Path r = x)
       ∧ (forall i j r1 r2,
            records p !! i = Some r1 -> records p !! j = Some r2 ->
            Path r1 = Path r2 -> i = j))
  ∧ (consistent (self (process_new W st).1)
     ∧ disk_ok (disk (process_new W st).1))
  ∧ (consistent (self st) ->
     consistent (self (process_resume W st).1)
     ∧ disk_ok (disk (process_resume W st).1)).
Proof.
  intros Hfiles Hdisk. split_and!.
  - split; simpl; [apply NoDup_nil_2 | done].
  - intros p rec. apply record_step_consistent.
  - apply consistent_one_to_one.
  - destruct (process_new_general W st) as (st' & o & -> & _ & Hinv). by apply Hinv.
  - destruct (process_new_general W st) as (st' & o & -> & _ & Hinv). by apply Hinv.
  - intros Hcons.
    destruct (process_resume_general W st) as (st' & o & -> & _ & Hinv).
    by apply Hinv.
Qed.

Lemma consistent_init : consistent Processor_init.
Proof. split; [apply NoDup_nil_2 | reflexivity]. Qed.

Lemma example_distinct_files (stops : nat -> bool) :
  distinct_files (Example.world stops).
Proof.
  intros root. unfold scan_all_images, os_walk. simpl.
  destruct (String.eqb_spec root "/data") as [-> | _]; [| apply NoDup_nil_2].
  apply (bool_decide_unpack _). vm_compute. exact I.
Qed.

(** In the example, a run stopped inside its first batch and the run
    resumed from its checkpoint both end in step. *)
Lemma records_and_processed_paths_example :
  let W := Example.world (Example.stop_at 2) in
  let st0 := Example.start Example.configured NoFile in
  let st1 := (process_new W st0).1 in
  consistent (self st1)
  ∧ size (processed_paths (self st1)) = 1%nat
  ∧ consistent (self (process_resume (Example.world Example.no_stop)
                        (Example.start Processor_init (disk st1))).1).
Proof.
  intros W st0 st1. subst st1.
  destruct (records_and_processed_paths_in_step W st0)
    as (_ & _ & Hsize & [Hnew Hdisk] & _).
  - apply example_distinct_files.
  - exact I.
  - split; [exact Hnew |]. split.
    + destruct (Hsize _ Hnew) as [-> _]. vm_compute. reflexivity.
    + clear Hsize Hnew. revert Hdisk.
      generalize (process_new W st0).1. intros st1 Hdisk.
      destruct (records_and_processed_paths_in_step
                  (Example.world Example.no_stop)
                  (Example.start Processor_init (disk st1)))
        as (_ & _ & _ & _ & Hresume).
      * apply example_distinct_files.
      * exact Hdisk.
      * apply Hresume. exact consistent_init.
Defined.

(** The resumed run on a processor whose flag is set, once it reaches the
    batch loop. *)
Lemma process_resume_flag_set (W : World) (st : State) (payload : Payload)
    (root : string) :
  stop_flag (self st) = true ->
  disk st = Stored payload ->
  classifier (self st) = true ∨ model_loads W ->
  let p := restore payload (self st) in
  root_folder p = Some root ->
  scan_all_images W root (processed_paths p) <> [] ∨ processed_paths p <> ∅ ->
  batch_size p <> 0 ->
  excel_ok W (map export_row (records p)) = true ->
  makedirs_ok W (saves st) = true ->
  exists st',
    process_resume W st = (st', Ok tt)
    ∧ records (self st') = records p
    ∧ processed_paths (self st') = processed_paths p
    ∧ stop_flag (self st') = true
    ∧ filter is_classifier_call (events st') = filter is_classifier_call (events st)
    ∧ Exported (map export_row (records p)) ∈ events st'
    ∧ saves st' = S (saves st)
    ∧ (write_outcome W (saves st) = WriteOk ->
       disk st' = Stored (checkpoint_of (self st') (clock W (saves st)))).
Proof.
  intros Hflag Hdisk Hready p Hroot Hwork Hbs Hexcel Hdir.
  unfold process_resume.
  destruct (load_progress_run st)
    as (st1 & loaded & Hload & Hdisk1 & _ & Hsaves1 & Hflag1 & Hc1 & Hcase).
  rewrite Hdisk in Hcase. destruct Hcase as (-> & Hself1 & Hev1).
  fold p in Hself1.
  erewrite bind_ok by exact Hload. cbn [negb].
  destruct (ensure_model_run W st1)
    as (st2 & Hensure & Hself2 & Hdisk2 & Hsaves2 & Hev2); [by rewrite Hc1 |].
  erewrite bind_ok by (apply guarded_ok; exact Hensure). cbn [negb].
  rewrite Hself1 in Hself2.
  assert (records (self st2) = records p) as Hr2 by (by rewrite Hself2).
  assert (processed_paths (self st2) = processed_paths p) as Hp2
    by (by rewrite Hself2).
  assert (batch_size (self st2) = batch_size p) as Hbs2 by (by rewrite Hself2).
  assert (stop_flag (self st2) = true) as Hflag2.
  { rewrite Hself2. simpl. unfold p, restore. simpl. done. }
  erewrite bind_ok
    by (apply (scan_all_images_run W st2 root); by rewrite Hself2).
  erewrite bind_ok by reflexivity. rewrite Hp2.
  destruct (length (scan_all_images W root (processed_paths p))
            + size (processed_paths p) =? 0)%nat eqn:Htotal.
  { (* there is work: this branch is not taken *)
    apply Nat.eqb_eq in Htotal. destruct Hwork as [Hscan | Hproc].
    - destruct (scan_all_images W root (processed_paths p)); [done |].
      simpl in Htotal. lia.
    - exfalso. apply Hproc. apply leibniz_equiv, size_empty_iff. lia. }
  do 2 (erewrite (bind_ok (emit _)) by reflexivity).
  match goal with |- context [bind (batch_starts ?ps) ?f ?s] =>
    destruct (loop_and_finalize_general W
                (length ps + size (processed_paths p)) ps s)
      as (st' & o & Hrun & Hset & _ & _)
  end.
  rewrite Hrun. simpl in Hset.
  destruct (Hset Hflag2) as (Hflag' & Hgrow & Hev' & Hfin).
  rewrite Hbs2, Hr2, Hsaves2, Hsaves1 in Hfin.
  destruct (Hfin Hbs Hexcel Hdir) as (-> & Hexp & Hsaves' & Hwrite).
  destruct Hgrow as (Hr' & Hp' & _). simpl in Hr', Hp'.
  rewrite app_nil_r in Hr'. rewrite union_empty_r_L in Hp'.
  exists st'. split_and!; try done; try congruence.
  rewrite Hev'. simpl. rewrite !filter_app, !app_nil_r. congruence.
Qed.

(** C3, where the code departs from it. [process_resume] never clears the
    stop flag; only [reset_state], with which [process_new] begins, does
    (line 124). In the example, Start New is stopped inside its first batch
    and leaves a checkpoint of the middle of the run, with one record; then
    Resume Previous in the same session, on the processor whose flag Stop
    has set, loads it and, with no call of [stop] after that, returns at
    its first look at the flag with that one record, where the run that
    nobody interrupts ends with five. Resumed after a restart, on a
    processor whose flag is not set, the same checkpoint gives the five. *)
Theorem resume_after_stop_leaves_the_rest :
  let W := Example.world Example.no_stop in
  let st0 := Example.start Example.configured NoFile in
  let stopped := (process_new (Example.world (Example.stop_at 2)) st0).1 in
  let resumed_at_once := process_resume W stopped in
  let resumed_after_restart :=
    process_resume W (Example.start Processor_init (disk stopped)) in
  let uninterrupted := process_new W st0 in
  (exists payload,
     disk stopped = Stored payload
     ∧ mid_run_checkpoint W Example.scored "/data" 2 0.5%float payload)
  ∧ stop_flag (self stopped) = true
  ∧ never_stopped W
  ∧ resumed_at_once.2 = Ok tt
  ∧ map Path (records (self resumed_at_once.1)) = [Example.deer1]
  ∧ map Path (records (self uninterrupted.1))
    = [Example.deer1; Example.deer2; Example.fox4; Example.fox5; Example.fox6]
  ∧ records (self resumed_at_once.1) <> records (self uninterrupted.1)
  ∧ records (self resumed_after_restart.1) = records (self uninterrupted.1).
Proof.
  intros W st0 stopped resumed_at_once resumed_after_restart uninterrupted.
  split_and!.
  - exists (checkpoint_of (self stopped) "2024-01-01T00:00:00").
    split; [vm_compute; reflexivity |].
    exists (self stopped), "2024-01-01T00:00:00", 1%nat.
    split; [reflexivity |].
    split_and!; vm_compute; reflexivity.
  - vm_compute. reflexivity.
  - intros n. reflexivity.
  - vm_compute. reflexivity.
  - vm_compute. reflexivity.
  - vm_compute. reflexivity.
  - intros Heq. apply (f_equal length) in Heq. vm_compute in Heq. discriminate.
  - vm_compute. reflexivity.
Qed.

(** C10. The resumed run never clears the stop flag: on a processor whose
    flag is set (as [stop] sets it) it ends with the flag set, however it
    ends; only [reset_state], with which the new run begins, clears it, and
    a new run that nobody stops ends with the flag clear. When the resumed run of such
    a processor reaches the batch loop (the checkpoint loads, the model is
    there, there is something to process or already processed, the batch
    size is not zero) it calls the classifier for no batch and no image and
    appends no record; when the exporter and the output directory work it
    still exports the rows of the loaded records and calls the final
    checkpoint save. *)
Theorem resume_never_clears_stop_flag (W : World) (st : State) :
  stop_flag (self st) = true ->
  stop_flag (self (process_resume W st).1) = true
  ∧ (forall st0, stop_flag (self (stop st0).1) = true)
  ∧ stop_flag (self (reset_state st).1) = false
  ∧ (never_stopped W -> stop_flag (self (process_new W st).1) = false)
  ∧ forall payload root,
      disk st = Stored payload ->
      classifier (self st) = true ∨ model_loads W ->
      let p := restore payload (self st) in
      root_folder p = Some root ->
      scan_all_images W root (processed_paths p) <> [] ∨ processed_paths p <> ∅ ->
      batch_size p <> 0 ->
      excel_ok W (map export_row (records p)) = true ->
      makedirs_ok W (saves st) = true ->
      exists st',
        process_resume W st = (st', Ok tt)
        ∧ records (self st') = default [] (payload_records payload)
        ∧ processed_paths (self st') = processed_paths p
        ∧ filter is_classifier_call (events st')
          = filter is_classifier_call (events st)
        ∧ Exported (map export_row (default [] (payload_records payload)))
            ∈ events st'
        ∧ saves st' = S (saves st)
        ∧ (write_outcome W (saves st) = WriteOk ->
           disk st' = Stored (checkpoint_of (self st') (clock W (saves st)))).
Proof.
  intros Hflag. split_and!.
  - destruct (process_resume_general W st) as (st' & o & -> & Hkeep & _).
    by apply Hkeep.
  - done.
  - done.
  - intros Hns.
    destruct (process_new_general W st) as (st' & o & -> & Hclear & _).
    by apply Hclear.
  - intros payload root Hdisk Hready p Hroot Hwork Hbs Hexcel Hdir.
    destruct (process_resume_flag_set W st payload root
                Hflag Hdisk Hready Hroot Hwork Hbs Hexcel Hdir)
      as (st' & Hrun & Hr & Hp & _ & Hev & Hexp & Hsaves & Hwrite).
    exists st'. by split_and!.
Qed.

(** In the example, Stop and then Resume Previous in one session: the
    resumed run scores nothing and exports the one record of the stopped
    run. *)
Lemma resume_after_stop_example :
  let W := Example.world Example.no_stop in
  let st0 := Example.start Example.configured NoFile in
  let st := (process_new (Example.world (Example.stop_at 2)) st0).1 in
  stop_flag (self st) = true
  ∧ stop_flag (self (process_resume W st).1) = true
  ∧ length (records (self (process_resume W st).1)) = 1%nat
  ∧ length (scan_all_images W "/data" (processed_paths (self st))) = 4%nat.
Proof.
  intros W st0 st.
  assert (stop_flag (self st) = true) as Hflag by (vm_compute; reflexivity).
  split; [exact Hflag |].
  destruct (resume_never_clears_stop_flag W st Hflag)
    as (Hkeep & _ & _ & _ & Hloop).
  split; [exact Hkeep |].
  split; [| vm_compute; reflexivity].
  edestruct (Hloop) as (st' & Hrun & Hrecs & _).
  - vm_compute. reflexivity.
  - left. vm_compute. reflexivity.
  - vm_compute. reflexivity.
  - left. vm_compute. discriminate.
  - vm_compute. discriminate.
  - reflexivity.
  - reflexivity.
  - rewrite Hrun. simpl. rewrite Hrecs. reflexivity.
Defined.

(** ** The checkpoint store and its directory *)

(** C8, where the code departs from it. The save logs a failed write and
    returns, and the load never raises; but [safe_makedirs] is called before
    the [try] (line 148): where the [output] directory cannot be made,
    [_save_progress] raises the [OSError], and the new run of the example
    dies with it after its first batch, its two records unsaved and the
    user interface never enabled again. *)
Theorem save_progress_raises_without_output_dir :
  (_save_progress Example.world_without_output_dir
     (Example.start Example.configured NoFile)).2 = Raise OSError
  ∧ (process_new Example.world_without_output_dir
       (Example.start Example.configured NoFile)).2 = Raise OSError
  ∧ length (records (self (process_new Example.world_without_output_dir
                             (Example.start Example.configured NoFile)).1))
    = 2%nat
  ∧ disk (process_new Example.world_without_output_dir
            (Example.start Example.configured NoFile)).1 = NoFile
  ∧ events (process_new Example.world_without_output_dir
              (Example.start Example.configured NoFile)).1
    = [SetStatus LoadingModel; SetStatus ModelLoaded;
       ProgressMaximum 5; ProgressValue 0;
       ClassifyBatch [Example.deer1; Example.deer2];
       ProgressValue 1; SetStatus (Processed 1 5);
       ProgressValue 2; SetStatus (Processed 2 5)].
Proof. split_and!; vm_compute; reflexivity. Qed.

(** The rest of C8 holds: with the directory there, the save returns
    whatever happens to the write; the load returns, with [False] when there
    is no file or the file is malformed. *)
Lemma checkpoint_store_otherwise_total (W : World) (st : State) :
  (makedirs_ok W (saves st) = true ->
   exists st', _save_progress W st = (st', Ok tt) ∧ self st' = self st
     ∧ (write_outcome W (saves st) <> WriteOk -> PrintSaveError ∈ events st'))
  ∧ (exists st' loaded, _load_progress st = (st', Ok loaded)
       ∧ (disk st = NoFile -> loaded = false ∧ st' = st)
       ∧ (forall c, disk st = Malformed c ->
            loaded = false ∧ ShowWarning "Resume" ∈ events st')).
Proof.
  split.
  - intros Hdir. unfold _save_progress, next_save, safe_makedirs,
      write_progress_file. monad_unfold. simpl. rewrite Hdir.
    destruct (write_outcome W (saves st)); eexists; (split; [reflexivity |]);
      simpl; (split; [done |]); intros; try done; set_solver.
  - destruct (load_progress_run st)
      as (st' & loaded & Hload & _ & _ & _ & _ & _ & Hcase).
    exists st', loaded. split; [done |]. split.
    + intros Hd. rewrite Hd in Hcase. done.
    + intros c Hd. rewrite Hd in Hcase. destruct Hcase as (-> & _ & ->).
      split; [done | set_solver].
Qed.

(** * Further properties of the code *)

(** ** Path components *)

Lemma split_lacks (sep : ascii) (s : string) :
  lacks sep s = true -> Py.split sep s = [s].
Proof.
  unfold lacks. induction s as [|c s IH]; simpl; [done |].
  intros [Hc Hs]%andb_prop. apply negb_true_iff in Hc.
  by rewrite Hc, (IH Hs).
Qed.

(** Splitting what was joined gives the components back. *)
Lemma split_sep_join (sep : ascii) (parts : list string) :
  parts <> [] -> Forall (fun s => lacks sep s = true) parts ->
  Py.split sep (sep_join sep parts) = parts.
Proof.
  induction parts as [|s rest IH]; intros Hne Hall; [done |].
  apply Forall_cons in Hall as [Hs Hrest].
  destruct rest as [|s' rest'].
  - simpl. by apply split_lacks.
  - change (sep_join sep (s :: s' :: rest'))
      with (s +:+ String sep (sep_join sep (s' :: rest'))).
    rewrite split_app_sep, (split_lacks _ _ Hs), IH by done. done.
Qed.

(** Joining what was split gives the string back, and no component has
    the separator in it. *)
Lemma sep_join_split (sep : ascii) (s : string) :
  sep_join sep (Py.split sep s) = s
  ∧ Forall (fun x => lacks sep x = true) (Py.split sep s).
Proof.
  induction s as [|c s [IHj IHl]]; simpl; [by repeat constructor |].
  pose proof (split_not_nil sep s) as Hne.
  destruct (Ascii.eqb c sep) eqn:Hc.
  - apply Ascii.eqb_eq in Hc as ->. split.
    + destruct (Py.split sep s) as [|h t] eqn:Hsplit; [done |].
      change (sep_join sep (EmptyString :: h :: t))
        with (String sep (sep_join sep (h :: t))). by rewrite IHj.
    + constructor; [done | exact IHl].
  - destruct (Py.split sep s) as [|h t] eqn:Hsplit; [done |].
    apply Forall_cons in IHl as [Hh Ht]. split.
    + destruct t as [|h' t'].
      * simpl in *. by rewrite IHj.
      * change (sep_join sep (String c h :: h' :: t'))
          with (String c (h +:+ String sep (sep_join sep (h' :: t')))).
        by rewrite <- IHj.
    + constructor; [| exact Ht]. unfold lacks. simpl.
      rewrite Hc. exact Hh.
Qed.

(** [l[-k]] under its guard is the element [k-1] from the end. *)
Lemma index_from_end_reverse {A} (l : list A) (k : nat) :
  Py.index_from_end l (S k) = reverse l !! k.
Proof.
  unfold Py.index_from_end.
  destruct (Nat.leb_spec (S k) (length l)) as [Hle | Hgt].
  - rewrite reverse_lookup by lia. done.
  - symmetry. apply lookup_ge_None. rewrite length_reverse. lia.
Qed.

(** X1. Every path is its components joined by the separator, some
    directories and then a file name, none with a separator in it. The
    animal folder is the last directory, the camera id the one before it
    and the block the one before that, each absent where the path has not
    that many directories: a bare file name has none of the three. *)
Theorem parse_path_parts_of_components (dirs : list string) (f : string) :
  Forall (fun s => lacks os_sep s = true) dirs -> lacks os_sep f = true ->
  parse_path_parts (sep_join os_sep (dirs ++ [f]))
  = (reverse dirs !! 0%nat, reverse dirs !! 2%nat, reverse dirs !! 1%nat)
  ∧ (forall img_path, exists dirs' f',
       img_path = sep_join os_sep (dirs' ++ [f'])
       ∧ Forall (fun s => lacks os_sep s = true) dirs'
       ∧ lacks os_sep f' = true).
Proof.
  intros Hdirs Hf. split.
  - unfold parse_path_parts. rewrite split_sep_join.
    + rewrite !index_from_end_reverse, reverse_app. done.
    + by destruct dirs.
    + apply Forall_app. split; [done | by repeat constructor].
  - intros img_path.
    destruct (sep_join_split os_sep img_path) as [Hjoin Hall].
    pose proof (split_not_nil os_sep img_path) as Hne.
    destruct (Py.split os_sep img_path) as [|f' dirs' _] using rev_ind;
      [done |].
    apply Forall_app in Hall as [Hdirs' Hf']. rewrite Forall_singleton in Hf'.
    exists dirs', f'. split_and!; [by symmetry | exact Hdirs' | exact Hf'].
Qed.

(** An image straight under [/data]: the animal folder is [data], the
    camera id is the empty component before the leading separator, and
    there is no block. *)
Lemma parse_path_parts_shallow_example :
  parse_path_parts "/data/img1.jpg" = (Some "data", None, Some EmptyString).
Proof.
  exact (proj1 (parse_path_parts_of_components [EmptyString; "data"] "img1.jpg"
                  ltac:(repeat constructor) eq_refl)).
Defined.

(** ** The date and the time of an image *)

Lemma first_DateTime_entry (info : list (Z * string)) :
  first_DateTime info = date_time_entry info.
Proof.
  unfold date_time_entry. induction info as [|[tag value] info IH]; [done |].
  cbn [first_DateTime List.find]. unfold TAGS. simpl.
  destruct (tag =? 306); [done |].
  destruct (tag =? 36867); [exact IH |].
  destruct (tag =? 36868); exact IH.
Qed.

Lemma replace_lacks (a b : ascii) (s : string) :
  Ascii.eqb b a = false -> lacks a (Py.replace a b s) = true.
Proof.
  intros Hab. unfold lacks. induction s as [|c s IH]; simpl; [done |].
  rewrite IH, andb_true_r.
  destruct (Ascii.eqb c a) eqn:Hc; [by rewrite Hab | by rewrite Hc].
Qed.

(** X2. The date and the time come from the first EXIF entry under the tag
    306 (DateTime; the tags of DateTimeOriginal and DateTimeDigitized are
    not read), when its value is two parts with one space between them: the
    date is the first part with its colons turned into dashes, so it has no
    colon, and the time is the second part as it is. In every other case,
    an image that cannot be read or has no EXIF included, both are absent:
    the two are present together or not at all. *)
Theorem extract_metadata_date_time (W : World) (img_path : string) :
  (forall info d t,
     getexif W img_path = Ok (Some info) ->
     date_time_entry info = Some (d +:+ String " " t) ->
     lacks " " d = true -> lacks " " t = true ->
     extract_metadata W img_path = (Some (Py.replace ":" "-" d), Some t)
     ∧ lacks ":" (Py.replace ":" "-" d) = true)
  ∧ (is_Some (extract_metadata W img_path).1
     ∨ is_Some (extract_metadata W img_path).2 ->
     exists info d t,
       getexif W img_path = Ok (Some info)
       ∧ date_time_entry info = Some (d +:+ String " " t)
       ∧ lacks " " d = true ∧ lacks " " t = true
       ∧ extract_metadata W img_path = (Some (Py.replace ":" "-" d), Some t)).
Proof.
  split.
  - intros info d t Hexif Hentry Hd Ht. split; [| by apply replace_lacks].
    unfold extract_metadata. rewrite Hexif, first_DateTime_entry, Hentry.
    rewrite split_app_sep, (split_lacks _ _ Hd), (split_lacks _ _ Ht). done.
  - unfold extract_metadata.
    destruct (getexif W img_path) as [[info |] | e];
      [| by intros [[? [=]] | [? [=]]] ..].
    rewrite first_DateTime_entry.
    destruct (date_time_entry info) as [value |] eqn:Hentry;
      [| by intros [[? [=]] | [? [=]]]].
    destruct (sep_join_split " " value) as [Hjoin Hall].
    destruct (Py.split " " value) as [|d [|t [|x rest]]];
      try by intros [[? [=]] | [? [=]]].
    intros _. apply Forall_cons in Hall as [Hd Hall].
    apply Forall_cons in Hall as [Ht _].
    simpl in Hjoin. subst value. by exists info, d, t.
Qed.

(** An image whose only dated entry is DateTimeOriginal has no date; one
    with a DateTime entry has the date and the time of that entry. *)
Lemma extract_metadata_example :
  let W := mkWorld (fun _ => None)
             (fun p => if String.eqb p "a.jpg"
                       then Ok (Some [(36867, "2020:01:02 03:04:05")])
                       else Ok (Some [(36867, "2020:01:02 03:04:05");
                                      (306, "2021:06:07 08:09:10")]))
             (fun _ => Ok []) (fun _ => Ok VOther) true true (fun _ => false)
             (fun _ => true) (fun _ => EmptyString) (fun _ => WriteOk)
             (fun _ => true) (fun _ => OSError) in
  extract_metadata W "a.jpg" = (None, None)
  ∧ extract_metadata W "b.jpg" = (Some "2021-06-07", Some "08:09:10").
Proof.
  intros W. split; [reflexivity |].
  exact (proj1 (proj1 (extract_metadata_date_time W "b.jpg")
                  [(36867, "2020:01:02 03:04:05"); (306, "2021:06:07 08:09:10")]
                  "2021:06:07" "08:09:10" eq_refl eq_refl eq_refl eq_refl)).
Defined.

(** ** The cell of a name *)

Lemma append_assoc (a b c : string) : (a +:+ b) +:+ c = a +:+ (b +:+ c).
Proof. induction a as [|x a IH]; simpl; [done | by rewrite IH]. Qed.

Lemma append_length (a b : string) :
  String.length (a +:+ b) = (String.length a + String.length b)%nat.
Proof. induction a as [|x a IH]; simpl; [done | by rewrite IH]. Qed.

(** Two strings with the same ending are equal when what comes before the
    ending is. *)
Lemma append_cancel_r (a b t : string) : a +:+ t = b +:+ t -> a = b.
Proof.
  revert b. induction a as [|x a IH]; intros [|y b] Heq; simpl in Heq.
  - done.
  - apply (f_equal String.length) in Heq. simpl in Heq.
    rewrite append_length in Heq. lia.
  - apply (f_equal String.length) in Heq. simpl in Heq.
    rewrite append_length in Heq. lia.
  - injection Heq as -> Heq. by rewrite (IH b Heq).
Qed.

(** A text without quotes is told from what follows its closing quote. *)
Lemma append_quote_inj (u1 u2 r1 r2 : string) :
  no_quote u1 = true -> no_quote u2 = true ->
  u1 +:+ String dq_char r1 = u2 +:+ String dq_char r2 -> u1 = u2 ∧ r1 = r2.
Proof.
  unfold no_quote. revert u2.
  induction u1 as [|x u1 IH]; intros [|y u2] H1 H2 Heq; simpl in *.
  - by injection Heq as ->.
  - injection Heq as <- _. by rewrite Ascii.eqb_refl in H2.
  - injection Heq as -> _. by rewrite Ascii.eqb_refl in H1.
  - injection Heq as -> Heq.
    apply andb_prop in H1 as [_ H1]. apply andb_prop in H2 as [_ H2].
    destruct (IH u2 H1 H2 Heq) as [-> ->]. done.
Qed.

(** X3. Two names have the same cell exactly when they have the same
    display text: the cell tells every name from every other, the empty
    name and Unidentified apart, which share the display text Unidentified. *)
Theorem hyperlink_cell_tells_names_apart (name1 name2 : string) :
  (build_hyperlink_for_animal name1 = build_hyperlink_for_animal name2
   <-> hyperlink_label name1 = hyperlink_label name2)
  ∧ (hyperlink_label name1 = hyperlink_label name2
     <-> name1 = name2
         ∨ (name1 = EmptyString ∧ name2 = "Unidentified")
         ∨ (name1 = "Unidentified" ∧ name2 = EmptyString)).
Proof.
  split.
  - split.
    + unfold build_hyperlink_for_animal, dq. intros Heq.
      apply (inj (String.append "=HYPERLINK(")) in Heq.
      simpl in Heq. injection Heq as Heq.
      apply append_quote_inj in Heq as [_ Heq];
        try apply hyperlink_url_no_quote.
      simpl in Heq. injection Heq as Heq.
      by apply append_cancel_r in Heq.
    + intros Heq. unfold build_hyperlink_for_animal, hyperlink_url, hyperlink_query.
      by rewrite Heq.
  - unfold hyperlink_label.
    destruct (String.eqb_spec name1 EmptyString) as [-> | H1];
      destruct (String.eqb_spec name2 EmptyString) as [-> | H2]; naive_solver.
Qed.

(** X4. A result scored below the threshold gives one and the same cell,
    whatever its label and whatever the image: the display text
    Unidentified over a search for the fixed query, whose plus signs are
    percent-encoded. The record of such a result differs from the record of
    any other such result for the same image in nothing. *)
Theorem low_score_cell (W : World) (th : float) (img_path : string)
    (result : ClassificationResult) :
  PrimFloat.ltb (result_score result) th = true ->
  Animal_Name (_record_from_path_and_result W th img_path result)
  = "=HYPERLINK(" +:+ dq
      +:+ "https://www.google.com/search?q=wildlife%2Bimage%2Bunidentified"
      +:+ dq +:+ ", " +:+ dq +:+ "Unidentified" +:+ dq +:+ ")"
  ∧ forall result',
      PrimFloat.ltb (result_score result') th = true ->
      _record_from_path_and_result W th img_path result'
      = _record_from_path_and_result W th img_path result.
Proof.
  intros Hlow.
  assert (forall r, PrimFloat.ltb (result_score r) th = true ->
            _record_from_path_and_result W th img_path r
            = let '(animal_folder, block, camera_id) := parse_path_parts img_path in
              mkRec animal_folder block camera_id
                (build_hyperlink_for_animal "Unidentified")
                (extract_metadata W img_path).1 (extract_metadata W img_path).2
                img_path) as Hrec.
  { intros r Hr. unfold _record_from_path_and_result, animal_name. by rewrite Hr. }
  split.
  - rewrite (Hrec result Hlow). by destruct (parse_path_parts img_path) as [[? ?] ?].
  - intros result' Hlow'. by rewrite (Hrec result Hlow), (Hrec result' Hlow').
Qed.

(** The labels deer and red fox, both scored 0.3 under the threshold 0.5,
    leave the same record. *)
Lemma low_score_cell_example :
  PrimFloat.ltb 0x1.3333333333333p-2%float 0.5%float = true
  ∧ _record_from_path_and_result (Example.world Example.no_stop) 0.5%float
      Example.deer2 (mkResult (Some "red fox") (Some 0x1.3333333333333p-2%float))
    = _record_from_path_and_result (Example.world Example.no_stop) 0.5%float
        Example.deer2 (mkResult (Some "deer") (Some 0x1.3333333333333p-2%float)).
Proof.
  split; [reflexivity |].
  exact (proj2 (low_score_cell (Example.world Example.no_stop) 0.5%float
                  Example.deer2
                  (mkResult (Some "deer") (Some 0x1.3333333333333p-2%float))
                  eq_refl)
               (mkResult (Some "red fox") (Some 0x1.3333333333333p-2%float))
               eq_refl).
Defined.

(** ** Scanning with paths left out *)

Lemma filter_out_more (A B : gset string) (l : list string) :
  A ⊆ B ->
  (filter (fun p => p ∉ B) l) `sublist_of` (filter (fun p => p ∉ A) l).
Proof.
  intros Hsub. induction l as [|x l IH]; [done |].
  rewrite !filter_cons.
  destruct (decide (x ∉ B)) as [HB | HB].
  - rewrite decide_True by set_solver. by constructor.
  - destruct (decide (x ∉ A)); [by constructor | done].
Qed.

(** X5. The scan that leaves paths out is the scan of everything with
    those paths removed, the others in their order: no path that is left
    out is returned, leaving out more returns a sublist, and leaving out
    every scanned path returns nothing. *)
Theorem scan_leaves_out_processed (W : World) (root : string)
    (excluded : gset string) :
  scan_all_images W root excluded
  = filter (fun p => p ∉ excluded) (scan_all_images W root ∅)
  ∧ (forall p, p ∈ scan_all_images W root excluded ->
       (p ∉ excluded) ∧ (p ∈ scan_all_images W root ∅))
  ∧ (forall more,
       (scan_all_images W root (excluded ∪ more))
       `sublist_of` (scan_all_images W root excluded))
  ∧ scan_all_images W root (list_to_set (scan_all_images W root ∅)) = [].
Proof.
  split_and!.
  - apply scan_excluding.
  - intros p. rewrite scan_excluding. by intros [? ?]%list_elem_of_filter.
  - intros more. rewrite (scan_excluding W root (excluded ∪ more)).
    rewrite (scan_excluding W root excluded).
    apply filter_out_more. set_solver.
  - rewrite scan_excluding. apply elem_of_nil_inv.
    intros p [Hout Hin]%list_elem_of_filter. apply Hout.
    by apply elem_of_list_to_set.
Qed.

(** ** The columns of the sheet *)

Lemma filter_all (P : string -> Prop) `{!forall x, Decision (P x)}
    (l : list string) :
  (forall c, c ∈ l -> P c) -> filter P l = l.
Proof.
  induction l as [|x l IH]; intros Hall; [done |].
  rewrite filter_cons_True by (apply Hall; left).
  f_equal. apply IH. intros c Hc. apply Hall. by right.
Qed.

Lemma filter_none (P : string -> Prop) `{!forall x, Decision (P x)}
    (l : list string) :
  (forall c, c ∈ l -> ~ P c) -> filter P l = [].
Proof.
  intros Hall. apply elem_of_nil_inv.
  intros c [HP Hc]%list_elem_of_filter. by apply (Hall c).
Qed.

(** X6. The sheet keeps every column of the frame, once: the columns of
    line 74 are a rearrangement of the columns of the frame, the six
    preferred ones first, in their fixed order, and the others after them in
    the order the frame has them. So the rows of the export, whose keys are
    the six preferred ones, give a sheet with these six columns in the fixed
    order whatever the order of the keys; a frame with none of them, the
    frame of no row included, keeps its columns as they are. *)
Theorem column_order_rearranges (df_columns : list string) :
  NoDup df_columns ->
  column_order df_columns ≡ₚ df_columns
  ∧ (forall others,
       df_columns ≡ₚ preferred_cols ++ others ->
       column_order df_columns
       = preferred_cols ++ filter (fun c => c ∉ preferred_cols) df_columns)
  ∧ (df_columns ≡ₚ preferred_cols -> column_order df_columns = preferred_cols)
  ∧ ((forall c, c ∈ df_columns -> c ∉ preferred_cols) ->
     column_order df_columns = df_columns)
  ∧ (forall rows : list ExportRow,
       column_order (frame_columns rows)
       = match rows with [] => [] | _ :: _ => preferred_cols end).
Proof.
  intros Hnd. split_and!.
  - (* as sets with no repetition on either side *)
    apply NoDup_Permutation; [| done |].
    + unfold column_order. apply NoDup_app. split_and!.
      * apply NoDup_filter. apply (bool_decide_unpack _). vm_compute. exact I.
      * intros c [_ Hin]%list_elem_of_filter [Hout _]%list_elem_of_filter.
        done.
      * by apply NoDup_filter.
    + intros c. unfold column_order.
      rewrite elem_of_app, !list_elem_of_filter.
      destruct (decide (c ∈ preferred_cols)); naive_solver.
  - intros others Hperm. unfold column_order. f_equal.
    apply (filter_all (fun c => c ∈ df_columns)).
    intros c Hc. rewrite Hperm. set_solver.
  - intros Hperm. unfold column_order.
    rewrite (filter_all (fun c => c ∈ df_columns))
      by (intros c Hc; by rewrite Hperm).
    rewrite filter_none; [by rewrite app_nil_r |].
    intros c Hc Hout. apply Hout. by rewrite <- Hperm.
  - intros Hnone. unfold column_order.
    rewrite (filter_none (fun c => c ∈ df_columns)).
    + simpl. by apply (filter_all (fun c => c ∉ preferred_cols)).
    + intros c Hc Hin. by apply (Hnone c).
  - intros [|row rows]; [done |]. vm_compute. reflexivity.
Qed.

(** The columns of full records, met in another order, are put in the
    fixed order with the path after them. *)
Lemma column_order_example :
  column_order ["Path"; "Time"; "Date"; "Animal Name"; "Camera ID"; "Block";
                "Animal Folder"]
  = ["Animal Folder"; "Block"; "Camera ID"; "Animal Name"; "Date"; "Time"; "Path"].
Proof.
  assert (NoDup ["Path"; "Time"; "Date"; "Animal Name"; "Camera ID"; "Block";
                 "Animal Folder"]) as Hnd
    by (apply (bool_decide_unpack _); vm_compute; exact I).
  rewrite (proj1 (proj2 (column_order_rearranges _ Hnd)) ["Path"]).
  - reflexivity.
  - apply NoDup_Permutation; [exact Hnd | |].
    + apply (bool_decide_unpack _). vm_compute. exact I.
    + intros c. rewrite !elem_of_cons, !elem_of_app, !elem_of_cons. set_solver.
Defined.

(** ** The checkpoint file, written and read back *)

(** X7. What [_save_progress] writes, [_load_progress] reads back: after a
    save that succeeds, a load on any processor returns True and leaves it
    with the records, the processed paths, the root folder, the batch size
    and the threshold the saving processor had; its own classifier and stop
    flag are kept, and neither the file nor anything outside is touched. *)
Theorem checkpoint_round_trip (W : World) (st : State) :
  makedirs_ok W (saves st) = true -> write_outcome W (saves st) = WriteOk ->
  (_save_progress W st).2 = Ok tt
  ∧ forall st',
      disk st' = disk (_save_progress W st).1 ->
      _load_progress st'
      = (mkState (mkProcessor (classifier (self st')) (stop_flag (self st'))
                    (records (self st)) (processed_paths (self st))
                    (root_folder (self st)) (batch_size (self st))
                    (conf_threshold (self st)))
                 (disk st') (events st') (polls st') (saves st'),
         Ok true).
Proof.
  intros Hdir Hwrite.
  destruct (save_progress_run W st)
    as (st1 & o & Hsave & _ & _ & _ & Hok & _ & _ & Hdisk).
  rewrite Hsave. simpl. specialize (Hok Hdir). subst o.
  specialize (Hdisk eq_refl Hwrite). split; [done |].
  intros st' Hsame. rewrite Hdisk in Hsame.
  unfold _load_progress. monad_unfold. rewrite Hsame.
  rewrite restore_checkpoint. by rewrite <- Hsame.
Qed.

(** The checkpoint of a run stopped in its first batch, read back by a
    processor as it is at launch. *)
Lemma checkpoint_round_trip_example :
  let W := Example.world (Example.stop_at 2) in
  let st := (process_new W (Example.start Example.configured NoFile)).1 in
  exists st'' : State,
    _load_progress
      (Example.start Processor_init (disk (_save_progress W st).1))
    = (st'', Ok true)
    ∧ records (self st'') = records (self st)
    ∧ batch_size (self st'') = 2.
Proof.
  intros W st.
  destruct (checkpoint_round_trip W st eq_refl eq_refl) as [_ Hload].
  eexists. split; [apply Hload; reflexivity |]. split; reflexivity.
Defined.

(** ** Runs that end before the batch loop *)

(** [load_model], step by step. *)
Lemma load_model_exact (W : World) (st : State) :
  load_model W st
  = if model_dir_exists W then
      if pipeline_loads W then
        (mkState (with_classifier true (self st)) (disk st)
           (events st ++ [SetStatus LoadingModel; SetStatus ModelLoaded])
           (polls st) (saves st), Ok tt)
      else
        (mkState (self st) (disk st) (events st ++ [SetStatus LoadingModel])
           (polls st) (saves st), Raise OtherError)
    else
      (mkState (self st) (disk st) (events st ++ [SetStatus LoadingModel])
         (polls st) (saves st), Raise FileNotFoundError).
Proof.
  unfold load_model. monad_unfold. simpl.
  destruct (model_dir_exists W); simpl; [| done].
  destruct (pipeline_loads W); simpl; [| done].
  by rewrite <- app_assoc.
Qed.

Lemma process_new_no_model (W : World) (st : State) :
  model_dir_exists W && pipeline_loads W = false ->
  process_new W st
  = (mkState
       (with_processed_paths ∅ (with_records [] (with_stop_flag false (self st))))
       (disk st)
       (events st ++ [SetStatus LoadingModel; EnableUI; ShowError "Model Error"])
       (polls st) (saves st), Ok tt).
Proof.
  intros Hmodel.
  assert (exists e,
    load_model W (reset_state st).1
    = (mkState
         (with_processed_paths ∅ (with_records [] (with_stop_flag false (self st))))
         (disk st) (events st ++ [SetStatus LoadingModel])
         (polls st) (saves st), Raise e)) as [e Hload].
  { rewrite load_model_exact.
    destruct (model_dir_exists W); simpl in Hmodel;
      [rewrite Hmodel |]; by eexists. }
  unfold process_new.
  erewrite bind_ok; [| eapply guarded_raise; erewrite bind_ok;
                       [exact Hload | reflexivity]].
  simpl. unfold ret. by rewrite <- !app_assoc.
Qed.

(** The new run up to the scan, with a model that loads. *)
Lemma process_new_to_scan (W : World) (st : State) :
  model_loads W ->
  process_new W st
  = (let* all_paths := _scan_all_images W in
     match all_paths with
     | [] => do* emit EnableUI in emit (ShowInfo "No Images")
     | _ :: _ =>
         do* emit (ProgressMaximum (length all_paths)) in
         do* emit (ProgressValue 0) in
         let* starts := batch_starts all_paths in
         do* batch_loop W (length all_paths) all_paths starts in
         _finalize_processing W
     end)
      (mkState
         (with_classifier true
            (with_processed_paths ∅
               (with_records [] (with_stop_flag false (self st)))))
         (disk st)
         (events st ++ [SetStatus LoadingModel; SetStatus ModelLoaded])
         (polls st) (saves st)).
Proof.
  intros [Hdir Hpipe]. unfold process_new.
  erewrite bind_ok; [| apply guarded_ok; erewrite bind_ok;
                       [by rewrite load_model_exact, Hdir, Hpipe | reflexivity]].
  reflexivity.
Qed.

Lemma process_new_no_root (W : World) (st : State) :
  model_loads W -> root_folder (self st) = None ->
  process_new W st
  = (mkState
       (with_classifier true
          (with_processed_paths ∅
             (with_records [] (with_stop_flag false (self st)))))
       (disk st)
       (events st ++ [SetStatus LoadingModel; SetStatus ModelLoaded])
       (polls st) (saves st), Raise TypeError).
Proof.
  intros Hmodel Hroot. rewrite process_new_to_scan by done.
  unfold _scan_all_images. monad_unfold. simpl. by rewrite Hroot.
Qed.

Lemma process_new_no_image (W : World) (st : State) (root : string) :
  model_loads W -> root_folder (self st) = Some root ->
  scan_all_images W root ∅ = [] ->
  process_new W st
  = (mkState
       (with_classifier true
          (with_processed_paths ∅
             (with_records [] (with_stop_flag false (self st)))))
       (disk st)
       (events st ++ [SetStatus LoadingModel; SetStatus ModelLoaded;
                      EnableUI; ShowInfo "No Images"])
       (polls st) (saves st), Ok tt).
Proof.
  intros Hmodel Hroot Hscan. rewrite process_new_to_scan by done.
  erewrite bind_ok by (by apply (scan_all_images_run W _ root)).
  simpl. rewrite Hscan. monad_unfold. simpl. by rewrite <- !app_assoc.
Qed.

(** X8. A new run that cannot load the model, or finds no image under the
    root folder, returns after one dialog with the user interface enabled
    again: it has called the classifier for nothing, written no checkpoint
    and exported nothing, and the checkpoint file is as it was. It has all
    the same emptied the record list and the processed paths of the
    processor and cleared the stop flag, and in the second case it has
    loaded the model before looking for images. *)
Theorem process_new_ends_early (W : World) (st : State) :
  let fresh :=
    with_processed_paths ∅ (with_records [] (with_stop_flag false (self st))) in
  (model_dir_exists W && pipeline_loads W = false ->
   process_new W st
   = (mkState fresh (disk st)
        (events st ++ [SetStatus LoadingModel; EnableUI; ShowError "Model Error"])
        (polls st) (saves st), Ok tt))
  ∧ (forall root,
       model_loads W -> root_folder (self st) = Some root ->
       scan_all_images W root ∅ = [] ->
       process_new W st
       = (mkState (with_classifier true fresh) (disk st)
            (events st ++ [SetStatus LoadingModel; SetStatus ModelLoaded;
                           EnableUI; ShowInfo "No Images"])
            (polls st) (saves st), Ok tt)).
Proof.
  intros fresh. split.
  - apply process_new_no_model.
  - intros root. apply process_new_no_image.
Qed.

(** The example installation asked for a folder that is not there. *)
Lemma process_new_ends_early_example :
  events (process_new (Example.world Example.no_stop)
            (Example.start
               (with_root_folder (Some "/elsewhere") Example.configured) NoFile)).1
  = [SetStatus LoadingModel; SetStatus ModelLoaded; EnableUI; ShowInfo "No Images"].
Proof.
  rewrite (proj2 (process_new_ends_early (Example.world Example.no_stop)
                    (Example.start
                       (with_root_folder (Some "/elsewhere") Example.configured)
                       NoFile))
                 "/elsewhere" (conj eq_refl eq_refl) eq_refl eq_refl).
  reflexivity.
Defined.

(** The two entry points up to the batch loop, when they reach it. *)
Lemma process_new_to_loop (W : World) (st : State) (root : string) :
  model_loads W -> root_folder (self st) = Some root ->
  let all := scan_all_images W root ∅ in
  all <> [] ->
  process_new W st
  = (let* starts := batch_starts all in
     do* batch_loop W (length all) all starts in
     _finalize_processing W)
      (mkState
         (with_classifier true
            (with_processed_paths ∅
               (with_records [] (with_stop_flag false (self st)))))
         (disk st)
         (events st ++ [SetStatus LoadingModel; SetStatus ModelLoaded;
                        ProgressMaximum (length all); ProgressValue 0])
         (polls st) (saves st)).
Proof.
  intros [Hdir Hpipe] Hroot all Hall.
  unfold process_new.
  erewrite bind_ok; [| apply guarded_ok; erewrite bind_ok;
                       [by rewrite load_model_exact, Hdir, Hpipe | reflexivity]].
  cbn [negb].
  erewrite bind_ok by (by apply (scan_all_images_run W _ root)).
  simpl. fold all. destruct all as [|p0 rest] eqn:Heq; [done |].
  do 2 (erewrite (bind_ok (emit _)) by reflexivity).
  simpl. by rewrite <- !app_assoc.
Qed.

Lemma ensure_model_exact (W : World) (st : State) :
  classifier (self st) = true ∨ model_loads W ->
  (let* me := get_self in
   if classifier me then ret tt else load_model W) st
  = (mkState (with_classifier true (self st)) (disk st)
       (events st ++ (if classifier (self st) then []
                      else [SetStatus LoadingModel; SetStatus ModelLoaded]))
       (polls st) (saves st), Ok tt).
Proof.
  intros Hready. monad_unfold.
  destruct (classifier (self st)) eqn:Hc.
  - rewrite app_nil_r. destruct st as [[] ? ? ? ?]. simpl in *. by subst.
  - destruct Hready as [? | [Hdir Hpipe]]; [done |].
    by rewrite load_model_exact, Hdir, Hpipe.
Qed.

Lemma process_resume_to_loop (W : World) (st : State) (payload : Payload)
    (root : string) :
  disk st = Stored payload ->
  classifier (self st) = true ∨ model_loads W ->
  let p := with_classifier true (restore payload (self st)) in
  root_folder p = Some root ->
  let remaining := scan_all_images W root (processed_paths p) in
  let total := (length remaining + size (processed_paths p))%nat in
  let loading :=
    if classifier (self st) then []
    else [SetStatus LoadingModel; SetStatus ModelLoaded] in
  process_resume W st
  = if (total =? 0)%nat then
      (mkState p (disk st)
         (events st ++ loading ++ [EnableUI; ShowInfo "Resume"])
         (polls st) (saves st), Ok tt)
    else
      (let* starts := batch_starts remaining in
       do* batch_loop W total remaining starts in
       _finalize_processing W)
        (mkState p (disk st)
           (events st ++ loading
              ++ [ProgressMaximum total; ProgressValue (size (processed_paths p))])
           (polls st) (saves st)).
Proof.
  intros Hdisk Hready p Hroot remaining total loading.
  unfold process_resume.
  erewrite bind_ok
    by (unfold _load_progress; monad_unfold; rewrite Hdisk; reflexivity).
  cbn [negb].
  erewrite bind_ok by (apply guarded_ok; by apply ensure_model_exact).
  cbn [negb].
  erewrite bind_ok by (by apply (scan_all_images_run W _ root)).
  erewrite bind_ok by reflexivity.
  cbn [self disk events polls saves].
  fold p. fold remaining. fold total.
  change (classifier (restore payload (self st))) with (classifier (self st)).
  fold loading.
  destruct (total =? 0)%nat.
  - monad_unfold. simpl. by rewrite <- !app_assoc.
  - do 2 (erewrite (bind_ok (emit _)) by reflexivity).
    simpl. by rewrite <- !app_assoc.
Qed.

(** [_save_progress] and [_finalize_processing], step by step. *)
Lemma save_progress_exact (W : World) (st : State) :
  _save_progress W st
  = if makedirs_ok W (saves st) then
      match write_outcome W (saves st) with
      | WriteOk =>
          (mkState (self st)
             (Stored (checkpoint_of (self st) (clock W (saves st))))
             (events st
                ++ [CheckpointWritten (checkpoint_of (self st) (clock W (saves st)))])
             (polls st) (S (saves st)), Ok tt)
      | OpenFails =>
          (mkState (self st) (disk st) (events st ++ [PrintSaveError])
             (polls st) (S (saves st)), Ok tt)
      | DumpFails =>
          (mkState (self st) (Malformed BadJSON) (events st ++ [PrintSaveError])
             (polls st) (S (saves st)), Ok tt)
      end
    else
      (mkState (self st) (disk st) (events st) (polls st) (S (saves st)),
       Raise OSError).
Proof.
  unfold _save_progress, next_save, safe_makedirs, write_progress_file.
  monad_unfold. simpl.
  destruct (makedirs_ok W (saves st)); [| done].
  by destruct (write_outcome W (saves st)).
Qed.

Lemma finalize_exact (W : World) (st : State) :
  let rows := map export_row (records (self st)) in
  _finalize_processing W st
  = if excel_ok W rows then
      match _save_progress W
              (mkState (self st) (disk st) (events st ++ [Exported rows])
                 (polls st) (saves st)) with
      | (st', Ok _) =>
          (mkState (self st') (disk st')
             (events st' ++ [SetStatus ExportedToExcel; ShowInfo "Done"; EnableUI])
             (polls st') (saves st'), Ok tt)
      | (st', Raise e) => (st', Raise e)
      end
    else (st, Raise (excel_error W rows)).
Proof.
  intros rows. unfold _finalize_processing, save_to_excel. monad_unfold.
  fold rows. destruct (excel_ok W rows); [| done]. simpl.
  destruct (_save_progress W _) as [st' [[] | e]]; [| done].
  simpl. by rewrite <- !app_assoc.
Qed.

Lemma process_resume_no_file (W : World) (st : State) :
  disk st = NoFile ->
  process_resume W st
  = (mkState (self st) (disk st) (events st ++ [EnableUI])
       (polls st) (saves st), Ok tt).
Proof.
  intros Hdisk. unfold process_resume.
  erewrite bind_ok
    by (unfold _load_progress; monad_unfold; rewrite Hdisk; reflexivity).
  reflexivity.
Qed.

Lemma process_resume_unreadable (W : World) (st : State) (c : Corrupt) :
  disk st = Malformed c ->
  process_resume W st
  = (mkState (restore_partial c (self st)) (disk st)
       (events st ++ [ShowWarning "Resume"; EnableUI])
       (polls st) (saves st), Ok tt).
Proof.
  intros Hdisk. unfold process_resume.
  erewrite bind_ok
    by (unfold _load_progress; monad_unfold; rewrite Hdisk; reflexivity).
  cbn [negb]. unfold emit. simpl. by rewrite <- !app_assoc.
Qed.

Lemma process_resume_no_model (W : World) (st : State) (payload : Payload) :
  disk st = Stored payload ->
  classifier (self st) = false ->
  model_dir_exists W && pipeline_loads W = false ->
  process_resume W st
  = (mkState (restore payload (self st)) (disk st)
       (events st ++ [SetStatus LoadingModel; EnableUI; ShowError "Model Error"])
       (polls st) (saves st), Ok tt).
Proof.
  intros Hdisk Hc Hmodel. unfold process_resume.
  erewrite bind_ok
    by (unfold _load_progress; monad_unfold; rewrite Hdisk; reflexivity).
  cbn [negb].
  assert (exists e,
    (let* me := get_self in
     if classifier me then ret tt else load_model W)
      (mkState (restore payload (self st)) (disk st) (events st)
         (polls st) (saves st))
    = (mkState (restore payload (self st)) (disk st)
         (events st ++ [SetStatus LoadingModel]) (polls st) (saves st),
       Raise e)) as [e Hload].
  { unfold bind, get_self. cbn [self restore classifier]. rewrite Hc.
    rewrite load_model_exact.
    destruct (model_dir_exists W); simpl in Hmodel;
      [rewrite Hmodel |]; by eexists. }
  erewrite bind_ok by (eapply guarded_raise; exact Hload).
  simpl. unfold ret. by rewrite <- !app_assoc.
Qed.

Lemma process_resume_no_root (W : World) (st : State) (payload : Payload) :
  disk st = Stored payload ->
  classifier (self st) = true ∨ model_loads W ->
  root_folder (restore payload (self st)) = None ->
  process_resume W st
  = (mkState (with_classifier true (restore payload (self st))) (disk st)
       (events st
          ++ (if classifier (self st) then []
              else [SetStatus LoadingModel; SetStatus ModelLoaded]))
       (polls st) (saves st), Raise TypeError).
Proof.
  intros Hdisk Hready Hroot. unfold process_resume.
  erewrite bind_ok
    by (unfold _load_progress; monad_unfold; rewrite Hdisk; reflexivity).
  cbn [negb].
  erewrite bind_ok by (apply guarded_ok; by apply ensure_model_exact).
  cbn [negb]. unfold _scan_all_images. monad_unfold. simpl.
  simpl in Hroot. by rewrite Hroot.
Qed.

(** X9. A resumed run without a checkpoint it can read enables the user
    interface and returns: with no file it does nothing else, and the
    processor is as it was; with a file the load rejects it also shows the
    warning of the load, and the processor keeps the fields assigned before
    the load failed. With a checkpoint that lists no path, under a root
    folder with no image, it loads the model if need be, says there is
    nothing to process and returns. In none of these cases is the
    classifier called, anything exported, or the checkpoint file touched. *)
Theorem process_resume_ends_early (W : World) (st : State) :
  (disk st = NoFile ->
   process_resume W st
   = (mkState (self st) (disk st) (events st ++ [EnableUI])
        (polls st) (saves st), Ok tt))
  ∧ (forall c,
       disk st = Malformed c ->
       process_resume W st
       = (mkState (restore_partial c (self st)) (disk st)
            (events st ++ [ShowWarning "Resume"; EnableUI])
            (polls st) (saves st), Ok tt))
  ∧ (forall payload,
       disk st = Stored payload ->
       classifier (self st) = false ->
       model_dir_exists W && pipeline_loads W = false ->
       process_resume W st
       = (mkState (restore payload (self st)) (disk st)
            (events st ++ [SetStatus LoadingModel; EnableUI;
                           ShowError "Model Error"])
            (polls st) (saves st), Ok tt))
  ∧ (forall payload root,
       disk st = Stored payload ->
       classifier (self st) = true ∨ model_loads W ->
       root_folder (restore payload (self st)) = Some root ->
       processed_paths (restore payload (self st)) = ∅ ->
       scan_all_images W root ∅ = [] ->
       process_resume W st
       = (mkState (with_classifier true (restore payload (self st))) (disk st)
            (events st
               ++ (if classifier (self st) then []
                   else [SetStatus LoadingModel; SetStatus ModelLoaded])
               ++ [EnableUI; ShowInfo "Resume"])
            (polls st) (saves st), Ok tt)).
Proof.
  split_and!.
  - apply process_resume_no_file.
  - intros c. apply process_resume_unreadable.
  - intros payload. apply process_resume_no_model.
  - intros payload root Hdisk Hready Hroot Hnone Hscan.
    rewrite (process_resume_to_loop W st payload root Hdisk Hready Hroot).
    change (processed_paths (with_classifier true (restore payload (self st))))
      with (processed_paths (restore payload (self st))).
    by rewrite Hnone, Hscan, size_empty.
Qed.

(** At first launch, with no checkpoint file, Resume does nothing but
    enable the user interface. *)
Lemma process_resume_ends_early_example :
  process_resume (Example.world Example.no_stop)
    (Example.start Processor_init NoFile)
  = (mkState Processor_init NoFile [EnableUI] 0 0, Ok tt).
Proof.
  exact (proj1 (process_resume_ends_early (Example.world Example.no_stop)
                  (Example.start Processor_init NoFile)) eq_refl).
Defined.

(** ** The save is not atomic *)

(** X10. A save whose dump fails after the file was opened for writing is
    logged and returns, but the checkpoint that was there is gone: the file
    is left unreadable, whatever it held, and a resumed run that finds it
    shows the warning, enables the user interface and returns with nothing
    resumed. A save that cannot open the file leaves it as it was. *)
Theorem failed_dump_loses_the_checkpoint (W : World) (st : State) :
  makedirs_ok W (saves st) = true ->
  (write_outcome W (saves st) = DumpFails ->
   _save_progress W st
   = (mkState (self st) (Malformed BadJSON) (events st ++ [PrintSaveError])
        (polls st) (S (saves st)), Ok tt)
   ∧ forall W' st',
       disk st' = disk (_save_progress W st).1 ->
       process_resume W' st'
       = (mkState (self st') (disk st')
            (events st' ++ [ShowWarning "Resume"; EnableUI])
            (polls st') (saves st'), Ok tt))
  ∧ (write_outcome W (saves st) = OpenFails ->
     _save_progress W st
     = (mkState (self st) (disk st) (events st ++ [PrintSaveError])
          (polls st) (S (saves st)), Ok tt)).
Proof.
  intros Hdir. split.
  - intros Hw. rewrite save_progress_exact, Hdir, Hw. split; [done |].
    intros W' st' Hsame. simpl in Hsame.
    by rewrite (process_resume_unreadable W' st' BadJSON Hsame).
  - intros Hw. by rewrite save_progress_exact, Hdir, Hw.
Qed.

(** The checkpoint of a finished run, lost to a failed dump of the run
    after it. *)
Lemma failed_dump_example :
  let W := Example.world Example.no_stop in
  let st := (process_new W (Example.start Example.configured NoFile)).1 in
  let W' := mkWorld (fs_dir W) (getexif W) (classify_many W) (classify_one W)
              true true Example.no_stop (fun _ => true) (clock W)
              (fun _ => DumpFails) (excel_ok W) (excel_error W) in
  (exists payload, disk st = Stored payload)
  ∧ disk (_save_progress W' st).1 = Malformed BadJSON.
Proof.
  intros W st W'. split; [eexists; vm_compute; reflexivity |].
  destruct (failed_dump_loses_the_checkpoint W' st eq_refl) as [Hdump _].
  destruct (Hdump eq_refl) as [-> _]. reflexivity.
Defined.

(** ** Batch sizes that are not positive *)

Lemma loop_and_finalize_zero (W : World) (total : nat) (paths : list string)
    (st : State) :
  batch_size (self st) = 0 ->
  (let* starts := batch_starts paths in
   do* batch_loop W total paths starts in
   _finalize_processing W) st = (st, Raise ValueError).
Proof.
  intros Hbs. unfold batch_starts. monad_unfold. by rewrite Hbs.
Qed.

Lemma loop_and_finalize_negative (W : World) (total : nat) (paths : list string)
    (st : State) :
  batch_size (self st) < 0 ->
  (let* starts := batch_starts paths in
   do* batch_loop W total paths starts in
   _finalize_processing W) st = _finalize_processing W st.
Proof.
  intros Hbs. unfold batch_starts. unfold bind at 1 2. unfold get_self.
  destruct (range0_cases (length paths) (batch_size (self st)))
    as [[? _] | [[_ ->] | (k & Hk & Hpos & _)]]; [lia | | lia].
  unfold ret. cbn [batch_loop]. by unfold bind, ret.
Qed.

(** X11. With the batch size zero a run raises the [ValueError] of
    [range] as soon as it reaches the batch loop, in the new run after the
    model was loaded and the images were counted: the classifier is not
    called, nothing is exported or saved, the checkpoint file is as it was,
    and the user interface is not enabled again. *)
Theorem zero_batch_size_raises (W : World) (st : State) (root : string) :
  model_loads W ->
  (root_folder (self st) = Some root -> batch_size (self st) = 0 ->
   scan_all_images W root ∅ <> [] ->
   process_new W st
   = (mkState
        (with_classifier true
           (with_processed_paths ∅
              (with_records [] (with_stop_flag false (self st)))))
        (disk st)
        (events st ++ [SetStatus LoadingModel; SetStatus ModelLoaded;
                       ProgressMaximum (length (scan_all_images W root ∅));
                       ProgressValue 0])
        (polls st) (saves st), Raise ValueError))
  ∧ (forall payload,
       disk st = Stored payload ->
       let p := with_classifier true (restore payload (self st)) in
       let remaining := scan_all_images W root (processed_paths p) in
       let total := (length remaining + size (processed_paths p))%nat in
       root_folder p = Some root -> batch_size p = 0 -> total <> 0%nat ->
       process_resume W st
       = (mkState p (disk st)
            (events st
               ++ (if classifier (self st) then []
                   else [SetStatus LoadingModel; SetStatus ModelLoaded])
               ++ [ProgressMaximum total;
                   ProgressValue (size (processed_paths p))])
            (polls st) (saves st), Raise ValueError)).
Proof.
  intros Hmodel. split.
  - intros Hroot Hbs Hall.
    rewrite (process_new_to_loop W st root Hmodel Hroot Hall).
    by apply loop_and_finalize_zero.
  - intros payload Hdisk p remaining total Hroot Hbs Htotal.
    rewrite (process_resume_to_loop W st payload root Hdisk
               (or_intror Hmodel) Hroot).
    fold p remaining total.
    destruct (Nat.eqb_spec total 0) as [? | _]; [done |].
    by apply loop_and_finalize_zero.
Qed.

(** The example installation with the batch size zero. *)
Lemma zero_batch_size_example :
  (process_new (Example.world Example.no_stop)
     (Example.start (with_batch_size 0 Example.configured) NoFile)).2
  = Raise ValueError.
Proof.
  rewrite (proj1 (zero_batch_size_raises (Example.world Example.no_stop)
                    (Example.start (with_batch_size 0 Example.configured) NoFile)
                    "/data" (conj eq_refl eq_refl))
                 eq_refl eq_refl ltac:(vm_compute; discriminate)).
  reflexivity.
Defined.

(** X12. With a negative batch size the batch loop of a new run has no
    iteration: the classifier is not called and no record is built, yet
    the run goes on to its finalisation, exports a sheet with no row,
    replaces the checkpoint file by one with no record, and reports that
    it is done. *)
Theorem negative_batch_size_does_nothing (W : World) (st : State)
    (root : string) :
  model_loads W -> root_folder (self st) = Some root ->
  batch_size (self st) < 0 ->
  scan_all_images W root ∅ <> [] ->
  excel_ok W [] = true ->
  makedirs_ok W (saves st) = true -> write_outcome W (saves st) = WriteOk ->
  let p := with_classifier true
             (with_processed_paths ∅
                (with_records [] (with_stop_flag false (self st)))) in
  let payload := checkpoint_of p (clock W (saves st)) in
  process_new W st
  = (mkState p (Stored payload)
       (events st ++ [SetStatus LoadingModel; SetStatus ModelLoaded;
                      ProgressMaximum (length (scan_all_images W root ∅));
                      ProgressValue 0;
                      Exported []; CheckpointWritten payload;
                      SetStatus ExportedToExcel; ShowInfo "Done"; EnableUI])
       (polls st) (S (saves st)), Ok tt)
  ∧ payload_records payload = Some []
  ∧ payload_processed_paths payload = Some [].
Proof.
  intros Hmodel Hroot Hbs Hall Hexcel Hdir Hwrite p payload.
  split; [| split; [done |]].
  - rewrite (process_new_to_loop W st root Hmodel Hroot Hall).
    rewrite loop_and_finalize_negative by done.
    rewrite finalize_exact. cbn [self records with_classifier
      with_processed_paths with_records map]. rewrite Hexcel.
    rewrite save_progress_exact. cbn [saves]. rewrite Hdir, Hwrite.
    cbn [self disk events polls saves]. fold p. fold payload.
    by rewrite <- !app_assoc.
  - unfold payload, checkpoint_of. simpl. by rewrite elements_empty.
Qed.

(** The example installation with the batch size -1. *)
Lemma negative_batch_size_example :
  let st := Example.start (with_batch_size (-1) Example.configured) NoFile in
  Exported [] ∈ events (process_new (Example.world Example.no_stop) st).1
  ∧ records (self (process_new (Example.world Example.no_stop) st).1) = [].
Proof.
  intros st.
  destruct (negative_batch_size_does_nothing (Example.world Example.no_stop)
              st "/data" (conj eq_refl eq_refl) eq_refl eq_refl
              ltac:(vm_compute; discriminate) eq_refl eq_refl eq_refl)
    as [-> _].
  split; [| reflexivity]. cbn [events fst].
  apply list_elem_of_In. simpl. tauto.
Defined.

(** ** The calls of the classifier *)

Lemma retry_one_exact (W : World) (p : string) (st : State) :
  try_except
    (let* r := call_classifier_one W p in ret (normalize r))
    (fun _ => ret fallback) st
  = if classifier (self st) then
      (mkState (self st) (disk st) (events st ++ [ClassifyOne p])
         (polls st) (saves st), Ok (per_image W p))
    else (st, Ok fallback).
Proof.
  unfold call_classifier_one, per_image. monad_unfold.
  destruct (classifier (self st)); [| done].
  by destruct (classify_one W p).
Qed.

Lemma retry_each_exact (W : World) (batch : list string) (st : State) :
  collect (fun p =>
    try_except
      (let* r := call_classifier_one W p in ret (normalize r))
      (fun _ => ret fallback)) batch st
  = if classifier (self st) then
      (mkState (self st) (disk st) (events st ++ map ClassifyOne batch)
         (polls st) (saves st), Ok (map (per_image W) batch))
    else (st, Ok (map (fun _ => fallback) batch)).
Proof.
  revert st. induction batch as [|p batch IH]; intros st.
  - simpl. unfold ret. rewrite app_nil_r.
    destruct st as [me d ev n m]. simpl. by destruct (classifier me).
  - cbn [collect]. unfold bind at 1. rewrite retry_one_exact.
    destruct (classifier (self st)) eqn:Hc.
    + unfold bind at 1. rewrite IH. cbn [self]. rewrite Hc.
      unfold ret. simpl. by rewrite <- app_assoc.
    + unfold bind at 1. rewrite IH, Hc. done.
Qed.

Lemma classify_batch_exact (W : World) (batch : list string) (st : State) :
  _classify_batch W batch st
  = if classifier (self st) then
      match classify_many W batch with
      | Ok items =>
          (mkState (self st) (disk st) (events st ++ [ClassifyBatch batch])
             (polls st) (saves st), Ok (map normalize items))
      | Raise _ =>
          (mkState (self st) (disk st)
             (events st ++ ClassifyBatch batch :: map ClassifyOne batch)
             (polls st) (saves st), Ok (map (per_image W) batch))
      end
    else (st, Ok (map (fun _ => fallback) batch)).
Proof.
  assert (call_classifier_many W batch st
          = if classifier (self st) then
              (mkState (self st) (disk st) (events st ++ [ClassifyBatch batch])
                 (polls st) (saves st), classify_many W batch)
            else (st, Raise TypeError)) as Hmany.
  { unfold call_classifier_many. monad_unfold.
    by destruct (classifier (self st)). }
  unfold _classify_batch. unfold try_except at 1. unfold bind at 1.
  rewrite Hmany.
  destruct (classifier (self st)) eqn:Hc.
  - destruct (classify_many W batch) as [items | e]; [done |].
    rewrite retry_each_exact. simpl. rewrite Hc. by rewrite <- app_assoc.
  - by rewrite retry_each_exact, Hc.
Qed.

(** X13. The batch classification calls the classifier once for the whole
    batch and, only when that call raises, once more for each image, in
    input order: never more than one call and one per image. It changes
    nothing else. With no model loaded it calls nothing and every image
    gets the fallback result. *)
Theorem classify_batch_calls (W : World) (batch : list string) (st : State) :
  let r := _classify_batch W batch st in
  self r.1 = self st ∧ disk r.1 = disk st
  ∧ events r.1
    = events st
      ++ (if classifier (self st) then
            ClassifyBatch batch
            :: match classify_many W batch with
               | Ok _ => []
               | Raise _ => map ClassifyOne batch
               end
          else [])
  ∧ (length (filter is_classifier_call (events r.1))
     <= length (filter is_classifier_call (events st)) + 1 + length batch)%nat
  ∧ (classifier (self st) = false -> r.2 = Ok (map (fun _ => fallback) batch)).
Proof.
  intros r. subst r. rewrite classify_batch_exact.
  destruct (classifier (self st)).
  - destruct (classify_many W batch) as [items | e]; simpl.
    + split_and!; try done. rewrite filter_app, length_app. simpl. lia.
    + split_and!; try done. rewrite filter_app, length_app.
      rewrite filter_cons_True by done. simpl.
      pose proof (length_filter is_classifier_call (map ClassifyOne batch)) as Hle.
      rewrite length_map in Hle. lia.
  - simpl. rewrite app_nil_r. split_and!; try done. lia.
Qed.

(** ** Traces *)

Lemma checkpoints_extend_app (have : list Rec) (l1 l2 : list Event) :
  checkpoints_extend have (l1 ++ l2)
  = checkpoints_extend have l1 && checkpoints_extend (last_checkpoint have l1) l2.
Proof.
  revert have. induction l1 as [|e l1 IH]; intros have; [done |].
  destruct e; cbn [app checkpoints_extend last_checkpoint]; try apply IH.
  destruct (payload_records p) as [recs |]; [| done].
  simpl. by rewrite IH, andb_assoc.
Qed.

Lemma last_checkpoint_app (have : list Rec) (l1 l2 : list Event) :
  last_checkpoint have (l1 ++ l2) = last_checkpoint (last_checkpoint have l1) l2.
Proof.
  revert have. induction l1 as [|e l1 IH]; intros have; [done |].
  destruct e; cbn [app last_checkpoint]; apply IH.
Qed.

Lemma checkpoints_extend_from_less (h1 h2 : list Rec) (l : list Event) :
  h1 `prefix_of` h2 -> checkpoints_extend h2 l = true ->
  checkpoints_extend h1 l = true.
Proof.
  revert h1 h2. induction l as [|e l IH]; intros h1 h2 Hle; [done |].
  destruct e; cbn [checkpoints_extend]; try by apply IH.
  destruct (payload_records p) as [recs |]; [| done].
  intros [Hpre Hrest]%andb_prop. apply andb_true_intro. split; [| done].
  apply bool_decide_eq_true_2. apply bool_decide_eq_true_1 in Hpre. by etrans.
Qed.

Lemma last_checkpoint_from_less (h1 h2 hi : list Rec) (l : list Event) :
  h1 `prefix_of` h2 -> last_checkpoint h2 l `prefix_of` hi ->
  last_checkpoint h1 l `prefix_of` hi.
Proof.
  revert h1 h2. induction l as [|e l IH]; intros h1 h2 Hle.
  - simpl. intros Hhi. by etrans.
  - destruct e; cbn [last_checkpoint]; try by apply IH.
    destruct (payload_records p) as [recs |]; simpl; [| by apply IH].
    by apply IH.
Qed.

Lemma checkpoints_extend_last (have : list Rec) (l : list Event) :
  checkpoints_extend have l = true -> have `prefix_of` last_checkpoint have l.
Proof.
  revert have. induction l as [|e l IH]; intros have; [done |].
  destruct e; cbn [checkpoints_extend last_checkpoint]; try by apply IH.
  destruct (payload_records p) as [recs |]; [| done]. simpl.
  intros [Hpre Hrest]%andb_prop. apply bool_decide_eq_true_1 in Hpre.
  etrans; [exact Hpre | by apply IH].
Qed.

Lemma stretch_refl (total k : nat) (paths : list string) (U : gset string)
    (st : State) :
  stretch total k paths U st st.
Proof.
  intros HU. exists []. rewrite app_nil_r. by split_and!.
Qed.

Lemma stretch_trans (total k : nat) (paths : list string) (U : gset string)
    (st st1 st2 : State) :
  stretch total k paths U st st1 -> stretch total k paths U st1 st2 ->
  stretch total k paths U st st2.
Proof.
  intros H1 H2 HU.
  destruct (H1 HU) as (evs1 & Hev1 & Hall1 & Hcp1 & Hlast1 & HU1 & Hbs1 & Hc1).
  destruct (H2 HU1) as (evs2 & Hev2 & Hall2 & Hcp2 & Hlast2 & HU2 & Hbs2 & Hc2).
  exists (evs1 ++ evs2). split_and!.
  - by rewrite Hev2, Hev1, app_assoc.
  - by apply Forall_app.
  - rewrite checkpoints_extend_app, Hcp1. simpl.
    by apply (checkpoints_extend_from_less _ (records (self st1))).
  - rewrite last_checkpoint_app.
    by apply (last_checkpoint_from_less _ (records (self st1))).
  - done.
  - congruence.
  - congruence.
Qed.

(** A step that leaves the processor's records, paths and settings and the
    events as they are. *)
Lemma stretch_silent (total k : nat) (paths : list string) (U : gset string)
    (st st' : State) :
  events st' = events st -> records (self st') = records (self st) ->
  processed_paths (self st') = processed_paths (self st) ->
  batch_size (self st') = batch_size (self st) ->
  classifier (self st') = classifier (self st) ->
  stretch total k paths U st st'.
Proof.
  intros Hev Hr Hp Hbs Hc HU. exists []. rewrite app_nil_r, Hr, Hp.
  by split_and!.
Qed.

(** A step that only tells the outside something. *)
Lemma stretch_events (total k : nat) (paths : list string) (U : gset string)
    (st st' : State) (evs : list Event) :
  events st' = events st ++ evs -> self st' = self st ->
  Forall (loop_event total k paths (size U)) evs ->
  Forall (fun e => match e with CheckpointWritten _ => False | _ => True end) evs ->
  stretch total k paths U st st'.
Proof.
  intros Hev Hself Hall Hno HU. exists evs. rewrite Hself.
  assert (forall have, checkpoints_extend have evs = true
                       ∧ last_checkpoint have evs = have) as Hquiet.
  { clear Hev Hall. induction Hno as [|e evs He _ IH]; intros have; [done |].
    destruct e; cbn [checkpoints_extend last_checkpoint]; try apply IH. done. }
  destruct (Hquiet (records (self st))) as [Hcp Hlast].
  split_and!; try done. by rewrite Hlast.
Qed.

Lemma slice_elem_of {A} (l : list A) (i : nat) (k : Z) (x : A) :
  x ∈ Py.slice l i k -> x ∈ l.
Proof.
  unfold Py.slice. intros Hx.
  apply (subseteq_drop i l). by apply (subseteq_take _ _ _ Hx).
Qed.

(** The call of the classifier for a batch of the paths. *)
Lemma stretch_classify (W : World) (total k : nat) (paths : list string)
    (U : gset string) (batch : list string) (st : State) :
  batch <> [] -> (length batch <= k)%nat -> (forall p, p ∈ batch -> p ∈ paths) ->
  stretch total k paths U st (_classify_batch W batch st).1.
Proof.
  intros Hne Hlen Hsub. rewrite classify_batch_exact.
  destruct (classifier (self st)); [| apply stretch_refl].
  assert (Forall (loop_event total k paths (size U)) (map ClassifyOne batch))
    as Hones.
  { apply Forall_forall. intros e (p & -> & Hp)%list_elem_of_fmap.
    simpl. by apply Hsub. }
  assert (Forall (fun e => match e with CheckpointWritten _ => False | _ => True end)
            (map ClassifyOne batch)) as Hquiet.
  { apply Forall_forall. by intros e (p & -> & Hp)%list_elem_of_fmap. }
  destruct (classify_many W batch) as [items | e].
  - apply (stretch_events _ _ _ _ _ _ [ClassifyBatch batch]); try done.
    + by repeat constructor.
    + by repeat constructor.
  - apply (stretch_events _ _ _ _ _ _ (ClassifyBatch batch :: map ClassifyOne batch));
      try done.
    + by constructor.
    + by constructor.
Qed.

(** A save. *)
Lemma stretch_save (W : World) (total k : nat) (paths : list string)
    (U : gset string) (st : State) :
  stretch total k paths U st (_save_progress W st).1.
Proof.
  rewrite save_progress_exact.
  destruct (makedirs_ok W (saves st)); [| by apply stretch_silent].
  destruct (write_outcome W (saves st)).
  - intros HU. eexists [CheckpointWritten _]. simpl.
    split_and!; try done.
    + by repeat constructor.
    + unfold checkpoint_of. cbn [payload_records].
      by rewrite bool_decide_eq_true_2.
  - apply (stretch_events _ _ _ _ _ _ [PrintSaveError]); try done;
      by repeat constructor.
  - apply (stretch_events _ _ _ _ _ _ [PrintSaveError]); try done;
      by repeat constructor.
Qed.

(** The inner loop. *)
Lemma stretch_record_loop (W : World) (total k : nat) (paths : list string)
    (U : gset string) (results : list ClassificationResult)
    (batch : list string) :
  (forall p, p ∈ batch -> p ∈ U) ->
  forall (j : nat) (st : State),
  stretch total k paths U st (record_loop W total results j batch st).1.
Proof.
  induction batch as [|img_path rest IH]; intros Hsub j st.
  - apply stretch_refl.
  - cbn [record_loop]. unfold read_stop_flag, index. monad_unfold.
    destruct (stop_flag (self st) || stop_requested W (polls st));
      [by apply stretch_silent |].
    destruct (results !! j) as [result |]; [| by apply stretch_silent].
    simpl.
    match goal with |- context [record_loop W total results (S j) rest ?s] =>
      eapply (stretch_trans _ _ _ _ _ s); [| apply IH]
    end.
    + intros HU. simpl in *.
      assert (processed_paths (self st) ∪ {[img_path]} ⊆ U) as HU'.
      { apply union_subseteq. split; [done |].
        apply singleton_subseteq_l. apply Hsub. by left. }
      eexists [ProgressValue _; SetStatus (Processed _ total)].
      simpl. split_and!; try done.
      * by rewrite <- app_assoc.
      * repeat constructor; simpl; by apply subseteq_size.
      * by apply prefix_app_r.
    + intros p Hp. apply Hsub. by right.
Qed.

(** One iteration of the batch loop. *)
Lemma stretch_batch_iteration (W : World) (total k : nat) (paths : list string)
    (U : gset string) (i : nat) (st : State) :
  (0 < k)%nat -> batch_size (self st) = Z.of_nat k ->
  (i < length paths)%nat -> (forall p, p ∈ paths -> p ∈ U) ->
  stretch total k paths U st (batch_iteration W total paths i st).1.
Proof.
  intros Hk Hbs Hi Hsub. unfold batch_iteration.
  unfold bind at 1. unfold get_self. rewrite Hbs, slice_take_drop.
  set (batch := take k (drop i paths)).
  assert (batch <> []) as Hne.
  { unfold batch. intros Hnil. apply (f_equal length) in Hnil.
    rewrite length_take, length_drop in Hnil. simpl in Hnil. lia. }
  assert (length batch <= k)%nat as Hlen
    by (unfold batch; rewrite length_take; lia).
  assert (forall p, p ∈ batch -> p ∈ paths) as Hin.
  { intros p Hp. apply (subseteq_drop i paths).
    by apply (subseteq_take k _ _ Hp). }
  pose proof (stretch_classify W total k paths U batch st Hne Hlen Hin) as H1.
  destruct (classify_batch_run W batch st) as (st1 & results & Hrun & _).
  unfold bind at 1. rewrite Hrun in *. simpl in H1.
  pose proof (stretch_record_loop W total k paths U results batch
                ltac:(auto) 0%nat st1) as H2.
  unfold bind at 1.
  destruct (record_loop W total results 0 batch st1) as [st2 [[] | e]].
  - simpl in H2. eapply stretch_trans; [exact H1 |].
    eapply stretch_trans; [exact H2 | apply stretch_save].
  - simpl in *. by eapply stretch_trans.
Qed.

(** The batch loop. *)
Lemma stretch_batch_loop (W : World) (total k : nat) (paths : list string)
    (U : gset string) (starts : list nat) :
  (0 < k)%nat -> Forall (fun i => (i < length paths)%nat) starts ->
  (forall p, p ∈ paths -> p ∈ U) ->
  forall st : State,
  batch_size (self st) = Z.of_nat k ->
  stretch total k paths U st (batch_loop W total paths starts st).1.
Proof.
  intros Hk Hstarts Hsub.
  induction Hstarts as [|i starts Hi _ IH]; intros st Hbs.
  - apply stretch_refl.
  - cbn [batch_loop]. unfold read_stop_flag. monad_unfold.
    destruct (stop_flag (self st) || stop_requested W (polls st));
      [by apply stretch_silent |].
    match goal with |- context [batch_iteration W total paths i ?s] =>
      set (s0 := s);
      pose proof (stretch_batch_iteration W total k paths U i s0 Hk Hbs Hi Hsub)
        as Hiter
    end.
    assert (stretch total k paths U st s0) as Hstart by (by apply stretch_silent).
    destruct (batch_iteration W total paths i s0) as [st2 [[] | e]].
    + simpl in Hiter. intros HU.
      destruct (Hiter HU) as (_ & _ & _ & _ & _ & _ & Hbs2 & _).
      revert HU. eapply stretch_trans; [exact Hstart |].
      eapply stretch_trans; [exact Hiter |].
      apply IH. simpl in Hbs2. congruence.
    + simpl in *. by eapply stretch_trans.
Qed.

(** The starts of the batches are inside the list. *)
Lemma batch_starts_inside (n k : nat) :
  (0 < k)%nat ->
  Forall (fun i => (i < n)%nat)
    (map (fun q => (q * k)%nat) (seq 0 ((n + k - 1) / k))).
Proof.
  intros Hk. apply Forall_forall.
  intros i (q & -> & Hq)%list_elem_of_fmap.
  apply elem_of_seq in Hq as [_ Hq]. simpl in Hq.
  pose proof (Nat.Div0.mul_div_le (n + k - 1) k) as Hle.
  nia.
Qed.

(** Settles a membership in a list that is written out. *)
Ltac by_cases_of_list H :=
  rewrite ?elem_of_cons, ?elem_of_nil in H;
  repeat (destruct H as [-> | H]; [done |]); try done.

(** [_finalize_processing], as the outside sees it. *)
Lemma finalize_trace (W : World) (st : State) :
  exists fin,
    events (_finalize_processing W st).1 = events st ++ fin
    ∧ final_events (returned (_finalize_processing W st).2) (records (self st)) fin
    ∧ self (_finalize_processing W st).1 = self st.
Proof.
  rewrite finalize_exact. cbv zeta.
  destruct (excel_ok W (map export_row (records (self st)))).
  2:{ exists []. rewrite app_nil_r. split; [done |]. split; [| done].
      split_and!; try done. intros e He. by_cases_of_list He. }
  rewrite save_progress_exact. cbn [self disk events polls saves].
  destruct (makedirs_ok W (saves st)).
  2:{ eexists [Exported _]. split; [done |]. split; [| done].
      split_and!; try done. intros e He. by_cases_of_list He. }
  destruct (write_outcome W (saves st)).
  - eexists [Exported _; CheckpointWritten _; SetStatus ExportedToExcel;
             ShowInfo "Done"; EnableUI].
    cbn [fst snd self events returned].
    split; [by rewrite <- !app_assoc |]. split; [| done].
    split_and!; try done.
    + intros have Hpre. unfold checkpoint_of. cbn [checkpoints_extend payload_records].
      by rewrite bool_decide_eq_true_2.
    + intros e He. by_cases_of_list He.
  - eexists [Exported _; PrintSaveError; SetStatus ExportedToExcel;
             ShowInfo "Done"; EnableUI].
    cbn [fst snd self events returned].
    split; [by rewrite <- !app_assoc |]. split; [| done].
    split_and!; try done. intros e He. by_cases_of_list He.
  - eexists [Exported _; PrintSaveError; SetStatus ExportedToExcel;
             ShowInfo "Done"; EnableUI].
    cbn [fst snd self events returned].
    split; [by rewrite <- !app_assoc |]. split; [| done].
    split_and!; try done. intros e He. by_cases_of_list He.
Qed.

Lemma size_list_to_set_le (l : list string) :
  (size (list_to_set l : gset string) <= length l)%nat.
Proof.
  induction l as [|x l IH]; simpl; [done |].
  rewrite size_union_alt, size_singleton.
  pose proof (subseteq_size (list_to_set l ∖ {[x]}) (list_to_set l : gset string)
                ltac:(set_solver)).
  lia.
Qed.

Lemma size_union_le (X Y : gset string) :
  (size (X ∪ Y) <= size X + size Y)%nat.
Proof.
  rewrite size_union_alt.
  pose proof (subseteq_size (Y ∖ X) Y ltac:(set_solver)). lia.
Qed.

(** The batch loop and the finalisation after it, as the outside sees
    them. *)
Lemma loop_and_finalize_trace (W : World) (total : nat) (paths : list string)
    (U : gset string) (st st' : State) (o : outcome unit) :
  (forall p, p ∈ paths -> p ∈ U) -> processed_paths (self st) ⊆ U ->
  (let* starts := batch_starts paths in
   do* batch_loop W total paths starts in
   _finalize_processing W) st = (st', o) ->
  exists loop_evs fin,
    events st' = events st ++ loop_evs ++ fin
    ∧ Forall (loop_event total (Z.to_nat (batch_size (self st))) paths (size U))
             loop_evs
    ∧ checkpoints_extend (records (self st)) (loop_evs ++ fin) = true
    ∧ length (filter is_enable_ui fin) = (if returned o then 1 else 0)%nat
    ∧ (forall m rest, progress_within m (fin ++ rest) = progress_within m rest)
    ∧ (forall e, e ∈ fin -> is_classifier_call e = false)
    ∧ records (self st) `prefix_of` records (self st').
Proof.
  intros Hsub HU. unfold batch_starts. unfold bind at 1 2. unfold get_self.
  destruct (range0_cases (length paths) (batch_size (self st)))
    as [[Hbs ->] | Hstarts].
  { (* range() raises on a zero step *)
    intros [= <- <-]. exists [], []. simpl. rewrite app_nil_r.
    split_and!; try done. intros e He. by_cases_of_list He. }
  set (k := Z.to_nat (batch_size (self st))).
  assert (exists starts,
    Py.range0 (length paths) (batch_size (self st)) = Some starts
    ∧ stretch total k paths U st (batch_loop W total paths starts st).1)
    as (starts & -> & Hloop).
  { destruct Hstarts as [[Hneg ->] | (k' & Hk & Hbs & ->)].
    - exists []. split; [done | apply stretch_refl].
    - eexists. split; [done |].
      assert (k = k') as -> by (unfold k; lia).
      apply stretch_batch_loop; try done. by apply batch_starts_inside. }
  unfold ret. unfold bind at 1.
  destruct (Hloop HU) as (evs & Hev & Hall & Hcp & Hlast & _).
  pose proof (checkpoints_extend_last _ _ Hcp) as Hfirst.
  destruct (batch_loop W total paths starts st) as [st1 [[] | e]].
  - simpl in Hev, Hlast. intros Hfinal.
    destruct (finalize_trace W st1)
      as (fin & Hfin & (Hcount & Hprog & Hext & Hcalls) & Hself).
    rewrite Hfinal in Hfin, Hcount, Hself. simpl in Hfin, Hcount, Hself.
    exists evs, fin. split_and!; try done.
    + by rewrite Hfin, Hev, app_assoc.
    + rewrite checkpoints_extend_app, Hcp. simpl. by apply Hext.
    + rewrite Hself. by etrans.
  - intros [= <- <-]. exists evs, []. simpl in *. rewrite app_nil_r.
    split_and!; try done; [| by etrans]. intros e' He. by_cases_of_list He.
Qed.

Lemma loop_event_quiet (total k : nat) (paths : list string) (bound : nat)
    (evs : list Event) :
  Forall (loop_event total k paths bound) evs ->
  filter is_enable_ui evs = []
  ∧ (bound <= total ->
     forall rest, progress_within (Some total) (evs ++ rest)
                  = progress_within (Some total) rest)%nat.
Proof.
  induction 1 as [|e evs He _ [IHf IHp]]; [done |]. split.
  - rewrite filter_cons. destruct e; simpl in *; try done.
  - intros Hb rest. specialize (IHp Hb rest).
    destruct e; simpl in *; try done.
    + destruct msg; try done. destruct He as [-> Hd].
      rewrite IHp, Nat.eqb_refl.
      by rewrite (proj2 (Nat.leb_le _ _)) by lia.
    + rewrite IHp. by rewrite (proj2 (Nat.leb_le _ _)) by lia.
Qed.

(** The trace of a run that reaches the batch loop. *)
Lemma run_trace_of_loop (ok : bool) (base : list Rec) (total k : nat)
    (paths : list string) (bound v0 : nat) (sees : string -> Prop)
    (loading loop_evs fin : list Event) :
  loading = [] ∨ loading = [SetStatus LoadingModel; SetStatus ModelLoaded] ->
  (v0 <= total)%nat -> (bound <= total)%nat ->
  Forall (loop_event total k paths bound) loop_evs ->
  checkpoints_extend base (loop_evs ++ fin) = true ->
  length (filter is_enable_ui fin) = (if ok then 1 else 0)%nat ->
  (forall m rest, progress_within m (fin ++ rest) = progress_within m rest) ->
  (forall e, e ∈ fin -> is_classifier_call e = false) ->
  (forall p, p ∈ paths -> sees p) ->
  run_trace ok base k sees
    (loading ++ [ProgressMaximum total; ProgressValue v0] ++ loop_evs ++ fin).
Proof.
  intros Hloading Hv0 Hbound Hall Hcp Hcount Hprog Hcalls Hsees.
  destruct (loop_event_quiet _ _ _ _ _ Hall) as [Hquiet Hwithin].
  assert (forall e, e ∈ loading ++ [ProgressMaximum total; ProgressValue v0] ->
            is_classifier_call e = false) as Hpre.
  { intros e He. destruct Hloading as [-> | ->]; simpl in He; by_cases_of_list He. }
  split_and!.
  - rewrite !filter_app, !length_app, Hquiet, Hcount.
    by destruct Hloading as [-> | ->].
  - assert (progress_within (Some total) (loop_evs ++ fin) = true) as Hrest.
    { rewrite (Hwithin Hbound).
      rewrite <- (app_nil_r fin). by rewrite Hprog. }
    destruct Hloading as [-> | ->]; simpl; rewrite Hrest;
      by rewrite (proj2 (Nat.leb_le _ _)) by lia.
  - by destruct Hloading as [-> | ->].
  - intros e p He Hp. rewrite app_assoc in He.
    apply elem_of_app in He as [He | He].
    { apply Hpre in He.
      destruct e; simpl in *; try done; by_cases_of_list Hp. }
    apply elem_of_app in He as [He | He].
    + apply Hsees. rewrite Forall_forall in Hall. specialize (Hall e He).
      destruct e; simpl in *; by_cases_of_list Hp. by apply Hall.
    + apply Hcalls in He. destruct e; simpl in *; try done; by_cases_of_list Hp.
  - intros ps He. rewrite app_assoc in He.
    apply elem_of_app in He as [He | He].
    { by apply Hpre in He. }
    apply elem_of_app in He as [He | He].
    + rewrite Forall_forall in Hall. specialize (Hall _ He).
      simpl in Hall. by destruct Hall as (? & ? & _).
    + by apply Hcalls in He.
Qed.

(** The trace of a run that ends before the batch loop. *)
Lemma run_trace_without_calls (ok : bool) (base : list Rec) (k : nat)
    (sees : string -> Prop) (evs : list Event) :
  length (filter is_enable_ui evs) = (if ok then 1 else 0)%nat ->
  progress_within None evs = true ->
  checkpoints_extend base evs = true ->
  (forall e, e ∈ evs -> is_classifier_call e = false) ->
  run_trace ok base k sees evs.
Proof.
  intros Hcount Hprog Hcp Hcalls. split_and!; try done.
  - intros e p He Hp. apply Hcalls in He.
    destruct e; simpl in *; try done; by_cases_of_list Hp.
  - intros ps He. by apply Hcalls in He.
Qed.

(** The new run, as the outside sees it, whatever the outside answers. *)
Lemma process_new_trace (W : World) (st : State) :
  exists evs,
    events (process_new W st).1 = events st ++ evs
    ∧ run_trace (returned (process_new W st).2) []
        (Z.to_nat (batch_size (self st)))
        (fun p => exists root,
           root_folder (self st) = Some root ∧ p ∈ scan_all_images W root ∅)
        evs.
Proof.
  destruct (model_dir_exists W && pipeline_loads W) eqn:Hmodel.
  2:{ (* the model does not load *)
    rewrite process_new_no_model by done. eexists. split; [done |].
    apply run_trace_without_calls; try done.
    intros e He. by_cases_of_list He. }
  apply andb_prop in Hmodel.
  destruct (root_folder (self st)) as [root |] eqn:Hroot.
  2:{ (* os.walk(None) *)
    rewrite process_new_no_root by done. eexists. split; [done |].
    apply run_trace_without_calls; try done.
    intros e He. by_cases_of_list He. }
  destruct (scan_all_images W root ∅) as [|p0 rest] eqn:Hscan.
  { (* no image *)
    rewrite (process_new_no_image W st root) by done. eexists. split; [done |].
    apply run_trace_without_calls; try done.
    intros e He. by_cases_of_list He. }
  rewrite (process_new_to_loop W st root) by (done || by rewrite Hscan).
  rewrite Hscan. set (all := p0 :: rest).
  match goal with |- context [bind (batch_starts all) ?f ?s] =>
    destruct (bind (batch_starts all) f s) as [st' o] eqn:Hrun;
    destruct (loop_and_finalize_trace W (length all) all (list_to_set all)
                s st' o) as (loop_evs & fin & Hev & Hall & Hcp & Hcount
                             & Hprog & Hcalls & _);
      [by intros p Hp; apply elem_of_list_to_set | set_solver | exact Hrun |]
  end.
  cbn [self events records batch_size with_classifier with_processed_paths
       with_records with_stop_flag] in Hev, Hall, Hcp.
  exists ([SetStatus LoadingModel; SetStatus ModelLoaded]
          ++ [ProgressMaximum (length all); ProgressValue 0] ++ loop_evs ++ fin).
  split.
  { cbn [fst events]. rewrite Hev, <- !app_assoc. done. }
  cbn [snd].
  apply (run_trace_of_loop _ _ (length all) _ all (size (list_to_set all : gset string)) 0);
    try done; try lia.
  - by right.
  - apply size_list_to_set_le.
  - intros p Hp. exists root. split; [done |]. by rewrite Hscan.
Qed.

(** The resumed run, as the outside sees it, whatever the outside
    answers. *)
Lemma process_resume_trace (W : World) (st : State) :
  exists evs,
    events (process_resume W st).1 = events st ++ evs
    ∧ run_trace (returned (process_resume W st).2) (records (resumed st))
        (Z.to_nat (batch_size (resumed st)))
        (fun p => exists root,
           root_folder (resumed st) = Some root
           ∧ p ∈ scan_all_images W root ∅
           ∧ p ∉ processed_paths (resumed st))
        evs
    ∧ records (resumed st) `prefix_of` records (self (process_resume W st).1).
Proof.
  unfold resumed. destruct (disk st) as [| payload | c] eqn:Hdisk.
  { rewrite process_resume_no_file by done. eexists. split; [done |].
    split; [| done].
    apply run_trace_without_calls; try done.
    intros e He. by_cases_of_list He. }
  2:{ rewrite (process_resume_unreadable W st c) by done.
      eexists. split; [done |]. split; [| done].
      apply run_trace_without_calls; try done.
      intros e He. by_cases_of_list He. }
  assert ((classifier (self st) = true ∨ model_loads W)
          ∨ (classifier (self st) = false
             ∧ model_dir_exists W && pipeline_loads W = false)) as Hcases.
  { destruct (classifier (self st)); [by left; left |].
    unfold model_loads.
    destruct (model_dir_exists W), (pipeline_loads W); simpl; auto. }
  destruct Hcases as [Hready | [Hc Hmodel]].
  2:{ rewrite (process_resume_no_model W st payload) by done.
      eexists. split; [done |]. split; [| done].
      apply run_trace_without_calls; try done.
      intros e He. by_cases_of_list He. }
  set (loading := if classifier (self st) then []
                  else [SetStatus LoadingModel; SetStatus ModelLoaded]).
  assert (loading = []
          ∨ loading = [SetStatus LoadingModel; SetStatus ModelLoaded])
    as Hloading by (unfold loading; destruct (classifier (self st)); auto).
  destruct (root_folder (restore payload (self st))) as [root |] eqn:Hroot.
  2:{ rewrite (process_resume_no_root W st payload) by done.
      fold loading. exists loading. split; [done |]. split; [| done].
      apply run_trace_without_calls.
      - by destruct Hloading as [-> | ->].
      - by destruct Hloading as [-> | ->].
      - by destruct Hloading as [-> | ->].
      - intros e He. destruct Hloading as [Hl | Hl]; rewrite Hl in He;
          by_cases_of_list He. }
  rewrite (process_resume_to_loop W st payload root Hdisk Hready Hroot).
  fold loading.
  set (p := with_classifier true (restore payload (self st))).
  set (remaining := scan_all_images W root (processed_paths p)).
  set (total := (length remaining + size (processed_paths p))%nat).
  destruct (total =? 0)%nat.
  { exists (loading ++ [EnableUI; ShowInfo "Resume"]). split; [done |].
    split; [| done].
    apply run_trace_without_calls.
    - by destruct Hloading as [-> | ->].
    - by destruct Hloading as [-> | ->].
    - by destruct Hloading as [-> | ->].
    - intros e He. destruct Hloading as [Hl | Hl]; rewrite Hl in He;
        simpl in He; by_cases_of_list He. }
  match goal with |- context [bind (batch_starts remaining) ?f ?s] =>
    destruct (bind (batch_starts remaining) f s) as [st' o] eqn:Hrun;
    destruct (loop_and_finalize_trace W total remaining
                (processed_paths p ∪ list_to_set remaining) s st' o)
      as (loop_evs & fin & Hev & Hall & Hcp & Hcount & Hprog & Hcalls & Hkeep);
      [intros x Hx; apply elem_of_union_r; by apply elem_of_list_to_set
      | simpl; set_solver | exact Hrun |]
  end.
  cbn [self events] in Hev, Hall, Hcp, Hkeep.
  exists (loading ++ [ProgressMaximum total;
                      ProgressValue (size (processed_paths p))]
          ++ loop_evs ++ fin).
  split; [cbn [fst events]; rewrite Hev, <- !app_assoc; done |].
  cbn [fst snd]. split; [| exact Hkeep].
  apply (run_trace_of_loop _ _ total _ remaining
           (size (processed_paths p ∪ list_to_set remaining))
           (size (processed_paths p))); try done.
  - unfold total. lia.
  - unfold total.
    pose proof (size_union_le (processed_paths p) (list_to_set remaining)).
    pose proof (size_list_to_set_le remaining). lia.
  - intros x Hx. exists root. split; [done |].
    unfold remaining in Hx. rewrite scan_excluding in Hx.
    apply list_elem_of_filter in Hx as [Hnew Hin]. by split.
Qed.


(** X14. Each entry point enables the user interface exactly once when it
    returns, and not at all when it ends with an exception: a run that dies
    (of a zero batch size, of a root folder that was never set, of a
    classifier that gives too few results, of an output directory that
    cannot be made, of an export that fails) leaves the buttons disabled. *)
Theorem user_interface_enabled_on_return (W : World) (st : State) :
  (exists evs,
     events (process_new W st).1 = events st ++ evs
     ∧ length (filter is_enable_ui evs)
       = (if returned (process_new W st).2 then 1 else 0)%nat)
  ∧ (exists evs,
       events (process_resume W st).1 = events st ++ evs
       ∧ length (filter is_enable_ui evs)
         = (if returned (process_resume W st).2 then 1 else 0)%nat).
Proof.
  split.
  - destruct (process_new_trace W st) as (evs & Hev & Hcount & _). by exists evs.
  - destruct (process_resume_trace W st) as (evs & Hev & (Hcount & _) & _).
    by exists evs.
Qed.

(** X15. In every run the progress bar is given its maximum before any
    value, no value is above the maximum, and every status line counts the
    processed images out of that maximum, never more of them than there
    are; in the resumed run the images of the checkpoint are counted in
    both. *)
Theorem progress_keeps_within_maximum (W : World) (st : State) :
  (exists evs,
     events (process_new W st).1 = events st ++ evs
     ∧ progress_within None evs = true)
  ∧ (exists evs,
       events (process_resume W st).1 = events st ++ evs
       ∧ progress_within None evs = true).
Proof.
  split.
  - destruct (process_new_trace W st) as (evs & Hev & _ & Hprog & _). by exists evs.
  - destruct (process_resume_trace W st) as (evs & Hev & (_ & Hprog & _) & _).
    by exists evs.
Qed.

(** X16. The classifier is called on images of the scan only: in the new
    run on paths the scan of the root folder returns, in the resumed run on
    such paths that the checkpoint does not list as processed, so that no
    image of the checkpoint is classified again. Every batch handed to it
    has at least one path and at most the batch size. *)
Theorem classifier_is_given_new_images_only (W : World) (st : State) :
  (exists evs,
     events (process_new W st).1 = events st ++ evs
     ∧ (forall e p, e ∈ evs -> p ∈ classified e ->
          exists root,
            root_folder (self st) = Some root ∧ p ∈ scan_all_images W root ∅)
     ∧ (forall ps, ClassifyBatch ps ∈ evs ->
          ps <> [] ∧ (length ps <= Z.to_nat (batch_size (self st)))%nat))
  ∧ (exists evs,
       events (process_resume W st).1 = events st ++ evs
       ∧ (forall e p, e ∈ evs -> p ∈ classified e ->
            exists root,
              root_folder (resumed st) = Some root
              ∧ p ∈ scan_all_images W root ∅
              ∧ p ∉ processed_paths (resumed st))
       ∧ (forall ps, ClassifyBatch ps ∈ evs ->
            ps <> [] ∧ (length ps <= Z.to_nat (batch_size (resumed st)))%nat)).
Proof.
  split.
  - destruct (process_new_trace W st) as (evs & Hev & _ & _ & _ & Hsees & Hsize).
    by exists evs.
  - destruct (process_resume_trace W st)
      as (evs & Hev & (_ & _ & _ & Hsees & Hsize) & _).
    by exists evs.
Qed.

(** X17. No run loses a record: every checkpoint a run writes holds the
    records of the checkpoint written before it, followed by those built
    since, and in the resumed run the first one written holds the records
    that were loaded; the record list the resumed run ends with begins with
    the loaded records, in their order. *)
Theorem checkpoints_only_grow (W : World) (st : State) :
  (exists evs,
     events (process_new W st).1 = events st ++ evs
     ∧ checkpoints_extend [] evs = true)
  ∧ (exists evs,
       events (process_resume W st).1 = events st ++ evs
       ∧ checkpoints_extend (records (resumed st)) evs = true)
  ∧ records (resumed st) `prefix_of` records (self (process_resume W st).1).
Proof.
  split_and!.
  - destruct (process_new_trace W st) as (evs & Hev & _ & _ & Hcp & _).
    by exists evs.
  - destruct (process_resume_trace W st)
      as (evs & Hev & (_ & _ & Hcp & _) & _).
    by exists evs.
  - by destruct (process_resume_trace W st) as (evs & _ & _ & Hkeep).
Qed.

(** ** Runs that reach the export *)

(** The new run up to its finalisation, with a model that loads and an
    output directory that can be made. *)
(** ** One checkpoint for each batch *)

Lemma saved_each_batch_app (evs1 evs2 : list Event) :
  saved_each_batch evs1 -> saved_each_batch evs2 ->
  saved_each_batch (evs1 ++ evs2).
Proof.
  intros [H1 H1'] [H2 H2']. unfold saved_each_batch.
  rewrite !filter_app, !length_app, H1, H2, H1', H2'. done.
Qed.

Lemma no_batch_call_in_retries (batch : list string) :
  saved_each_batch (map ClassifyOne batch).
Proof.
  induction batch as [|p rest [IH IH']]; [done |].
  split; simpl; [exact IH | exact IH'].
Qed.

(** The inner loop shows the progress and nothing else. *)
Lemma record_loop_tally (W : World) (total : nat)
    (results : list ClassificationResult) (batch : list string) :
  forall (j : nat) (st : State),
  exists evs,
    events (record_loop W total results j batch st).1 = events st ++ evs
    ∧ saved_each_batch evs
    ∧ classifier (self (record_loop W total results j batch st).1)
      = classifier (self st).
Proof.
  induction batch as [|img_path rest IH]; intros j st.
  - exists []. by rewrite app_nil_r.
  - cbn [record_loop]. unfold read_stop_flag, index. monad_unfold.
    destruct (stop_flag (self st) || stop_requested W (polls st));
      [exists []; by rewrite app_nil_r |].
    destruct (results !! j) as [result |];
      [| exists []; by rewrite app_nil_r].
    simpl.
    match goal with |- context [record_loop W total results (S j) rest ?s] =>
      destruct (IH (S j) s) as (evs & Hev & Hs & Hc)
    end.
    rewrite Hev, Hc. simpl.
    eexists ([ProgressValue _; SetStatus (Processed _ total)] ++ evs).
    split; [by rewrite <- !app_assoc |]. split; [| done].
    by apply (saved_each_batch_app [_; _] evs).
Qed.

(** An iteration that returns has handed one batch to the classifier and
    written one checkpoint. *)
Lemma batch_iteration_tally (W : World) (total : nat) (paths : list string)
    (i : nat) (st st' : State) :
  classifier (self st) = true -> store_works W ->
  batch_iteration W total paths i st = (st', Ok tt) ->
  exists evs,
    events st' = events st ++ evs
    ∧ saved_each_batch evs
    ∧ classifier (self st') = true.
Proof.
  intros Hc Hstore Hrun. unfold batch_iteration in Hrun.
  unfold bind at 1 in Hrun. unfold get_self in Hrun.
  set (batch := Py.slice paths i (batch_size (self st))) in Hrun.
  unfold bind at 1 in Hrun. rewrite classify_batch_exact, Hc in Hrun.
  assert (exists evs1 results,
            (match classify_many W batch with
             | Ok items =>
                 (mkState (self st) (disk st) (events st ++ [ClassifyBatch batch])
                    (polls st) (saves st), Ok (map normalize items))
             | Raise _ =>
                 (mkState (self st) (disk st)
                    (events st ++ ClassifyBatch batch :: map ClassifyOne batch)
                    (polls st) (saves st), Ok (map (per_image W) batch))
             end)
            = (mkState (self st) (disk st) (events st ++ ClassifyBatch batch :: evs1)
                 (polls st) (saves st), Ok results)
            ∧ saved_each_batch evs1) as (evs1 & results & Heq & Hs1).
  { destruct (classify_many W batch) as [items | e].
    - by exists [], (map normalize items).
    - exists (map ClassifyOne batch), (map (per_image W) batch).
      split; [done | apply no_batch_call_in_retries]. }
  rewrite Heq in Hrun. clear Heq.
  unfold bind at 1 in Hrun.
  match type of Hrun with context [record_loop W total results 0 batch ?s] =>
    destruct (record_loop_tally W total results batch 0 s)
      as (evs2 & Hev2 & Hs2 & Hc2)
  end.
  destruct (record_loop W total results 0 batch _) as [st2 [[] | e]];
    [| discriminate].
  simpl in Hev2, Hc2.
  rewrite save_progress_exact in Hrun.
  destruct (Hstore (saves st2)) as [Hdir Hwrite].
  rewrite Hdir, Hwrite in Hrun. injection Hrun as <-.
  exists ([ClassifyBatch batch] ++ evs1 ++ evs2
          ++ [CheckpointWritten (checkpoint_of (self st2) (clock W (saves st2)))]).
  cbn [events self]. split; [by rewrite Hev2, <- !app_assoc |].
  split; [| congruence].
  destruct Hs1 as [H1 H1'], Hs2 as [H2 H2']. unfold saved_each_batch.
  rewrite !filter_app, !length_app, H1, H2, H1', H2'. simpl.
  split; [lia | done].
Qed.

(** So has the loop, for each of its iterations. *)
Lemma batch_loop_tally (W : World) (total : nat) (paths : list string)
    (starts : list nat) :
  forall st st' : State,
  classifier (self st) = true -> store_works W ->
  batch_loop W total paths starts st = (st', Ok tt) ->
  exists evs,
    events st' = events st ++ evs
    ∧ saved_each_batch evs
    ∧ classifier (self st') = true.
Proof.
  induction starts as [|i starts IH]; intros st st' Hc Hstore Hrun.
  - injection Hrun as <-. exists []. by rewrite app_nil_r.
  - cbn [batch_loop] in Hrun. unfold read_stop_flag in Hrun.
    monad_unfold_in Hrun.
    destruct (stop_flag (self st) || stop_requested W (polls st)).
    { injection Hrun as <-. exists []. by rewrite app_nil_r. }
    match type of Hrun with context [batch_iteration W total paths i ?s] =>
      set (s0 := s) in Hrun;
      pose proof (batch_iteration_tally W total paths i s0) as Hiter
    end.
    destruct (batch_iteration W total paths i s0) as [st2 [[] | e]];
      [| discriminate].
    destruct (Hiter st2 Hc Hstore eq_refl) as (evs1 & Hev1 & Hs1 & Hc1).
    simpl in Hev1.
    destruct (IH st2 st' Hc1 Hstore Hrun) as (evs2 & Hev2 & Hs2 & Hc2).
    exists (evs1 ++ evs2). split; [by rewrite Hev2, Hev1, <- app_assoc |].
    split; [by apply saved_each_batch_app | done].
Qed.

Lemma process_new_before_finalize (W : World)
    (scored : string -> ClassificationResult) (st : State) (root : string)
    (k : nat) :
  model_loads W -> scoring_by W scored -> (forall s, makedirs_ok W s = true) ->
  root_folder (self st) = Some root ->
  batch_size (self st) = Z.of_nat k -> (0 < k)%nat ->
  let all := scan_all_images W root ∅ in
  all <> [] ->
  exists m st1,
    process_new W st = _finalize_processing W st1
    ∧ records (self st1)
      = map (record_of W (conf_threshold (self st)) scored) (take m all)
    ∧ processed_paths (self st1) = list_to_set (take m all)
    ∧ (never_stopped W -> take m all = all)
    ∧ (store_works W ->
       (records (self st1) = [] ∧ disk st1 = disk st) ∨ checkpointed st1)
    ∧ (store_works W ->
       exists evs, events st1 = events st ++ evs ∧ saved_each_batch evs).
Proof.
  intros Hmodel Hsc Hdir Hroot Hbs Hk all Hall.
  rewrite (process_new_to_loop W st root Hmodel Hroot Hall). fold all.
  match goal with |- context [bind (batch_starts all) ?f ?s] =>
    set (s0 := s)
  end.
  erewrite bind_ok by (by apply (batch_starts_run all s0 k)).
  destruct (batch_loop_growth W (length all) all k Hk
              ((length all + k - 1) / k) 0 s0 Hbs)
    as (m & recs & st1 & o1 & Hloop & Hgrow & _ & Hrecs & Hok & Hnever & Hcp & _).
  rewrite drop_0 in *.
  specialize (Hrecs scored Hsc eq_refl). subst recs.
  specialize (Hok (scoring_by_contract W scored Hsc) Hdir). subst o1.
  erewrite bind_ok by exact Hloop.
  destruct Hgrow as (Hr & Hp & _). simpl in Hr, Hp.
  exists m, st1. split; [done |]. split_and!.
  - done.
  - by rewrite Hp, processed_of_records, union_empty_l_L.
  - intros Hns. destruct (Hnever Hns eq_refl) as [_ Hfull].
    rewrite (Hfull eq_refl). apply take_ge. by apply batches_cover.
  - intros Hstore. destruct (Hcp eq_refl Hstore) as [[Hnil Hd] | Hcheck].
    + left. split; [| done]. apply length_zero_iff_nil.
      apply (f_equal length) in Hnil. rewrite length_map in Hnil.
      rewrite Hr. simpl. rewrite length_map. exact Hnil.
    + by right.
  - intros Hstore.
    destruct (batch_loop_tally W _ _ _ s0 st1 eq_refl Hstore Hloop)
      as (evs & Hev & Hs & _).
    simpl in Hev.
    exists ([SetStatus LoadingModel; SetStatus ModelLoaded;
             ProgressMaximum (length all); ProgressValue 0] ++ evs).
    split; [by rewrite Hev, <- app_assoc |].
    by apply (saved_each_batch_app _ evs).
Qed.

(** X18. A new run that nobody stops, with a model that loads, a
    classifier that gives each image its result, and a checkpoint store and
    an exporter that work, returns having exported one row per scanned
    image, in scan order, each the record of its image without the path;
    the checkpoint file it leaves holds all these records and lists every
    scanned path as processed. *)
Theorem new_run_exports_every_image (W : World)
    (scored : string -> ClassificationResult) (st : State) (root : string)
    (k : nat) :
  model_loads W -> store_works W -> scoring_by W scored -> never_stopped W ->
  (forall rows, excel_ok W rows = true) ->
  root_folder (self st) = Some root ->
  batch_size (self st) = Z.of_nat k -> (0 < k)%nat ->
  let all := scan_all_images W root ∅ in
  let recs := map (record_of W (conf_threshold (self st)) scored) all in
  all <> [] ->
  exists st' t,
    process_new W st = (st', Ok tt)
    ∧ records (self st') = recs
    ∧ map Path (records (self st')) = all
    ∧ Exported (map export_row recs) ∈ events st'
    ∧ length (map export_row recs) = length all
    ∧ disk st' = Stored (checkpoint_of (self st') t)
    ∧ processed_paths (self st') = list_to_set all.
Proof.
  intros Hmodel Hstore Hsc Hns Hexcel Hroot Hbs Hk all recs Hall.
  destruct (process_new_before_finalize W scored st root k Hmodel Hsc
              ltac:(intros s; apply Hstore) Hroot Hbs Hk Hall)
    as (m & st1 & -> & Hr & Hp & Hfull & _).
  fold all in Hr, Hp, Hfull. rewrite (Hfull Hns) in Hr, Hp. fold recs in Hr.
  rewrite finalize_exact. cbv zeta. rewrite Hexcel, save_progress_exact.
  cbn [saves]. destruct (Hstore (saves st1)) as [-> ->].
  cbn [self disk events polls saves].
  eexists _, _. split; [reflexivity |]. cbn [self events disk].
  split_and!; try done.
  - rewrite Hr. apply processed_of_records.
  - rewrite Hr. set_solver.
  - unfold recs. by rewrite !length_map.
Qed.

(** The example installation, run to its end in batches of two. *)
Lemma new_run_exports_every_image_example :
  exists st' : State,
    process_new (Example.world Example.no_stop)
      (Example.start Example.configured NoFile) = (st', Ok tt)
    ∧ map Path (records (self st'))
      = [Example.deer1; Example.deer2; Example.fox4; Example.fox5; Example.fox6].
Proof.
  destruct (new_run_exports_every_image (Example.world Example.no_stop)
              Example.scored (Example.start Example.configured NoFile)
              "/data" 2)
    as (st' & t & Hrun & _ & Hpaths & _).
  - split; reflexivity.
  - apply example_store_works.
  - apply example_scoring.
  - intros n. reflexivity.
  - intros rows. reflexivity.
  - reflexivity.
  - reflexivity.
  - lia.
  - vm_compute. discriminate.
  - exists st'. split; [exact Hrun |]. rewrite Hpaths. vm_compute. reflexivity.
Defined.

(** X19. When the export fails, the new run ends with the exception of
    the exporter, whatever its kind, before the final save and without
    enabling the user interface again: it has written one checkpoint for
    each batch it handed to the classifier and none after. Nothing is lost:
    with a checkpoint store that works, the checkpoint file left by the
    last batch holds every record the run has built, all the records of
    the scan when nobody stopped the run. *)
Theorem failed_export_loses_no_record (W : World)
    (scored : string -> ClassificationResult) (st : State) (root : string)
    (k : nat) :
  model_loads W -> store_works W -> scoring_by W scored ->
  (forall rows, excel_ok W rows = false) ->
  root_folder (self st) = Some root ->
  batch_size (self st) = Z.of_nat k -> (0 < k)%nat ->
  let all := scan_all_images W root ∅ in
  all <> [] ->
  exists st' m evs,
    process_new W st
    = (st', Raise (excel_error W (map export_row (records (self st')))))
    ∧ records (self st')
      = map (record_of W (conf_threshold (self st)) scored) (take m all)
    ∧ (never_stopped W -> take m all = all)
    ∧ ((records (self st') = [] ∧ disk st' = disk st) ∨ checkpointed st')
    ∧ events st' = events st ++ evs
    ∧ filter is_enable_ui evs = []
    ∧ length (filter is_checkpoint_written evs)
      = length (filter is_batch_call evs).
Proof.
  intros Hmodel Hstore Hsc Hexcel Hroot Hbs Hk all Hall.
  destruct (process_new_before_finalize W scored st root k Hmodel Hsc
              ltac:(intros s; apply Hstore) Hroot Hbs Hk Hall)
    as (m & st1 & -> & Hr & _ & Hfull & Hcp & Hev).
  destruct (Hev Hstore) as (evs & Hevs & Hsaved & Hui).
  rewrite finalize_exact. cbv zeta. rewrite Hexcel.
  exists st1, m, evs. split_and!; try done. by apply Hcp.
Qed.

(** The example installation with an exporter that cannot write its file:
    the run dies of the exporter's [OSError] with the buttons disabled,
    after a checkpoint for each of its three batches, and its five records
    are in the checkpoint file. *)
Lemma failed_export_example :
  let W := Example.world Example.no_stop in
  let W' := mkWorld (fs_dir W) (getexif W) (classify_many W) (classify_one W)
              true true Example.no_stop (fun _ => true) (clock W)
              (fun _ => WriteOk) (fun _ => false) (fun _ => OSError) in
  let st' := (process_new W' (Example.start Example.configured NoFile)).1 in
  (process_new W' (Example.start Example.configured NoFile)).2 = Raise OSError
  ∧ length (records (self st')) = 5%nat
  ∧ checkpointed st'
  ∧ filter is_enable_ui (events st') = []
  ∧ length (filter is_checkpoint_written (events st')) = 3%nat.
Proof.
  intros W W' st'.
  destruct (failed_export_loses_no_record W' Example.scored
              (Example.start Example.configured NoFile) "/data" 2)
    as (st1 & m & evs & Hrun & Hr & Hfull & Hcp & Hev & Hui & Hsaved).
  - split; reflexivity.
  - intros n. split; reflexivity.
  - apply (example_scoring Example.no_stop).
  - intros rows. reflexivity.
  - reflexivity.
  - reflexivity.
  - lia.
  - vm_compute. discriminate.
  - subst st'. rewrite Hrun. cbn [fst snd]. simpl in Hev. subst evs.
    split; [reflexivity |]. split_and!.
    + rewrite Hr, length_map, Hfull by (intros n; reflexivity).
      vm_compute. reflexivity.
    + destruct Hcp as [[Hnil _] | Hcp]; [| exact Hcp].
      rewrite Hr, Hfull in Hnil by (intros n; reflexivity).
      vm_compute in Hnil. discriminate.
    + exact Hui.
    + rewrite Hsaved.
      assert (events st1
              = events (process_new W' (Example.start Example.configured NoFile)).1)
        as -> by (by rewrite Hrun).
      vm_compute. reflexivity.
Defined.

(** ** Results that are missing *)

(** The inner loop with fewer results than images, when nobody stops the
    run: it builds the records of the images that have a result and raises
    at the first one that has none. *)
Lemma record_loop_short_of_results (W : World) (total : nat)
    (results : list ClassificationResult) (batch : list string) :
  never_stopped W ->
  forall (j : nat) (st : State),
  stop_flag (self st) = false ->
  (length (drop j results) < length batch)%nat ->
  exists st',
    record_loop W total results j batch st = (st', Raise IndexError)
    ∧ grown_by (built W (conf_threshold (self st))
                  (take (length (drop j results)) batch) (drop j results))
               (self st) (self st')
    ∧ disk st' = disk st ∧ saves st' = saves st.
Proof.
  intros Hns. induction batch as [|img_path rest IH]; intros j st Hflag Hshort.
  - simpl in Hshort. lia.
  - cbn [record_loop]. unfold read_stop_flag, index. monad_unfold.
    rewrite Hflag, (Hns (polls st)). simpl.
    destruct (results !! j) as [result |] eqn:Hj.
    2:{ apply lookup_ge_None in Hj. rewrite drop_ge by lia.
        eexists. split; [reflexivity |]. simpl. split_and!; try done.
        apply grown_by_stop_flag, grown_by_refl. }
    simpl. rewrite (drop_S _ _ _ Hj) in *. simpl in Hshort.
    match goal with |- context [record_loop W total results (S j) rest ?s] =>
      destruct (IH (S j) s eq_refl ltac:(lia))
        as (st' & Hrun & Hgrow & Hdisk & Hsaves)
    end.
    rewrite Hrun. exists st'. split; [done |]. simpl in *.
    split_and!; try done.
    change (?r :: built W ?th ?ps ?rs) with ([r] ++ built W th ps rs).
    eapply grown_by_trans; [| exact Hgrow].
    unfold grown_by. simpl. rewrite ?record_path, union_empty_r_L. done.
Qed.

(** X20. The results are matched to the images of a batch by position.
    When the classifier returns fewer items for a batch than it was given
    paths (and nobody stops the run), the iteration builds the records of
    the images that have a result and raises an [IndexError] at the first
    image that has none: the save of that batch is not reached, so these
    records are in no checkpoint, and the checkpoint file is as the batch
    before left it. *)
Theorem too_few_results_raise (W : World) (total : nat) (paths : list string)
    (i : nat) (st : State) (items : list pyval) :
  classifier (self st) = true -> stop_flag (self st) = false ->
  never_stopped W ->
  let batch := Py.slice paths i (batch_size (self st)) in
  classify_many W batch = Ok items ->
  (length items < length batch)%nat ->
  exists st',
    batch_iteration W total paths i st = (st', Raise IndexError)
    ∧ records (self st')
      = records (self st)
        ++ built W (conf_threshold (self st)) (take (length items) batch)
             (map normalize items)
    ∧ length (records (self st'))
      = (length (records (self st)) + length items)%nat
    ∧ disk st' = disk st ∧ saves st' = saves st.
Proof.
  intros Hc Hflag Hns batch Hmany Hshort.
  set (st1 := mkState (self st) (disk st) (events st ++ [ClassifyBatch batch])
                (polls st) (saves st)).
  destruct (record_loop_short_of_results W total (map normalize items) batch
              Hns 0%nat st1)
    as (st' & Hrun & Hgrow & Hdisk & Hsaves);
    [done | by rewrite drop_0, length_map |].
  unfold batch_iteration.
  erewrite (bind_ok get_self) by reflexivity. cbv zeta. fold batch.
  erewrite (bind_ok (_classify_batch W batch))
    by (rewrite classify_batch_exact, Hc, Hmany; reflexivity).
  fold st1. erewrite bind_raise by exact Hrun.
  exists st'. rewrite drop_0, length_map in Hgrow.
  destruct Hgrow as (Hr & _). simpl in Hr, Hdisk, Hsaves.
  split_and!; try done.
  rewrite Hr, length_app. f_equal. unfold built.
  rewrite length_zip_with, length_take, length_map. lia.
Qed.

(** A classifier that answers a batch of two with one item: the run of
    the example builds one record and dies. *)
Lemma too_few_results_example :
  let W := Example.world Example.no_stop in
  let W' := mkWorld (fs_dir W) (getexif W)
              (fun paths => Ok (take 1 (map (fun _ => VOther) paths)))
              (classify_one W) true true Example.no_stop (fun _ => true)
              (clock W) (fun _ => WriteOk) (fun _ => true)
              (fun _ => OSError) in
  let st := mkState (with_classifier true Example.configured) NoFile [] 0 0 in
  exists st',
    batch_iteration W' 5 [Example.deer1; Example.deer2] 0 st
    = (st', Raise IndexError)
    ∧ length (records (self st')) = 1%nat ∧ disk st' = NoFile.
Proof.
  intros W W' st.
  destruct (too_few_results_raise W' 5 [Example.deer1; Example.deer2] 0 st
              [VOther] eq_refl eq_refl ltac:(intros n; reflexivity) eq_refl
              ltac:(simpl; lia))
    as (st' & Hrun & _ & Hlen & Hdisk & _).
  exists st'. by split_and!.
Defined.

(** ** Scores and thresholds that are not numbers *)

Lemma ltb_nan_r (x : float) : PrimFloat.ltb x nan = false.
Proof.
  rewrite FloatAxioms.ltb_spec.
  change (FloatOps.Prim2SF nan) with SpecFloat.S754_nan.
  unfold SpecFloat.SFltb, SpecFloat.SFcompare.
  destruct (FloatOps.Prim2SF x) as [ | | | [] ? ?]; reflexivity.
Qed.

Lemma ltb_nan_l (x : float) : PrimFloat.ltb nan x = false.
Proof.
  rewrite FloatAxioms.ltb_spec.
  change (FloatOps.Prim2SF nan) with SpecFloat.S754_nan.
  reflexivity.
Qed.

(** X21. The threshold is applied with [<] on floats, which is false
    whenever one side is not a number: a result whose score is NaN keeps
    the name of its label under every threshold, and under a threshold
    that is NaN every result keeps the name of its label, whatever its
    score. *)
Theorem nan_is_never_below_threshold (result : ClassificationResult)
    (th : float) :
  (score result = Some nan -> animal_name result th = first_segment result)
  ∧ animal_name result nan = first_segment result.
Proof.
  unfold animal_name, result_score. split.
  - intros ->. simpl. by rewrite ltb_nan_l.
  - by rewrite ltb_nan_r.
Qed.

(** The label deer scored NaN is deer under the threshold 0.85. *)
Lemma nan_score_example :
  animal_name (mkResult (Some "deer") (Some nan)) 0x1.b333333333333p-1%float
  = "deer".
Proof.
  exact (proj1 (nan_is_never_below_threshold
                  (mkResult (Some "deer") (Some nan))
                  0x1.b333333333333p-1%float) eq_refl).
Defined.

(** ** What a run takes from the processor *)

(** X22. A new run starts from a clean slate: nothing of it depends on
    the records, the processed paths or the stop flag the processor had
    (from a run before it in the session, say), so no record of an earlier
    run finds its way into a new one. A resumed run that reads a checkpoint
    this program wrote takes its records, processed paths, root folder,
    batch size and threshold from the file alone: what the processor had of
    them, the values of [set_params] included, makes no difference. *)
Theorem runs_start_from_a_clean_slate (W : World) (st : State) :
  (forall (flag : bool) (recs : list Rec) (paths : gset string),
     process_new W
       (mkState (with_processed_paths paths
                   (with_records recs (with_stop_flag flag (self st))))
          (disk st) (events st) (polls st) (saves st))
     = process_new W st)
  ∧ (forall p t (recs : list Rec) (paths : gset string) (root : option string)
            (bs : Z) (th : float),
       disk st = Stored (checkpoint_of p t) ->
       process_resume W
         (mkState (mkProcessor (classifier (self st)) (stop_flag (self st))
                     recs paths root bs th)
            (disk st) (events st) (polls st) (saves st))
       = process_resume W st).
Proof.
  split.
  - intros flag recs paths.
    destruct (model_dir_exists W && pipeline_loads W) eqn:Hmodel.
    + apply andb_prop in Hmodel. by rewrite !process_new_to_scan.
    + by rewrite !process_new_no_model.
  - intros p t recs paths root bs th Hdisk. unfold process_resume.
    erewrite bind_ok
      by (unfold _load_progress; monad_unfold; simpl; rewrite Hdisk; reflexivity).
    symmetry. erewrite bind_ok
      by (unfold _load_progress; monad_unfold; simpl; rewrite Hdisk; reflexivity).
    rewrite !restore_checkpoint, ?Hdisk. reflexivity.
Qed.

(** In the example, a new run after a run that was stopped ends as a new
    run at first launch does. *)
Lemma clean_slate_example :
  let W := Example.world Example.no_stop in
  let st := (process_new (Example.world (Example.stop_at 2))
               (Example.start Example.configured NoFile)).1 in
  records (self (process_new W (mkState (self st) NoFile [] 0 0)).1)
  = records (self (process_new W (Example.start Example.configured NoFile)).1).
Proof.
  intros W st.
  assert (process_new W (mkState (self st) NoFile [] 0 0)
          = process_new W
              (Example.start (with_classifier true Example.configured) NoFile))
    as ->.
  { assert (self st
            = with_processed_paths (processed_paths (self st))
                (with_records (records (self st))
                   (with_stop_flag (stop_flag (self st))
                      (with_classifier true Example.configured)))) as ->
      by (vm_compute; reflexivity).
    exact (proj1 (runs_start_from_a_clean_slate W
                    (Example.start (with_classifier true Example.configured)
                       NoFile)) _ _ _). }
  vm_compute. reflexivity.
Defined.

(** ** The application *)

Lemma buttons_enabled_app (now : bool) (l1 l2 : list Act) :
  buttons_enabled now (l1 ++ l2) = buttons_enabled (buttons_enabled now l1) l2.
Proof.
  revert now. induction l1 as [|a l1 IH]; intros now; [done |].
  destruct a as [[] | | | | | | |]; simpl; apply IH.
Qed.

Lemma buttons_enabled_tell (now : bool) (evs : list Event) :
  buttons_enabled now (map Tell evs)
  = match length (filter is_enable_ui evs) with
    | O => now
    | S _ => true
    end.
Proof.
  revert now. induction evs as [|e evs IH]; intros now; [done |].
  destruct e; simpl; rewrite ?filter_cons; simpl; rewrite IH; try done.
  by destruct (length (filter is_enable_ui evs)).
Qed.

(** What a call of the processor tells, when the processor added [evs] to
    its events. *)
Lemma call_tells {A} (m : M A) (app : App) (st' : State) (o : outcome A)
    (evs : list Event) :
  m (core app) = (st', o) -> events st' = events (core app) ++ evs ->
  call m app = (mkApp st' (acts app ++ map Tell evs), o).
Proof.
  intros Hrun Hev. unfold call. rewrite Hrun. simpl.
  by rewrite Hev, drop_app_length.
Qed.

Lemma run_thread_acts (m : M unit) (app : App) (evs : list Event) :
  events (m (core app)).1 = events (core app) ++ evs ->
  run_thread m app
  = mkApp (m (core app)).1 (acts app ++ [StartThread] ++ map Tell evs).
Proof.
  intros Hev. unfold run_thread.
  rewrite (call_tells m (act StartThread app) (m (core app)).1 (m (core app)).2 evs).
  - simpl. by rewrite <- app_assoc.
  - simpl. apply surjective_pairing.
  - exact Hev.
Qed.

(** [start_new] when it starts the thread. *)
Lemma start_new_launches (W : World) (d : Desk) (app : App) (bs : Z)
    (th : float) :
  path_entry d <> EmptyString ->
  batch_entry d = Some bs -> conf_entry d = Some th ->
  (progress_file_exists (core app) = true -> answers_yes d = true) ->
  let st0 := at_launch d bs th (core app) in
  exists evs,
    events (process_new W st0).1 = events (core app) ++ evs
    ∧ length (filter is_enable_ui evs)
      = (if returned (process_new W st0).2 then 1 else 0)%nat
    ∧ start_new W d app
      = mkApp (process_new W st0).1
          (acts app
             ++ (if progress_file_exists (core app)
                 then [AskYesNo "Start New"; RemoveProgressFile] else [])
             ++ [DisableUI; StatusText "Starting new processing..."; StartThread]
             ++ map Tell evs).
Proof.
  intros Hfolder Hbs Hth Hyes st0.
  destruct (process_new_trace W st0) as (evs & Hev & Hcount & _).
  exists evs. split; [exact Hev |]. split; [exact Hcount |].
  unfold start_new. rewrite Hbs, Hth.
  destruct (String.eqb_spec (path_entry d) EmptyString) as [? | _]; [done |].
  unfold st0, at_launch in *.
  destruct (progress_file_exists (core app)) eqn:Hfile.
  - rewrite (Hyes eq_refl). cbn [negb].
    unfold remove_progress_file.
    destruct (remove_ok d) eqn:Hrm.
    + erewrite run_thread_acts.
      * unfold call, act, set_params, set_disk, modify_self. simpl.
        rewrite !drop_all. simpl. rewrite !app_nil_r, <- !app_assoc. done.
      * unfold call, act, set_params, set_disk, modify_self. simpl. exact Hev.
    + erewrite run_thread_acts.
      * unfold call, act, set_params, modify_self. simpl.
        rewrite !drop_all. simpl. rewrite !app_nil_r, <- !app_assoc. done.
      * unfold call, act, set_params, modify_self. simpl. exact Hev.
  - erewrite run_thread_acts.
    + unfold call, act, set_params, modify_self. simpl.
      rewrite !drop_all. simpl. rewrite !app_nil_r, <- !app_assoc. done.
    + unfold call, act, set_params, modify_self. simpl. exact Hev.
Qed.

(** X23. After Start or Resume through the application the buttons are
    enabled again exactly when the worker thread returns: the callback
    disables them before it starts the thread, and the thread enables them
    only on its way out. A thread that ends with an exception, as with the
    batch size 0 typed into the form, leaves them disabled, the Stop button
    included. [start_new] hands the processor the folder, the batch size
    and the threshold as typed, with no check of their values. *)
Theorem buttons_enabled_when_the_worker_returns (W : World) (d : Desk)
    (app : App) :
  (forall bs th,
     path_entry d <> EmptyString ->
     batch_entry d = Some bs -> conf_entry d = Some th ->
     (progress_file_exists (core app) = true -> answers_yes d = true) ->
     let st0 := at_launch d bs th (core app) in
     core (start_new W d app) = (process_new W st0).1
     ∧ forall now,
         buttons_enabled now (acts (start_new W d app))
         = returned (process_new W st0).2)
  ∧ (progress_file_exists (core app) = true ->
     core (resume_previous W app) = (process_resume W (core app)).1
     ∧ forall now,
         buttons_enabled now (acts (resume_previous W app))
         = returned (process_resume W (core app)).2).
Proof.
  split.
  - intros bs th Hfolder Hbs Hth Hyes st0.
    destruct (start_new_launches W d app bs th Hfolder Hbs Hth Hyes)
      as (evs & _ & Hcount & ->).
    fold st0 in Hcount |- *. split; [done |]. intros now. cbn [acts].
    rewrite !buttons_enabled_app, buttons_enabled_tell, Hcount. simpl.
    by destruct (returned (process_new W st0).2).
  - intros Hfile. unfold resume_previous. rewrite Hfile. cbn [negb].
    destruct (process_resume_trace W (core app))
      as (evs & Hev & (Hcount & _) & _).
    erewrite run_thread_acts by exact Hev.
    split; [done |]. intros now. cbn [acts act].
    rewrite !buttons_enabled_app, buttons_enabled_tell, Hcount. simpl.
    by destruct (returned (process_resume W (core app)).2).
Qed.

(** The example installation started with the batch size 0 typed: the
    thread dies and the buttons stay disabled. *)
Lemma zero_batch_size_typed_example :
  let d := mkDesk "/data" (Some 0) (Some 0.5%float) true true "Linux" true
             "/app/output" (Raise OtherError) in
  let app := mkApp (Example.start Processor_init NoFile) [] in
  buttons_enabled true (acts (start_new (Example.world Example.no_stop) d app))
  = false.
Proof.
  intros d app.
  destruct (proj1 (buttons_enabled_when_the_worker_returns
                     (Example.world Example.no_stop) d app)
              0 0.5%float ltac:(discriminate) eq_refl eq_refl
              ltac:(discriminate)) as [_ Hbuttons].
  rewrite Hbuttons. vm_compute. reflexivity.
Defined.

(** X24. [start_new] and the checkpoint of the run before. With no
    folder, or a batch size or a threshold that is not a number, it shows
    an error and does nothing else; when the user declines to overwrite the
    checkpoint it does nothing at all. Once the user has confirmed, the
    checkpoint file is removed before the thread is started: when the model
    then cannot be loaded, the new run processes nothing, and the progress
    of the run before is gone all the same. *)
Theorem start_new_and_the_old_checkpoint (W : World) (d : Desk) (app : App) :
  (path_entry d = EmptyString ∨ batch_entry d = None ∨ conf_entry d = None ->
   start_new W d app = act (Tell (ShowError "Error")) app)
  ∧ (forall bs th,
       path_entry d <> EmptyString ->
       batch_entry d = Some bs -> conf_entry d = Some th ->
       progress_file_exists (core app) = true ->
       (answers_yes d = false ->
        start_new W d app = act (AskYesNo "Start New") app)
       ∧ (answers_yes d = true -> remove_ok d = true ->
          model_dir_exists W && pipeline_loads W = false ->
          disk (core (start_new W d app)) = NoFile
          ∧ records (self (core (start_new W d app))) = []
          ∧ acts (start_new W d app)
            = acts app
              ++ [AskYesNo "Start New"; RemoveProgressFile; DisableUI;
                  StatusText "Starting new processing..."; StartThread;
                  Tell (SetStatus LoadingModel); Tell EnableUI;
                  Tell (ShowError "Model Error")])).
Proof.
  split.
  - intros Hbad. unfold start_new.
    destruct (String.eqb_spec (path_entry d) EmptyString) as [_ | Hfolder];
      [done |].
    destruct Hbad as [? | [-> | Hconf]]; [done | done |].
    rewrite Hconf. by destruct (batch_entry d).
  - intros bs th Hfolder Hbs Hth Hfile. split.
    + intros Hno. unfold start_new. rewrite Hbs, Hth, Hfile, Hno.
      by destruct (String.eqb_spec (path_entry d) EmptyString).
    + intros Hyes Hrm Hmodel.
      destruct (start_new_launches W d app bs th Hfolder Hbs Hth
                  ltac:(done)) as (evs & Hev & _ & ->).
      rewrite Hfile in *. cbn [core acts].
      rewrite process_new_no_model in * by done.
      cbn [fst self disk events records with_processed_paths with_records
           with_stop_flag at_launch] in *.
      rewrite Hfile, Hrm in *. simpl. split_and!; try done.
      apply app_inv_head in Hev. by subst evs.
Qed.

(** In the example, a run is stopped in its first batch; Start New is
    then confirmed where the model is no longer there: the record of the
    stopped run is in no file any more. *)
Lemma confirmed_overwrite_example :
  let st := (process_new (Example.world (Example.stop_at 2))
               (Example.start Example.configured NoFile)).1 in
  let W' := mkWorld (fun _ => None) (fun _ => Ok None) (fun _ => Ok [])
              (fun _ => Ok VOther) false false Example.no_stop
              (fun _ => true) (fun _ => EmptyString) (fun _ => WriteOk)
              (fun _ => true) (fun _ => OSError) in
  let d := mkDesk "/data" (Some 2) (Some 0.5%float) true true "Linux" true
             "/app/output" (Raise OtherError) in
  (exists payload, disk st = Stored payload)
  ∧ disk (core (start_new W' d (mkApp st []))) = NoFile
  ∧ records (self (core (start_new W' d (mkApp st [])))) = [].
Proof.
  intros st W' d. split; [eexists; vm_compute; reflexivity |].
  destruct (proj2 (start_new_and_the_old_checkpoint W' d (mkApp st []))
              2 0.5%float ltac:(discriminate) eq_refl eq_refl
              ltac:(vm_compute; reflexivity)) as [_ Hlost].
  destruct (Hlost eq_refl eq_refl eq_refl) as (Hdisk & Hrecs & _).
  by split.
Defined.

(** X25. The export from the checkpoint file touches neither the
    processor nor the file. With no file it shows a message and returns,
    without enabling the buttons; with a file it ends by enabling them,
    whatever happened before. From a checkpoint this program wrote it
    exports one row per record of the file, in their order, each the record
    without its path: the very rows the finalisation of a run exports from
    a processor that holds these records. *)
Theorem export_from_json_rows (W : World) (d : Desk) (app : App) :
  self (core (export_from_json W d app)) = self (core app)
  ∧ disk (core (export_from_json W d app)) = disk (core app)
  ∧ (disk (core app) = NoFile ->
     export_from_json W d app = act (Tell (ShowInfo "Export")) app)
  ∧ (progress_file_exists (core app) = true ->
     exists before, acts (export_from_json W d app) = before ++ [Tell EnableUI])
  ∧ (forall p t,
       disk (core app) = Stored (checkpoint_of p t) ->
       let rows := map export_row (records p) in
       excel_ok W rows = true ->
       export_from_json W d app
       = act (Tell EnableUI)
           (open_folder d (output_dir d)
              (mkApp (mkState (self (core app)) (disk (core app))
                        (events (core app) ++ [Exported rows])
                        (polls (core app)) (saves (core app)))
                 (acts app ++ [Tell (Exported rows); Tell (ShowInfo "Export")])))
       ∧ forall st,
           self st = p ->
           exists after,
             events (_finalize_processing W st).1
             = events st ++ Exported rows :: after).
Proof.
  assert (forall rows,
    call (save_to_excel W rows) app
    = if excel_ok W rows then
        (mkApp (mkState (self (core app)) (disk (core app))
                  (events (core app) ++ [Exported rows])
                  (polls (core app)) (saves (core app)))
           (acts app ++ [Tell (Exported rows)]), Ok tt)
      else (mkApp (core app) (acts app), Raise (excel_error W rows))) as Hsave.
  { intros rows. unfold call, save_to_excel.
    destruct (excel_ok W rows); simpl.
    - by rewrite drop_app_length.
    - by rewrite drop_all, app_nil_r. }
  assert (forall a, core (open_folder d (output_dir d) a) = core a) as Hopen.
  { intros a. unfold open_folder.
    destruct (String.eqb (platform_system d) "Windows"),
      (String.eqb (platform_system d) "Darwin"), (opener_ok d); done. }
  assert (forall a, exists more,
            acts (open_folder d (output_dir d) a) = acts a ++ more) as Hopen'.
  { intros a. unfold open_folder.
    destruct (String.eqb (platform_system d) "Windows"),
      (String.eqb (platform_system d) "Darwin"), (opener_ok d); simpl;
      rewrite <- ?app_assoc; by eexists. }
  unfold export_from_json.
  destruct (disk (core app)) as [| payload | c] eqn:Hdisk;
    unfold progress_file_exists; rewrite Hdisk; cbn [negb read_records].
  - split_and!; try done.
  - rewrite Hsave.
    destruct (excel_ok W (map export_row (default [] (payload_records payload))))
      eqn:Hexcel.
    + split_and!; try done.
      * cbn [act core]. by rewrite Hopen.
      * cbn [act core]. by rewrite Hopen.
      * intros _. by eexists.
      * intros p t [= ->]. cbn [payload_records checkpoint_of default].
        intros Hrows. split.
        { unfold act at 2. cbn [core acts]. by rewrite <- app_assoc. }
        intros st <-. rewrite finalize_exact. cbv zeta.
        rewrite Hrows, save_progress_exact. cbn [self disk events polls saves].
        destruct (makedirs_ok W (saves st)); [| by exists []].
        destruct (write_outcome W (saves st)); cbn [fst events];
          rewrite <- !app_assoc; by eexists.
    + split_and!; try done.
      * intros _. by eexists.
      * intros p t [= ->]. simpl in Hexcel. intros Hrows. congruence.
  - split_and!; try done.
    + destruct c; cbn [read_records];
        try (destruct (records_entry d) as [recs' | e]; [| done]);
        rewrite Hsave; destruct (excel_ok W _); cbn [act core];
        by rewrite ?Hopen.
    + destruct c; cbn [read_records];
        try (destruct (records_entry d) as [recs' | e]; [| done]);
        rewrite Hsave; destruct (excel_ok W _); cbn [act core];
        by rewrite ?Hopen.
    + intros _. by eexists.
Qed.

(** In the example, the export from the checkpoint of a stopped run
    writes the one row of its one record. *)
Lemma export_from_json_example :
  let W := Example.world (Example.stop_at 2) in
  let st := (process_new W (Example.start Example.configured NoFile)).1 in
  let d := mkDesk "/data" (Some 2) (Some 0.5%float) true true "Linux" true
             "/app/output" (Raise OtherError) in
  acts (export_from_json W d (mkApp st []))
  = [Tell (Exported (map export_row (records (self st))));
     Tell (ShowInfo "Export"); Popen ["xdg-open"; "/app/output"];
     Tell EnableUI].
Proof.
  intros W st d.
  assert (exists t, disk st = Stored (checkpoint_of (self st) t)) as [t Hdisk]
    by (eexists; vm_compute; reflexivity).
  destruct (export_from_json_rows W d (mkApp st [])) as (_ & _ & _ & _ & Hrows).
  destruct (Hrows (self st) t Hdisk eq_refl) as [-> _]. reflexivity.
Defined.


(** ** The new run and the checkpoint file *)

Lemma blind_ret {A} (a : A) : blind (ret a).
Proof. by intros d1 d2 st1 st2 H. Qed.

Lemma blind_raise {A} (e : exn) : blind (raise (A := A) e).
Proof. by intros d1 d2 st1 st2 H. Qed.

Lemma blind_lift {A} (o : outcome A) : blind (lift o).
Proof. by intros d1 d2 st1 st2 H. Qed.

Lemma blind_bind {A B} (m : M A) (f : A -> M B) :
  blind m -> (forall a, blind (f a)) -> blind (bind m f).
Proof.
  intros Hm Hf d1 d2 st1 st2 H. unfold bind.
  destruct (Hm d1 d2 st1 st2 H) as [H' Ho].
  destruct (m st1) as [st1' o1], (m st2) as [st2' o2]. simpl in *. subst o2.
  destruct o1 as [a | e]; [by apply Hf | done].
Qed.

Lemma blind_try_except {A} (m : M A) (h : exn -> M A) :
  blind m -> (forall e, blind (h e)) -> blind (try_except m h).
Proof.
  intros Hm Hh d1 d2 st1 st2 H. unfold try_except.
  destruct (Hm d1 d2 st1 st2 H) as [H' Ho].
  destruct (m st1) as [st1' o1], (m st2) as [st2' o2]. simpl in *. subst o2.
  destruct o1 as [a | e]; [done | by apply Hh].
Qed.

Lemma blind_get_self : blind get_self.
Proof.
  intros d1 d2 st1 st2 H. split; [done |]. simpl. by destruct H as (-> & _).
Qed.

Lemma blind_modify_self (f : Processor -> Processor) : blind (modify_self f).
Proof.
  intros d1 d2 st1 st2 (Hs & He & Hp & Hv & Hd). split; [| done].
  unfold same_but_file. simpl. by rewrite Hs.
Qed.

Lemma blind_emit (e : Event) : blind (emit e).
Proof.
  intros d1 d2 st1 st2 (Hs & He & Hp & Hv & Hd). split; [| done].
  unfold same_but_file. simpl. by rewrite He.
Qed.

Lemma blind_set_disk (d : Disk) : blind (set_disk d).
Proof.
  intros d1 d2 st1 st2 (Hs & He & Hp & Hv & Hd). split; [| done].
  unfold same_but_file. simpl. split_and!; auto.
Qed.

(** Settles that a computation made of such steps is one. *)
Ltac blind_steps :=
  repeat first
    [ apply blind_bind; [| intros ?]
    | apply blind_try_except; [| intros ?]
    | apply blind_ret | apply blind_raise | apply blind_lift
    | apply blind_get_self | apply blind_modify_self
    | apply blind_emit | apply blind_set_disk
    | match goal with
      | |- blind (if ?b then _ else _) => destruct b
      | |- blind (match ?x with _ => _ end) => destruct x
      end ].

Lemma blind_read_stop_flag (W : World) : blind (read_stop_flag W).
Proof.
  intros d1 d2 st1 st2 (Hs & He & Hp & Hv & Hd). unfold read_stop_flag.
  simpl. rewrite Hs, Hp. split; [| done].
  unfold same_but_file. simpl. by rewrite He, Hv.
Qed.

Lemma blind_save_progress (W : World) : blind (_save_progress W).
Proof.
  intros d1 d2 st1 st2 (Hs & He & Hp & Hv & Hd).
  rewrite !save_progress_exact, Hs, He, Hp, Hv.
  destruct (makedirs_ok W (saves st2)); [| by split].
  destruct (write_outcome W (saves st2)); split; try done;
    unfold same_but_file; simpl; split_and!; auto.
Qed.

Lemma blind_classify_batch (W : World) (batch : list string) :
  blind (_classify_batch W batch).
Proof.
  intros d1 d2 st1 st2 (Hs & He & Hp & Hv & Hd).
  rewrite !classify_batch_exact, Hs, He, Hp, Hv.
  destruct (classifier (self st2)); [| by split].
  destruct (classify_many W batch); by split.
Qed.

Lemma blind_record_loop (W : World) (total : nat)
    (results : list ClassificationResult) (batch : list string) (j : nat) :
  blind (record_loop W total results j batch).
Proof.
  revert j. induction batch as [|img_path rest IH]; intros j.
  - apply blind_ret.
  - cbn [record_loop]. unfold index.
    apply blind_bind; [apply blind_read_stop_flag | intros stopped].
    destruct stopped; [apply blind_ret |].
    blind_steps. apply IH.
Qed.

Lemma blind_batch_loop (W : World) (total : nat) (paths : list string)
    (starts : list nat) :
  blind (batch_loop W total paths starts).
Proof.
  induction starts as [|i starts IH].
  - apply blind_ret.
  - cbn [batch_loop].
    apply blind_bind; [apply blind_read_stop_flag | intros stopped].
    destruct stopped; [apply blind_ret |].
    apply blind_bind; [| intros _; exact IH].
    unfold batch_iteration.
    apply blind_bind; [apply blind_get_self | intros me].
    apply blind_bind; [apply blind_classify_batch | intros results].
    apply blind_bind; [apply blind_record_loop | intros _].
    apply blind_save_progress.
Qed.

Lemma blind_process_new (W : World) : blind (process_new W).
Proof.
  unfold process_new, guarded, reset_state, load_model, _scan_all_images,
    batch_starts, _finalize_processing, save_to_excel.
  apply blind_bind.
  { blind_steps. }
  intros ready. destruct ready; cbn [negb]; [| apply blind_ret].
  apply blind_bind; [blind_steps |]. intros all_paths.
  destruct all_paths as [|p0 rest]; [blind_steps |].
  apply blind_bind; [apply blind_emit | intros _].
  apply blind_bind; [apply blind_emit | intros _].
  apply blind_bind; [blind_steps | intros starts].
  apply blind_bind; [apply blind_batch_loop | intros _].
  apply blind_bind; [apply blind_get_self | intros me].
  apply blind_bind; [blind_steps | intros _].
  apply blind_bind; [apply blind_save_progress | intros _].
  blind_steps.
Qed.

(** X26. A new run never reads the checkpoint file: started with another
    file in its place, one that cannot be read included, it ends in the
    same way, with the same processor and having done the same to the
    outside, and it leaves the same checkpoint file, unless it wrote none,
    in which case each file is as it was. *)
Theorem new_run_never_reads_the_checkpoint (W : World) (st : State)
    (other : Disk) :
  let r := process_new W st in
  let r' := process_new W
              (mkState (self st) other (events st) (polls st) (saves st)) in
  r'.2 = r.2
  ∧ self r'.1 = self r.1
  ∧ events r'.1 = events r.1
  ∧ (disk r'.1 = disk r.1 ∨ (disk r.1 = disk st ∧ disk r'.1 = other)).
Proof.
  intros r r'.
  destruct (blind_process_new W (disk st) other st
              (mkState (self st) other (events st) (polls st) (saves st)))
    as [(Hs & He & _ & _ & Hd) Ho].
  { unfold same_but_file. simpl. split_and!; auto. }
  fold r r' in Hs, He, Hd, Ho. split_and!; try done.
  destruct Hd as [Hd | [Hd1 Hd2]]; [by left | by right].
Qed.
